(** * A shallow embedding of the baseline JPEG decoder (src/decoder.cpp)

    The decoder is embedded function by function.  C++ machine integers
    are mathematical integers with their wrap-around written out, the
    input file is a list of bytes with the stream's fail bit, the header
    and the MCUs are records, and the IEEE double arithmetic of the colour
    conversion is the kernel's binary64 arithmetic. *)

From Stdlib Require Import ZArith List Bool Lia Floats Uint63.
From Stdlib.Strings Require Import Byte.
From stdpp Require Import base list.
Import ListNotations.

#[local] Open Scope Z_scope.
#[local] Set Warnings "-inexact-float".

(** ** Machine integers *)

(** [byte] is [unsigned char], [uint] is [unsigned int], [int] is a 32-bit
    two's complement integer.  A conversion to one of these types keeps the
    low bits. *)
Definition to_byte (z : Z) : Z := z mod 256.
Definition to_u16 (z : Z) : Z := z mod 65536.
Definition to_uint (z : Z) : Z := z mod 4294967296.
Definition to_int (z : Z) : Z := (z + 2147483648) mod 4294967296 - 2147483648.

(** ** Marker codes

    Modelled from the spec: jpg.h is not part of the sources; the marker
    values are the ones section 4.1 of the specification lists (DNL, DHP
    and EXP, which it names without a value, have their standard codes). *)
Module Marker.
Definition SOF0 : Z := 192.
Definition SOF15 : Z := 207.
Definition DHT : Z := 196.
Definition DAC : Z := 204.
Definition RST0 : Z := 208.
Definition RST7 : Z := 215.
Definition SOI : Z := 216.
Definition EOI : Z := 217.
Definition SOS : Z := 218.
Definition DQT : Z := 219.
Definition DNL : Z := 220.
Definition DRI : Z := 221.
Definition DHP : Z := 222.
Definition EXP : Z := 223.
Definition APP0 : Z := 224.
Definition APP15 : Z := 239.
Definition JPG0 : Z := 240.
Definition JPG13 : Z := 253.
Definition COM : Z := 254.
Definition TEM : Z := 1.
End Marker.
Import Marker.

(** ** The input stream

    [std::ifstream] as the bytes not yet read and the fail bit.  [get]
    returns the next byte as an [int], or EOF (-1) and sets the fail bit
    once the bytes are exhausted. *)
Record ifstream := mkStream { pending : list byte; failbit : bool }.

Definition byte_val (b : byte) : Z := Z.of_N (Byte.to_N b).

Definition get (s : ifstream) : Z * ifstream :=
  if failbit s then (-1, s)
  else match pending s with
       | [] => (-1, mkStream [] true)
       | b :: r => (byte_val b, mkStream r false)
       end.

(** [byte x = inFile.get()] *)
Definition get_byte (s : ifstream) : Z * ifstream :=
  let '(v, s) := get s in (to_byte v, s).

(** [(inFile.get() << 8) + inFile.get()], an [int], read left to right. *)
Definition get16 (s : ifstream) : Z * ifstream :=
  let '(hi, s) := get s in
  let '(lo, s) := get s in
  (Z.shiftl hi 8 + lo, s).

(** [n] calls of [get] whose results are dropped; the closed form of the
    loops of readAPPN and readComment. *)
Definition skip (n : Z) (s : ifstream) : ifstream :=
  if failbit s then s
  else if n <=? 0 then s
  else if n <=? Z.of_nat (length (pending s))
       then mkStream (drop (Z.to_nat n) (pending s)) false
       else mkStream [] true.

(** [k] successive results of [get], each passed through [cast]. *)
Fixpoint get_many (cast : Z -> Z) (k : nat) (s : ifstream) : list Z * ifstream :=
  match k with
  | O => ([], s)
  | S k' =>
      let '(v, s) := get s in
      let '(vs, s) := get_many cast k' s in
      (cast v :: vs, s)
  end.

Fixpoint get16_many (cast : Z -> Z) (k : nat) (s : ifstream) : list Z * ifstream :=
  match k with
  | O => ([], s)
  | S k' =>
      let '(v, s) := get16 s in
      let '(vs, s) := get16_many cast k' s in
      (cast v :: vs, s)
  end.

(** ** The header

    Modelled from the spec: the struct declarations of jpg.h are not part
    of the sources; the fields and their widths are those of section 3 of
    the specification (quantization entries [u16], Huffman offsets [u32],
    symbols [u8]; [height], [width] and [restartInterval] are [uint],
    the remaining scalars are [byte]). *)
Record QuantizationTable := mkQTable { q_table : list Z; q_set : bool }.

Record HuffmanTable := mkHTable {
  offsets : list Z;   (* 17 entries *)
  symbols : list Z;   (* 162 entries *)
  h_set : bool }.

Record ColorComponent := mkComponent {
  horizontalSamplingFactor : Z;
  verticalSamplingFactor : Z;
  quantizationTableID : Z;
  huffmanDCTableID : Z;
  huffmanACTableID : Z;
  used : bool }.

Record Header := mkHeader {
  quantizationTables : list QuantizationTable;   (* 4 *)
  huffmanDCTables : list HuffmanTable;           (* 4 *)
  huffmanACTables : list HuffmanTable;           (* 4 *)
  frameType : Z;
  height : Z;
  width : Z;
  numComponents : Z;
  zeroBased : bool;
  startOfSelection : Z;
  endOfSelection : Z;
  successiveApproximationHigh : Z;
  successiveApproximationLow : Z;
  restartInterval : Z;
  colorComponents : list ColorComponent;         (* 3 *)
  huffmanData : list Z;
  valid : bool }.

Definition newQTable : QuantizationTable := mkQTable (replicate 64 0) false.
Definition newHTable : HuffmanTable :=
  mkHTable (replicate 17 0) (replicate 162 0) false.
Definition newComponent : ColorComponent := mkComponent 1 1 0 0 0 false.

(** Modelled from the spec: "Header is constructed empty"; the member
    initialisers of jpg.h are not part of the sources.  No table is set, no
    component is used, the sampling factors are 1 and the header is valid. *)
Definition newHeader : Header :=
  mkHeader (replicate 4 newQTable) (replicate 4 newHTable) (replicate 4 newHTable)
           0 0 0 0 false 0 63 0 0 0 (replicate 3 newComponent) [] true.

(** Field updates. *)
Definition set_valid (v : bool) (h : Header) : Header :=
  mkHeader (quantizationTables h) (huffmanDCTables h) (huffmanACTables h)
    (frameType h) (height h) (width h) (numComponents h) (zeroBased h)
    (startOfSelection h) (endOfSelection h) (successiveApproximationHigh h)
    (successiveApproximationLow h) (restartInterval h) (colorComponents h)
    (huffmanData h) v.
Definition set_quantizationTables (x : list QuantizationTable) (h : Header) : Header :=
  mkHeader x (huffmanDCTables h) (huffmanACTables h)
    (frameType h) (height h) (width h) (numComponents h) (zeroBased h)
    (startOfSelection h) (endOfSelection h) (successiveApproximationHigh h)
    (successiveApproximationLow h) (restartInterval h) (colorComponents h)
    (huffmanData h) (valid h).
Definition set_huffmanDCTables (x : list HuffmanTable) (h : Header) : Header :=
  mkHeader (quantizationTables h) x (huffmanACTables h)
    (frameType h) (height h) (width h) (numComponents h) (zeroBased h)
    (startOfSelection h) (endOfSelection h) (successiveApproximationHigh h)
    (successiveApproximationLow h) (restartInterval h) (colorComponents h)
    (huffmanData h) (valid h).
Definition set_huffmanACTables (x : list HuffmanTable) (h : Header) : Header :=
  mkHeader (quantizationTables h) (huffmanDCTables h) x
    (frameType h) (height h) (width h) (numComponents h) (zeroBased h)
    (startOfSelection h) (endOfSelection h) (successiveApproximationHigh h)
    (successiveApproximationLow h) (restartInterval h) (colorComponents h)
    (huffmanData h) (valid h).
Definition set_frameType (x : Z) (h : Header) : Header :=
  mkHeader (quantizationTables h) (huffmanDCTables h) (huffmanACTables h)
    x (height h) (width h) (numComponents h) (zeroBased h)
    (startOfSelection h) (endOfSelection h) (successiveApproximationHigh h)
    (successiveApproximationLow h) (restartInterval h) (colorComponents h)
    (huffmanData h) (valid h).
Definition set_height (x : Z) (h : Header) : Header :=
  mkHeader (quantizationTables h) (huffmanDCTables h) (huffmanACTables h)
    (frameType h) x (width h) (numComponents h) (zeroBased h)
    (startOfSelection h) (endOfSelection h) (successiveApproximationHigh h)
    (successiveApproximationLow h) (restartInterval h) (colorComponents h)
    (huffmanData h) (valid h).
Definition set_width (x : Z) (h : Header) : Header :=
  mkHeader (quantizationTables h) (huffmanDCTables h) (huffmanACTables h)
    (frameType h) (height h) x (numComponents h) (zeroBased h)
    (startOfSelection h) (endOfSelection h) (successiveApproximationHigh h)
    (successiveApproximationLow h) (restartInterval h) (colorComponents h)
    (huffmanData h) (valid h).
Definition set_numComponents (x : Z) (h : Header) : Header :=
  mkHeader (quantizationTables h) (huffmanDCTables h) (huffmanACTables h)
    (frameType h) (height h) (width h) x (zeroBased h)
    (startOfSelection h) (endOfSelection h) (successiveApproximationHigh h)
    (successiveApproximationLow h) (restartInterval h) (colorComponents h)
    (huffmanData h) (valid h).
Definition set_zeroBased (x : bool) (h : Header) : Header :=
  mkHeader (quantizationTables h) (huffmanDCTables h) (huffmanACTables h)
    (frameType h) (height h) (width h) (numComponents h) x
    (startOfSelection h) (endOfSelection h) (successiveApproximationHigh h)
    (successiveApproximationLow h) (restartInterval h) (colorComponents h)
    (huffmanData h) (valid h).
Definition set_selection (ss se ah al : Z) (h : Header) : Header :=
  mkHeader (quantizationTables h) (huffmanDCTables h) (huffmanACTables h)
    (frameType h) (height h) (width h) (numComponents h) (zeroBased h)
    ss se ah al (restartInterval h) (colorComponents h)
    (huffmanData h) (valid h).
Definition set_restartInterval (x : Z) (h : Header) : Header :=
  mkHeader (quantizationTables h) (huffmanDCTables h) (huffmanACTables h)
    (frameType h) (height h) (width h) (numComponents h) (zeroBased h)
    (startOfSelection h) (endOfSelection h) (successiveApproximationHigh h)
    (successiveApproximationLow h) x (colorComponents h)
    (huffmanData h) (valid h).
Definition set_colorComponents (x : list ColorComponent) (h : Header) : Header :=
  mkHeader (quantizationTables h) (huffmanDCTables h) (huffmanACTables h)
    (frameType h) (height h) (width h) (numComponents h) (zeroBased h)
    (startOfSelection h) (endOfSelection h) (successiveApproximationHigh h)
    (successiveApproximationLow h) (restartInterval h) x
    (huffmanData h) (valid h).
Definition set_huffmanData (x : list Z) (h : Header) : Header :=
  mkHeader (quantizationTables h) (huffmanDCTables h) (huffmanACTables h)
    (frameType h) (height h) (width h) (numComponents h) (zeroBased h)
    (startOfSelection h) (endOfSelection h) (successiveApproximationHigh h)
    (successiveApproximationLow h) (restartInterval h) (colorComponents h)
    x (valid h).

Definition invalid (h : Header) : Header := set_valid false h.

(** Array reads at an index known to be in range. *)
Definition component_at (h : Header) (i : nat) : ColorComponent :=
  nth i (colorComponents h) newComponent.
Definition qtable_at (h : Header) (i : Z) : QuantizationTable :=
  nth (Z.to_nat i) (quantizationTables h) newQTable.
Definition dctable_at (h : Header) (i : Z) : HuffmanTable :=
  nth (Z.to_nat i) (huffmanDCTables h) newHTable.
Definition actable_at (h : Header) (i : Z) : HuffmanTable :=
  nth (Z.to_nat i) (huffmanACTables h) newHTable.

Definition alter_component (f : ColorComponent -> ColorComponent) (i : nat)
    (h : Header) : Header :=
  set_colorComponents (alter f i (colorComponents h)) h.

Definition with_used (u : bool) (c : ColorComponent) : ColorComponent :=
  mkComponent (horizontalSamplingFactor c) (verticalSamplingFactor c)
    (quantizationTableID c) (huffmanDCTableID c) (huffmanACTableID c) u.
Definition with_sampling (hs vs : Z) (c : ColorComponent) : ColorComponent :=
  mkComponent hs vs (quantizationTableID c) (huffmanDCTableID c)
    (huffmanACTableID c) (used c).
Definition with_quantizationTableID (q : Z) (c : ColorComponent) : ColorComponent :=
  mkComponent (horizontalSamplingFactor c) (verticalSamplingFactor c)
    q (huffmanDCTableID c) (huffmanACTableID c) (used c).
Definition with_huffmanTableIDs (dc ac : Z) (c : ColorComponent) : ColorComponent :=
  mkComponent (horizontalSamplingFactor c) (verticalSamplingFactor c)
    (quantizationTableID c) dc ac (used c).

(** ** Segment readers *)

(** An array access of the source either stays inside the array or leaves
    it; the latter is undefined behaviour and ends the model's run with the
    offending index. *)
Inductive access (A : Type) : Type :=
  | InBounds (a : A)
  | OutOfBounds (idx : Z).
Arguments InBounds {A} a.
Arguments OutOfBounds {A} idx.

(** The body of the component loop of readStartOfFrame.  The flag is
    [false] when the body returns from the function. *)
Definition sofComponent (s : ifstream) (h : Header) : ifstream * Header * bool :=
  let '(componentID, s) := get_byte s in
  let h := if componentID =? 0 then set_zeroBased true h else h in
  let componentID :=
    if zeroBased h then to_byte (componentID + 1) else componentID in
  if (componentID =? 4) || (componentID =? 5) then (s, invalid h, false)
  else if (componentID =? 0) || (3 <? componentID) then (s, invalid h, false)
  else
    let idx := Z.to_nat (componentID - 1) in
    if used (component_at h idx) then (s, invalid h, false)
    else
      let h := alter_component (with_used true) idx h in
      let '(samplingFactor, s) := get_byte s in
      let h := alter_component
                 (with_sampling (Z.shiftr samplingFactor 4)
                                (Z.land samplingFactor 15)) idx h in
      let '(q, s) := get_byte s in
      let h := alter_component (with_quantizationTableID q) idx h in
      if 3 <? q then (s, invalid h, false) else (s, h, true).

Fixpoint sofComponents (n : nat) (s : ifstream) (h : Header)
    : ifstream * Header * bool :=
  match n with
  | O => (s, h, true)
  | S n' =>
      let '(s, h, go) := sofComponent s h in
      if go then sofComponents n' s h else (s, h, false)
  end.

Definition readStartOfFrame (s : ifstream) (h : Header) : ifstream * Header :=
  if negb (numComponents h =? 0) then (s, invalid h)
  else
    let '(len, s) := get16 s in
    let length := to_uint len in
    let '(precision, s) := get_byte s in
    if negb (precision =? 8) then (s, invalid h)
    else
      let '(hh, s) := get16 s in
      let h := set_height (to_uint hh) h in
      let '(ww, s) := get16 s in
      let h := set_width (to_uint ww) h in
      if (height h =? 0) || (width h =? 0) then (s, invalid h)
      else
        let '(nc, s) := get_byte s in
        let h := set_numComponents nc h in
        if nc =? 4 then (s, invalid h)
        else if nc =? 0 then (s, invalid h)
        else
          let '(s, h, go) := sofComponents (Z.to_nat nc) s h in
          if negb go then (s, h)
          else if negb (to_uint (length - 8 - 3 * nc) =? 0) then (s, invalid h)
          else (s, h).

(** The [while (length > 0)] loop of readQuantizationTable followed by the
    final length check.  Every iteration takes at least 65 off [length], so
    [fuel = length] iterations are never used up (see [table_readers_fuel]). *)
Fixpoint dqtLoop (fuel : nat) (length : Z) (s : ifstream) (h : Header)
    : ifstream * Header :=
  if length <=? 0 then
    if negb (length =? 0) then (s, invalid h) else (s, h)
  else
    match fuel with
    | O => (s, h)
    | S fuel' =>
        let '(tableInfo, s) := get_byte s in
        let length := length - 1 in
        let tableID := Z.land tableInfo 15 in
        if 3 <? tableID then (s, invalid h)
        else
          let i := Z.to_nat tableID in
          let h := set_quantizationTables
                     (alter (fun q => mkQTable (q_table q) true) i
                            (quantizationTables h)) h in
          if negb (Z.shiftr tableInfo 4 =? 0) then
            let '(vals, s) := get16_many to_u16 64 s in
            let h := set_quantizationTables
                       (alter (fun q => mkQTable vals (q_set q)) i
                              (quantizationTables h)) h in
            dqtLoop fuel' (length - 128) s h
          else
            let '(vals, s) := get_many to_u16 64 s in
            let h := set_quantizationTables
                       (alter (fun q => mkQTable vals (q_set q)) i
                              (quantizationTables h)) h in
            dqtLoop fuel' (length - 64) s h
    end.

Definition readQuantizationTable (s : ifstream) (h : Header) : ifstream * Header :=
  let '(len, s) := get16 s in
  let length := len - 2 in
  dqtLoop (Z.to_nat length) length s h.

(** The sixteen code counts of a DHT table: the running sum [allSymbols]
    (a [uint]) is stored after each count. *)
Fixpoint dhtOffsets (k : nat) (allSymbols : Z) (s : ifstream)
    : list Z * Z * ifstream :=
  match k with
  | O => ([], allSymbols, s)
  | S k' =>
      let '(v, s) := get s in
      let allSymbols := to_uint (allSymbols + v) in
      let '(rest, total, s) := dhtOffsets k' allSymbols s in
      (allSymbols :: rest, total, s)
  end.

(** The loop of readHuffmanTable and its final length check; every
    iteration takes at least 17 off [length]. *)
Fixpoint dhtLoop (fuel : nat) (length : Z) (s : ifstream) (h : Header)
    : ifstream * Header :=
  if length <=? 0 then
    if negb (length =? 0) then (s, invalid h) else (s, h)
  else
    match fuel with
    | O => (s, h)
    | S fuel' =>
        let '(tableInfo, s) := get_byte s in
        let tableID := Z.land tableInfo 15 in
        let ACTable := negb (Z.shiftr tableInfo 4 =? 0) in
        if 3 <? tableID then (s, invalid h)
        else
          let i := Z.to_nat tableID in
          let tables := if ACTable then huffmanACTables h else huffmanDCTables h in
          let store ts h :=
            if ACTable then set_huffmanACTables ts h else set_huffmanDCTables ts h in
          let hTable := nth i tables newHTable in
          let '(offs, allSymbols, s) := dhtOffsets 16 0 s in
          let hTable := mkHTable (0 :: offs) (symbols hTable) true in
          if 162 <? allSymbols then (s, invalid (store (<[i := hTable]> tables) h))
          else
            let n := Z.to_nat allSymbols in
            let '(syms, s) := get_many to_byte n s in
            let hTable := mkHTable (offsets hTable)
                                   (syms ++ drop n (symbols hTable)) true in
            dhtLoop fuel' (to_int (length - (17 + allSymbols))) s
                    (store (<[i := hTable]> tables) h)
    end.

Definition readHuffmanTable (s : ifstream) (h : Header) : ifstream * Header :=
  let '(len, s) := get16 s in
  let length := len - 2 in
  dhtLoop (Z.to_nat length) length s h.

(** [colorComponents[i].used = false] for [i < numComponents]. *)
Fixpoint clearUsed (n : nat) (i : nat) (h : Header) : access Header :=
  match n with
  | O => InBounds h
  | S n' =>
      if (3 <=? i)%nat then OutOfBounds (Z.of_nat i)
      else clearUsed n' (S i) (alter_component (with_used false) i h)
  end.

(** The body of the component loop of readStartOfScan.  The element
    [colorComponents[componentID - 1]] is addressed with the [int]
    [componentID - 1]. *)
Definition sosComponent (s : ifstream) (h : Header)
    : access (ifstream * Header * bool) :=
  let '(componentID, s) := get_byte s in
  let componentID :=
    if zeroBased h then to_byte (componentID + 1) else componentID in
  if numComponents h <? componentID then InBounds (s, invalid h, false)
  else
    let index := componentID - 1 in
    if (index <? 0) || (3 <=? index) then OutOfBounds index
    else
      let idx := Z.to_nat index in
      if used (component_at h idx) then InBounds (s, invalid h, false)
      else
        let h := alter_component (with_used true) idx h in
        let '(huffmanTableIDs, s) := get_byte s in
        let dc := Z.shiftr huffmanTableIDs 4 in
        let ac := Z.land huffmanTableIDs 15 in
        let h := alter_component (with_huffmanTableIDs dc ac) idx h in
        if 3 <? dc then InBounds (s, invalid h, false)
        else if 3 <? ac then InBounds (s, invalid h, false)
        else InBounds (s, h, true).

Fixpoint sosComponents (n : nat) (s : ifstream) (h : Header)
    : access (ifstream * Header * bool) :=
  match n with
  | O => InBounds (s, h, true)
  | S n' =>
      match sosComponent s h with
      | InBounds (s, h, true) => sosComponents n' s h
      | r => r
      end
  end.

Definition readStartOfScan (s : ifstream) (h : Header)
    : access (ifstream * Header) :=
  if numComponents h =? 0 then InBounds (s, invalid h)
  else
    let '(len, s) := get16 s in
    let length := to_uint len in
    match clearUsed (Z.to_nat (numComponents h)) 0 h with
    | OutOfBounds i => OutOfBounds i
    | InBounds h =>
        let '(numComponents, s) := get_byte s in
        match sosComponents (Z.to_nat numComponents) s h with
        | OutOfBounds i => OutOfBounds i
        | InBounds (s, h, false) => InBounds (s, h)
        | InBounds (s, h, true) =>
            let '(ss, s) := get_byte s in
            let '(se, s) := get_byte s in
            let '(successiveApproximation, s) := get_byte s in
            let h := set_selection ss se
                       (Z.shiftr successiveApproximation 4)
                       (Z.land successiveApproximation 15) h in
            if negb (startOfSelection h =? 0) || negb (endOfSelection h =? 63)
            then InBounds (s, invalid h)
            else if negb (successiveApproximationHigh h =? 0)
                    || negb (successiveApproximationLow h =? 0)
            then InBounds (s, invalid h)
            else if negb (to_uint (length - 6 - 2 * numComponents) =? 0)
            then InBounds (s, invalid h)
            else InBounds (s, h)
        end
    end.

Definition readRestartInterval (s : ifstream) (h : Header) : ifstream * Header :=
  let '(len, s) := get16 s in
  let length := to_uint len in
  let '(ri, s) := get16 s in
  let h := set_restartInterval (to_uint ri) h in
  if negb (to_uint (length - 4) =? 0) then (s, invalid h) else (s, h).

Definition readAPPN (s : ifstream) (h : Header) : ifstream * Header :=
  let '(len, s) := get16 s in
  let length := to_uint len in
  (skip (to_uint (length - 2)) s, h).

Definition readComment (s : ifstream) (h : Header) : ifstream * Header :=
  let '(len, s) := get16 s in
  let length := to_uint len in
  (skip (to_uint (length - 2)) s, h).

(** ** readJPG *)

(** How the marker loop of readJPG ends: a [return header] inside the loop,
    leaving the loop (the [break] after SOS, or the loop condition
    [header->valid] failing), or an access outside [colorComponents]. *)
Inductive MarkerResult : Type :=
  | MReturn (h : Header)
  | MLeave (s : ifstream) (h : Header)
  | MFault (idx : Z)
  | MOutOfFuel.

Definition in_range (lo hi x : Z) : bool := (lo <=? x) && (x <=? hi).

(** One pass of the [while (header->valid)] loop, from the test of the loop
    condition on.  [last] and [current] are the two [byte] variables of
    readJPG.  The pass either ends the loop or hands the next pass its
    stream, bytes and header. *)
Inductive MarkerStep : Type :=
  | Again (s : ifstream) (last current : Z) (h : Header)
  | Stop (res : MarkerResult).

(** [last = inFile.get(); current = inFile.get();] at the end of a pass. *)
Definition nextMarker (sh : ifstream * Header) : MarkerStep :=
  let '(s, h) := sh in
  let '(last, s) := get_byte s in
  let '(current, s) := get_byte s in
  Again s last current h.

Definition markerStep (s : ifstream) (last current : Z) (h : Header) : MarkerStep :=
  if negb (valid h) then Stop (MLeave s h)
  else if failbit s then Stop (MReturn (invalid h))
  else if negb (last =? 255) then Stop (MReturn (invalid h))
  else if current =? SOF0 then
    nextMarker (readStartOfFrame s (set_frameType SOF0 h))
  else if current =? DQT then nextMarker (readQuantizationTable s h)
  else if current =? DHT then nextMarker (readHuffmanTable s h)
  else if current =? SOS then
    match readStartOfScan s h with
    | OutOfBounds i => Stop (MFault i)
    | InBounds (s, h) => Stop (MLeave s h)
    end
  else if current =? DRI then nextMarker (readRestartInterval s h)
  else if in_range APP0 APP15 current then nextMarker (readAPPN s h)
  else if current =? COM then nextMarker (readComment s h)
  else if in_range JPG0 JPG13 current || (current =? DNL)
          || (current =? DHP) || (current =? EXP)
  then nextMarker (readComment s h)
  else if current =? TEM then nextMarker (s, h)
  else if current =? 255 then
    let '(current, s) := get_byte s in
    Again s last current h
  else if current =? SOI then Stop (MReturn (invalid h))
  else if current =? EOI then Stop (MReturn (invalid h))
  else if current =? DAC then Stop (MReturn (invalid h))
  else if in_range SOF0 SOF15 current then Stop (MReturn (invalid h))
  else if in_range RST0 RST7 current then Stop (MReturn (invalid h))
  else Stop (MReturn (invalid h)).

(** The loop: at most [fuel] passes are followed by another one.  A file
    never needs more passes than it has bytes (see [readJPG_total]). *)
Fixpoint readMarkers (fuel : nat) (s : ifstream) (last current : Z) (h : Header)
    : MarkerResult :=
  match markerStep s last current h with
  | Stop res => res
  | Again s last current h =>
      match fuel with
      | O => MOutOfFuel
      | S fuel' => readMarkers fuel' s last current h
      end
  end.

(** How the extraction of the entropy-coded bytes ends: a failure (the
    header is returned invalid, with the bytes pushed so far) or the [break]
    at EOI. *)
Inductive ScanResult : Type :=
  | ScanFail (data : list Z)
  | ScanDone (s : ifstream) (data : list Z)
  | ScanOutOfFuel.

(** The [while (true)] loop that fills [huffmanData]; [data] is the vector's
    content and [data ++ [last]] is [push_back(last)]. *)
Fixpoint readScanData (fuel : nat) (s : ifstream) (current : Z) (data : list Z)
    : ScanResult :=
  match fuel with
  | O => ScanOutOfFuel
  | S fuel' =>
      if failbit s then ScanFail data
      else
        let last := current in
        let '(current, s) := get_byte s in
        if last =? 255 then
          if current =? EOI then ScanDone s data
          else if current =? 0 then
            let data := data ++ [last] in
            let '(current, s) := get_byte s in
            readScanData fuel' s current data
          else if in_range RST0 RST7 current then
            let '(current, s) := get_byte s in
            readScanData fuel' s current data
          else if current =? 255 then readScanData fuel' s current data
          else ScanFail data
        else readScanData fuel' s current (data ++ [last])
  end.

(** The table checks at the end of readJPG, for components [i], [i+1], ... *)
Fixpoint checkTables (n : nat) (i : nat) (h : Header) : Header :=
  match n with
  | O => h
  | S n' =>
      let c := component_at h i in
      if negb (q_set (qtable_at h (quantizationTableID c))) then invalid h
      else if negb (h_set (dctable_at h (huffmanDCTableID c))) then invalid h
      else if negb (h_set (actable_at h (huffmanACTableID c))) then invalid h
      else checkTables n' (S i) h
  end.

Definition bad_sampling (c : ColorComponent) : bool :=
  negb (horizontalSamplingFactor c =? 1) || negb (verticalSamplingFactor c =? 1).

(** "validate header info" *)
Definition validateHeader (h : Header) : Header :=
  if negb (numComponents h =? 1) && negb (numComponents h =? 3) then invalid h
  else if bad_sampling (component_at h 0) then invalid h
  else if (numComponents h =? 3) && bad_sampling (component_at h 1) then invalid h
  else if (numComponents h =? 3) && bad_sampling (component_at h 2) then invalid h
  else checkTables (Z.to_nat (numComponents h)) 0 h.

Inductive JpgResult : Type :=
  | Null                      (* nullptr *)
  | Hdr (h : Header)
  | Fault (idx : Z)           (* colorComponents[idx] outside the array *)
  | OutOfFuel.

(** readJPG from the end of the marker loop on. *)
Definition readJPG_tail (r : MarkerResult) : JpgResult :=
  match r with
  | MReturn h => Hdr h
  | MFault i => Fault i
  | MOutOfFuel => OutOfFuel
  | MLeave s h =>
      if valid h then
        let '(current, s) := get_byte s in
        match readScanData (S (S (length (pending s)))) s current (huffmanData h) with
        | ScanFail data => Hdr (invalid (set_huffmanData data h))
        | ScanDone s data => Hdr (validateHeader (set_huffmanData data h))
        | ScanOutOfFuel => OutOfFuel
        end
      else Hdr (validateHeader h)
  end.

(** [file] is the content of the file named on the command line, [None] if
    it cannot be opened; [alloc] tells whether [new (std::nothrow) Header]
    succeeds. *)
Definition readJPG (file : option (list byte)) (alloc : bool) : JpgResult :=
  match file with
  | None => Null
  | Some bytes =>
      if negb alloc then Null
      else
        let s := mkStream bytes false in
        let h := newHeader in
        let '(last, s) := get_byte s in
        let '(current, s) := get_byte s in
        if negb (last =? 255) || negb (current =? SOI) then Hdr (invalid h)
        else
          let '(last, s) := get_byte s in
          let '(current, s) := get_byte s in
          readJPG_tail (readMarkers (S (S (length (pending s)))) s last current h)
  end.

(** ** Bit reader *)

Record BitReader := mkReader { nextByte : Z; nextBit : Z }.

Section Entropy.

(** The byte vector the reader was constructed on ([header->huffmanData]). *)
Variable data : list Z.

Definition readBit (b : BitReader) : Z * BitReader :=
  if Z.of_nat (length data) <=? nextByte b then (-1, b)
  else
    let bit := Z.land (Z.shiftr (nth (Z.to_nat (nextByte b)) data 0)
                                (7 - nextBit b)) 1 in
    let nb := nextBit b + 1 in
    if nb =? 8 then (bit, mkReader (nextByte b + 1) 0)
    else (bit, mkReader (nextByte b) nb).

(** The loop of readBits, [n] iterations to go. *)
Fixpoint readBits_from (n : nat) (bits : Z) (b : BitReader) : Z * BitReader :=
  match n with
  | O => (bits, b)
  | S n' =>
      let '(bit, b) := readBit b in
      if bit =? -1 then (-1, b)
      else readBits_from n' (to_int (Z.lor (Z.shiftl bits 1) bit)) b
  end.

Definition readBits (length : Z) (b : BitReader) : Z * BitReader :=
  readBits_from (Z.to_nat length) 0 b.

Definition align (b : BitReader) : BitReader :=
  if Z.of_nat (length data) <=? nextByte b then b
  else if negb (nextBit b =? 0) then mkReader (nextByte b + 1) 0
  else b.

(** ** Huffman codes *)

Definition offset_at (t : HuffmanTable) (j : Z) : Z := nth (Z.to_nat j) (offsets t) 0.

(** The inner loop of generateCodes: [n] codes stored from index [k] on. *)
Fixpoint assignCodes (n : nat) (k : Z) (code : Z) (codes : list Z) : Z * list Z :=
  match n with
  | O => (code, codes)
  | S n' => assignCodes n' (k + 1) (to_int (code + 1)) (<[Z.to_nat k := code]> codes)
  end.

(** The outer loop of generateCodes for the lengths [j+1], [j+2], ... *)
Fixpoint generateCodes_from (m : nat) (j : Z) (t : HuffmanTable) (code : Z)
    (codes : list Z) : list Z :=
  match m with
  | O => codes
  | S m' =>
      let n := Z.to_nat (offset_at t (j + 1) - offset_at t j) in
      let '(code, codes) := assignCodes n (offset_at t j) code codes in
      generateCodes_from m' (j + 1) t (to_int (Z.shiftl code 1)) codes
  end.

Definition generateCodes (t : HuffmanTable) (codes : list Z) : list Z :=
  generateCodes_from 16 0 t 0 codes.

(** The inner loop of getNextSymbol: the codes [k], [k+1], ... of one
    length are compared with [currentCode]. *)
Fixpoint findCode (n : nat) (k : Z) (currentCode : Z) (codes : list Z)
    (t : HuffmanTable) : option Z :=
  match n with
  | O => None
  | S n' =>
      if currentCode =? nth (Z.to_nat k) codes 0
      then Some (nth (Z.to_nat k) (symbols t) 0)
      else findCode n' (k + 1) currentCode codes t
  end.

(** The outer loop of getNextSymbol; [None] when the sixteen lengths have
    been tried without a match. *)
Fixpoint lookupSymbol (m : nat) (j : Z) (currentCode : Z) (b : BitReader)
    (codes : list Z) (t : HuffmanTable) : option Z * BitReader :=
  match m with
  | O => (None, b)
  | S m' =>
      let n := Z.to_nat (offset_at t (j + 1) - offset_at t j) in
      match findCode n (offset_at t j) currentCode codes t with
      | Some sym => (Some sym, b)
      | None =>
          let '(bit, b) := readBit b in
          lookupSymbol m' (j + 1) (to_int (Z.lor (Z.shiftl currentCode 1) bit)) b
                       codes t
      end
  end.

(** getNextSymbol returns a [byte]: the [-1] after the loops is 255. *)
Definition getNextSymbol (b : BitReader) (codes : list Z) (t : HuffmanTable)
    : Z * BitReader :=
  let '(currentCode, b) := readBit b in
  match lookupSymbol 16 0 currentCode b codes t with
  | (Some sym, b) => (sym, b)
  | (None, b) => (to_byte (-1), b)
  end.

(** ** One block *)

(** Modelled from the spec: [zigZagMap] is declared in jpg.h, which is not
    part of the sources; this is the fixed zigzag table of section 3,
    [zigZagMap[k]] being the row-major index of the k-th coefficient. *)
Definition zigZagMap : list nat :=
  [ 0;  1;  8; 16;  9;  2;  3; 10;
   17; 24; 32; 25; 18; 11;  4;  5;
   12; 19; 26; 33; 40; 48; 41; 34;
   27; 20; 13;  6;  7; 14; 21; 28;
   35; 42; 49; 56; 57; 50; 43; 36;
   29; 22; 15; 23; 30; 37; 44; 51;
   58; 59; 52; 45; 38; 31; 39; 46;
   53; 60; 61; 54; 47; 55; 62; 63]%nat.

Definition zz (i : Z) : nat := nth (Z.to_nat i) zigZagMap 0%nat.

(** [1 << n] on [int].  (For [n >= 32] the shift is undefined in C++; the
    model keeps the low 32 bits.) *)
Definition shl1 (n : Z) : Z := to_int (Z.shiftl 1 n).

(** The sign extension of the DC coefficient (lines 670-672) and of an AC
    coefficient (lines 716-718, under [coeffLength != 0]). *)
Definition extendDC (length coeff : Z) : Z :=
  if negb (length =? 0) && (coeff <? shl1 (length - 1))
  then to_int (coeff - (shl1 length - 1)) else coeff.
Definition extendAC (coeffLength coeff : Z) : Z :=
  if coeff <? shl1 (coeffLength - 1)
  then to_int (coeff - (shl1 coeffLength - 1)) else coeff.

(** [for (...; j < numZeroes && i < 64; ++j, ++i) component[zigZagMap[i]] = 0],
    [n] being the iterations [j] still allows.  With [n = 64] this is also
    the loop [for (; i < 64; ++i)] of the end-of-block symbol. *)
Fixpoint zeroRun (n : nat) (i : Z) (component : list Z) : Z * list Z :=
  match n with
  | O => (i, component)
  | S n' =>
      if i <? 64 then zeroRun n' (i + 1) (<[zz i := 0]> component)
      else (i, component)
  end.

(** The outcome of one pass through the body of the AC loop: the function
    returns false, returns true, or the body ends with the index [i]. *)
Inductive AcStep : Type :=
  | AcFail (component : list Z) (b : BitReader)
  | AcReturn (component : list Z) (b : BitReader)
  | AcNext (i : Z) (component : list Z) (b : BitReader).

Definition acBody (acCodes : list Z) (acTable : HuffmanTable)
    (i : Z) (b : BitReader) (component : list Z) : AcStep :=
  let '(symbol, b) := getNextSymbol b acCodes acTable in
  if symbol =? -1 then AcFail component b
  else if symbol =? 0 then AcReturn (snd (zeroRun 64 i component)) b
  else
    let numZeroes := Z.shiftr symbol 4 in
    let coeffLength := Z.land symbol 15 in
    let '(i, component) := zeroRun (Z.to_nat numZeroes) i component in
    if 10 <? coeffLength then AcFail component b
    else if negb (coeffLength =? 0) then
      if i =? 64 then AcFail component b
      else
        let '(coeff, b) := readBits coeffLength b in
        if coeff =? -1 then AcFail component b
        else AcNext i (<[zz i := extendAC coeffLength coeff]> component) b
    else AcNext i component b.

(** [for (uint i = 1; i < 64; ++i) { body }].  The index grows with every
    pass, so 63 passes are never used up (see [acLoop_fuel]). *)
Fixpoint acLoop (fuel : nat) (acCodes : list Z) (acTable : HuffmanTable)
    (i : Z) (b : BitReader) (component : list Z) : bool * list Z * BitReader :=
  if 64 <=? i then (true, component, b)
  else
    match fuel with
    | O => (false, component, b)
    | S fuel' =>
        match acBody acCodes acTable i b component with
        | AcFail c b => (false, c, b)
        | AcReturn c b => (true, c, b)
        | AcNext i c b => acLoop fuel' acCodes acTable (i + 1) b c
        end
    end.

(** The result is the returned [bool], the block and the reader. *)
Definition decodeMCUComponent (b : BitReader) (component : list Z)
    (previousDC : Z) (dcCodes : list Z) (dcTable : HuffmanTable)
    (acCodes : list Z) (acTable : HuffmanTable) : bool * list Z * BitReader :=
  let '(length, b) := getNextSymbol b dcCodes dcTable in
  if length =? to_byte (-1) then (false, component, b)
  else
    let '(coeff, b) := readBits length b in
    if coeff =? -1 then (false, component, b)
    else
      let coeff := extendDC length coeff in
      let component := <[0%nat := to_int (coeff + previousDC)]> component in
      acLoop 63 acCodes acTable 1 b component.

End Entropy.

(** ** MCUs and the decoding of the whole scan *)

(** The three planes of an MCU; [r], [g] and [b] are the same storage as
    [y], [cb] and [cr]. *)
Record MCU := mkMCU { y : list Z; cb : list Z; cr : list Z }.

Definition r (m : MCU) : list Z := y m.
Definition g (m : MCU) : list Z := cb m.
Definition b (m : MCU) : list Z := cr m.

Definition with_y (v : list Z) (m : MCU) : MCU := mkMCU v (cb m) (cr m).
Definition with_cb (v : list Z) (m : MCU) : MCU := mkMCU (y m) v (cr m).
Definition with_cr (v : list Z) (m : MCU) : MCU := mkMCU (y m) (cb m) v.

(** The local variables of decodeHuffmanData that change in its loop. *)
Record DecodeState := mkState {
  reader : BitReader;
  mcus : list MCU;
  previousYDC : Z;
  previousCbDC : Z;
  previousCrDC : Z;
  numProcessed : Z }.

(** The content of [int dcCodes[4][162]] before generateCodes writes to it
    is indeterminate; getNextSymbol reads the entries generateCodes wrote. *)
Definition noCodes : list Z := replicate 162 0.

Definition codesFor (tables : list HuffmanTable) : list (list Z) :=
  map (fun t => if h_set t then generateCodes t noCodes else noCodes) tables.

Definition mcuCount (header : Header) : Z :=
  let mcuHeight := to_uint (height header + 7) / 8 in
  let mcuWidth := to_uint (width header + 7) / 8 in
  to_uint (mcuHeight * mcuWidth).

Section Pipeline.

(** Modelled from the spec: what [new MCU[n]] leaves in an element depends on
    the declaration of [MCU] in jpg.h, which is not part of the sources;
    [freshMCU] is that content. *)
Variable freshMCU : MCU.

(** The table inverseDCT fills with [std::cos] and [std::sqrt]. *)
Variable idctMap : list float.

Definition mcu_at (ms : list MCU) (i : nat) : MCU := nth i ms freshMCU.

(** The call of decodeMCUComponent for the component [c] of the header. *)
Definition decodeComponent (header : Header) (dcCodes acCodes : list (list Z))
    (c : ColorComponent) (rd : BitReader) (component : list Z) (previousDC : Z)
    : bool * list Z * BitReader :=
  decodeMCUComponent (huffmanData header) rd component previousDC
    (nth (Z.to_nat (huffmanDCTableID c)) dcCodes noCodes)
    (dctable_at header (huffmanDCTableID c))
    (nth (Z.to_nat (huffmanACTableID c)) acCodes noCodes)
    (actable_at header (huffmanACTableID c)).

(** The end of the loop body (lines 784-790): [numProcessed] is counted up
    and, at a restart boundary, the predictors are reset and the reader is
    aligned. *)
Definition finishMCU (header : Header) (processed : Z) (rd : BitReader)
    (ms : list MCU) (pY pCb pCr : Z) : DecodeState :=
  let n := to_uint (processed + 1) in
  if negb (restartInterval header =? 0) && (n mod restartInterval header =? 0)
  then mkState (align (huffmanData header) rd) ms 0 0 0 n
  else mkState rd ms pY pCb pCr n.

(** The body of the loop of decodeHuffmanData for the MCU [i]; [None] is
    [delete[] mcus; return nullptr]. *)
Definition decodeMCU (header : Header) (dcCodes acCodes : list (list Z))
    (i : nat) (st : DecodeState) : option DecodeState :=
  let decode := decodeComponent header dcCodes acCodes in
  let m := mcu_at (mcus st) i in
  match decode (component_at header 0) (reader st) (y m) (previousYDC st) with
  | (false, _, _) => None
  | (true, yv, rd) =>
      let m := with_y yv m in
      let pY := nth 0 yv 0 in
      if numComponents header =? 3 then
        match decode (component_at header 1) rd (cb m) (previousCbDC st) with
        | (false, _, _) => None
        | (true, cbv, rd) =>
            let m := with_cb cbv m in
            let pCb := nth 0 cbv 0 in
            match decode (component_at header 2) rd (cr m) (previousCrDC st) with
            | (false, _, _) => None
            | (true, crv, rd) =>
                let m := with_cr crv m in
                let pCr := nth 0 crv 0 in
                Some (finishMCU header (numProcessed st) rd
                        (<[i := m]> (mcus st)) pY pCb pCr)
            end
        end
      else Some (finishMCU header (numProcessed st) rd (<[i := m]> (mcus st))
                   pY (previousCbDC st) (previousCrDC st))
  end.

(** [n] passes of the loop, starting with the MCU [i]. *)
Fixpoint decodeMCUs (header : Header) (dcCodes acCodes : list (list Z))
    (n : nat) (i : nat) (st : DecodeState) : option DecodeState :=
  match n with
  | O => Some st
  | S n' =>
      match decodeMCU header dcCodes acCodes i st with
      | None => None
      | Some st => decodeMCUs header dcCodes acCodes n' (S i) st
      end
  end.

Definition initialState (header : Header) : DecodeState :=
  mkState (mkReader 0 0) (replicate (Z.to_nat (mcuCount header)) freshMCU) 0 0 0 0.

(** [alloc] tells whether [new (std::nothrow) MCU[...]] succeeds; [None] is
    [nullptr]. *)
Definition decodeHuffmanData (header : Header) (alloc : bool) : option (list MCU) :=
  if negb alloc then None
  else
    let dcCodes := codesFor (huffmanDCTables header) in
    let acCodes := codesFor (huffmanACTables header) in
    match decodeMCUs header dcCodes acCodes (Z.to_nat (mcuCount header)) 0
                     (initialState header) with
    | None => None
    | Some st => Some (mcus st)
    end.

(** ** Dequantization *)

Definition dequantizeMCUComponent (qTable : QuantizationTable) (component : list Z)
    : list Z :=
  fold_left
    (fun c i => <[zz (Z.of_nat i) := to_int (nth (zz (Z.of_nat i)) c 0 * nth i (q_table qTable) 0)]> c)
    (seq 0 64) component.

Definition dequantizeMCU (header : Header) (m : MCU) : MCU :=
  let q i := qtable_at header (quantizationTableID (component_at header i)) in
  let m := with_y (dequantizeMCUComponent (q 0%nat) (y m)) m in
  if numComponents header =? 3 then
    let m := with_cb (dequantizeMCUComponent (q 1%nat) (cb m)) m in
    with_cr (dequantizeMCUComponent (q 2%nat) (cr m)) m
  else m.

(** The stages after the entropy decoder visit the MCUs [0 .. mcuCount - 1],
    which are all the MCUs of the array. *)
Definition dequantize (header : Header) (ms : list MCU) : list MCU :=
  map (dequantizeMCU header) ms.

(** ** Inverse DCT *)

(** [int] to [double], exact. *)
Definition double_of_int (z : Z) : float :=
  if z <? 0 then PrimFloat.opp (PrimFloat.of_uint63 (Uint63.of_Z (- z)))
  else PrimFloat.of_uint63 (Uint63.of_Z z).

(** [(int)x]: the fractional part is discarded ([x] is [m * 2^e] up to its
    sign, and the magnitude loses its last [-e] bits).  The conversion is undefined
    for NaN, infinities and values outside [int]; the model gives 0 for the
    first two and the mathematical integer for the last. *)
Definition int_of_double (x : float) : Z :=
  match Prim2SF x with
  | S754_finite s m e =>
      let mag := if 0 <=? e then Z.shiftl (Z.pos m) e
                 else Z.shiftr (Z.pos m) (- e) in
      if s then - mag else mag
  | _ => 0
  end.

Definition map_at (k : nat) : float := nth k idctMap 0%float.

(** [temp = 0; for (j < 8) temp += term j]. *)
Definition sum8 (term : nat -> float) : float :=
  fold_left (fun temp j => PrimFloat.add temp (term j)) (seq 0 8) 0%float.

Definition transformColumn (input : list Z) (out : list float) (offset : nat)
    : list float :=
  fold_left
    (fun out i =>
       <[(i * 8 + offset)%nat :=
           sum8 (fun j => PrimFloat.mul
                            (double_of_int (nth (j * 8 + offset) input 0))
                            (map_at (j * 8 + i)))]> out)
    (seq 0 8) out.

Definition transformRow (input : list float) (out : list Z) (offset : nat) : list Z :=
  fold_left
    (fun out i =>
       <[(offset * 8 + i)%nat :=
           int_of_double
             (sum8 (fun j => PrimFloat.mul
                               (nth (offset * 8 + j) input 0%float)
                               (map_at (j * 8 + i))))]> out)
    (seq 0 8) out.

Definition transformMCUComponent (component : list Z) : list Z :=
  let temp := fold_left (fun t i => transformColumn component t i) (seq 0 8)
                        (replicate 64 0%float) in
  fold_left (fun c i => transformRow temp c i) (seq 0 8) component.

Definition inverseDCT_MCU (header : Header) (m : MCU) : MCU :=
  let m := with_y (transformMCUComponent (y m)) m in
  if numComponents header =? 3 then
    let m := with_cb (transformMCUComponent (cb m)) m in
    with_cr (transformMCUComponent (cr m)) m
  else m.

Definition inverseDCT (header : Header) (ms : list MCU) : list MCU :=
  map (inverseDCT_MCU header) ms.

End Pipeline.

(** ** Colour conversion *)

Definition clamp255 (v : Z) : Z := if v <? 0 then 0 else if 255 <? v then 255 else v.

(** YCbCrToRGBPixel: the three references are returned as a triple.  The
    arithmetic is that of [double] (IEEE binary64): each [int] operand is
    converted, every operation rounds once to nearest (no fused
    multiply-add, no extended precision), and the initialisation of an
    [int] truncates. *)
Definition YCbCrToRGBPixel (y cb cr : Z) : Z * Z * Z :=
  let yd := double_of_int y in
  let cbd := double_of_int cb in
  let crd := double_of_int cr in
  let c128 := double_of_int 128 in
  let r := int_of_double (yd + 1.402 * crd + c128)%float in
  let g := int_of_double
             ((yd - (0.114 * (yd + 1.772 * cbd)) - 0.299 * (yd + 1.402 * crd))
              / 0.587 + c128)%float in
  let b := int_of_double (yd + 1.772 * cbd + c128)%float in
  (clamp255 r, clamp255 g, clamp255 b).

(** The loop over the pixels [a], [a+1], ... ([n] of them) of one MCU. *)
Definition convert_from (a n : nat) (m : MCU) : MCU :=
  fold_left
    (fun m j =>
       let '(rv, gv, bv) :=
         YCbCrToRGBPixel (nth j (y m) 0) (nth j (cb m) 0) (nth j (cr m) 0) in
       mkMCU (<[j := rv]> (y m)) (<[j := gv]> (cb m)) (<[j := bv]> (cr m)))
    (seq a n) m.

(** [for (uint j = 0; j < 64; ++j)] *)
Definition YCbCrToRGB_MCU (m : MCU) : MCU := convert_from 0 64 m.

Definition YCbCrToRGB (header : Header) (ms : list MCU) : list MCU :=
  map YCbCrToRGB_MCU ms.

(** ** BMP output *)

(** [outFile.put(v)]: the argument is converted to [char]. *)
Definition put (v : Z) : list Z := [to_byte v].

Definition putInt (v : Z) : list Z :=
  put (Z.land (Z.shiftr v 0) 255) ++ put (Z.land (Z.shiftr v 8) 255)
  ++ put (Z.land (Z.shiftr v 16) 255) ++ put (Z.land (Z.shiftr v 24) 255).

Definition putShort (v : Z) : list Z :=
  put (Z.land (Z.shiftr v 0) 255) ++ put (Z.land (Z.shiftr v 8) 255).

(** The bytes written for the pixel row [i]. *)
Definition bmpRow (freshMCU : MCU) (header : Header) (ms : list MCU) (i : Z) : list Z :=
  let mcuWidth := to_uint (width header + 7) / 8 in
  let paddingSize := to_uint (4 - to_uint (width header * 3) mod 4) mod 4 in
  let mcuRow := i / 8 in
  let pixelRow := i mod 8 in
  flat_map
    (fun jn =>
       let j := Z.of_nat jn in
       let mcuColumn := j / 8 in
       let pixelColumn := j mod 8 in
       let mcuIndex := Z.to_nat (to_uint (mcuRow * mcuWidth + mcuColumn)) in
       let pixelIndex := Z.to_nat (pixelRow * 8 + pixelColumn) in
       let m := mcu_at freshMCU ms mcuIndex in
       put (nth pixelIndex (b m) 0) ++ put (nth pixelIndex (g m) 0)
       ++ put (nth pixelIndex (r m) 0))
    (seq 0 (Z.to_nat (width header)))
  ++ flat_map (fun _ => put 0) (seq 0 (Z.to_nat paddingSize)).

(** writeBMP: [opens] tells whether the output file can be opened; the
    result is the content of the file, [None] when nothing is written.  The
    rows are written from [height - 1] down to 0. *)
Definition writeBMP (freshMCU : MCU) (header : Header) (ms : list MCU)
    (opens : bool) : option (list Z) :=
  if negb opens then None
  else
    let paddingSize := to_uint (4 - to_uint (width header * 3) mod 4) mod 4 in
    let size := to_uint (14 + 12 + height header * width header * 3
                         + height header * paddingSize) in
    Some (put 66 ++ put 77 ++ putInt size ++ putInt 0 ++ putInt 26 ++ putInt 12
          ++ putShort (width header) ++ putShort (height header)
          ++ putShort 1 ++ putShort 24
          ++ flat_map (fun k => bmpRow freshMCU header ms (Z.of_nat k))
                      (rev (seq 0 (Z.to_nat (height header))))).

(** ** main *)

(** What the program meets when it runs: its arguments, the input file
    (absent if it cannot be opened), whether the two allocations succeed and
    whether the output file can be opened. *)
Record Env := mkEnv {
  argc : Z;
  input : option (list byte);
  header_alloc : bool;
  mcus_alloc : bool;
  output_opens : bool }.

(** The exit code and the BMP file written, if any.  [None] stands for a
    run that has no defined result: an access outside an array. *)
Definition main (freshMCU : MCU) (idctMap : list float) (e : Env)
    : option (Z * option (list Z)) :=
  if negb (argc e =? 2) then Some (1, None)
  else
    match readJPG (input e) (header_alloc e) with
    | Null => Some (1, None)
    | Fault _ | OutOfFuel => None
    | Hdr header =>
        if negb (valid header) then Some (1, None)
        else
          match decodeHuffmanData freshMCU header (mcus_alloc e) with
          | None => Some (1, None)
          | Some ms =>
              let ms := dequantize header ms in
              let ms := inverseDCT idctMap header ms in
              let ms := YCbCrToRGB header ms in
              Some (0, writeBMP freshMCU header ms (output_opens e))
          end
    end.

(** ** Test vectors *)

(** An 8x8 greyscale image.  DC table 0 has the single code [0] for the
    symbol 0; AC table 0 has the codes [0] for end-of-block and [10] for
    ZRL (0xF0). *)
Definition jpg_head : list byte :=
  [xff; xd8] ++
  [xff; xdb; x00; x43; x00] ++ replicate 64 x01 ++
  [xff; xc0; x00; x0b; x08; x00; x08; x00; x08; x01; x01; x11; x00] ++
  [xff; xc4; x00; x14; x00; x01] ++ replicate 15 x00 ++ [x00] ++
  [xff; xc4; x00; x15; x10; x01; x01] ++ replicate 14 x00 ++ [x00; xf0].

Definition sos_gray : list byte :=
  [xff; xda; x00; x08; x01; x01; x00; x00; x3f; x00].

(** One block: DC difference 0, then end-of-block. *)
Definition tiny_jpg : list byte := jpg_head ++ sos_gray ++ [x00; xff; xd9].

Definition zeroMCU : MCU := mkMCU (replicate 64 0) (replicate 64 0) (replicate 64 0).

(** The Huffman tables of [jpg_head] and their codes. *)
Definition dcTable0 : HuffmanTable :=
  mkHTable (0 :: replicate 16 1) (replicate 162 0) true.
Definition acTable0 : HuffmanTable :=
  mkHTable (0 :: 1 :: replicate 15 2) (0 :: 240 :: replicate 160 0) true.
Definition dcCodes0 : list Z := generateCodes dcTable0 noCodes.
Definition acCodes0 : list Z := generateCodes acTable0 noCodes.

(** One block: DC difference 0, then ZRL four times (bits 0 10 10 10 10). *)
Definition zrl4_data : list Z := [85; 0].
Definition zrl4_jpg : list byte := jpg_head ++ sos_gray ++ [x55; x00; xff; xd9].

(** The scan names the component 0 in a file whose frame numbers its
    component 1. *)
Definition sos_id0 : list byte :=
  [xff; xda; x00; x08; x01; x00; x00; x00; x3f; x00].
Definition id0_jpg : list byte := jpg_head ++ sos_id0 ++ [x00; xff; xd9].

Definition header_of (res : JpgResult) : Header :=
  match res with Hdr h => h | _ => newHeader end.

(** The header of [tiny_jpg]. *)
Definition tiny_header : Header := header_of (readJPG (Some tiny_jpg) true).

(** An 8x8 greyscale image whose only block has the DC coefficient -1020
    (size 10, bits 0000000011) and no AC coefficient: every sample is -127
    after the inverse DCT. *)
Definition dark_jpg : list byte :=
  [xff; xd8] ++
  [xff; xdb; x00; x43; x00] ++ replicate 64 x01 ++
  [xff; xc0; x00; x0b; x08; x00; x08; x00; x08; x01; x01; x11; x00] ++
  [xff; xc4; x00; x14; x00; x01] ++ replicate 15 x00 ++ [x0a] ++
  [xff; xc4; x00; x15; x10; x01; x01] ++ replicate 14 x00 ++ [x00; xf0] ++
  sos_gray ++ [x00; x60; xff; xd9].

Definition dark_header : Header := header_of (readJPG (Some dark_jpg) true).

(** The table of inverseDCT as a platform with the GNU C library computes
    it ([idctMap[i * 8 + j]], in the shortest decimal form of each double).
    The properties below hold for every table; this one serves the
    examples. *)
Definition idctMap_ref : list float :=
  [0.35355339059327373; 0.35355339059327373; 0.35355339059327373; 0.35355339059327373;
   0.35355339059327373; 0.35355339059327373; 0.35355339059327373; 0.35355339059327373;
   0.4903926402016152; 0.4157348061512726; 0.27778511650980114; 0.09754516100806417;
   -0.0975451610080641; -0.277785116509801; -0.4157348061512727; -0.4903926402016152;
   0.46193976625564337; 0.19134171618254492; -0.19134171618254486; -0.46193976625564337;
   -0.4619397662556434; -0.19134171618254517; 0.191341716182545; 0.46193976625564326;
   0.4157348061512726; -0.0975451610080641; -0.4903926402016152; -0.2777851165098011;
   0.2777851165098009; 0.4903926402016152; 0.09754516100806439; -0.41573480615127256;
   0.3535533905932738; -0.35355339059327373; -0.35355339059327384; 0.3535533905932737;
   0.35355339059327384; -0.35355339059327334; -0.35355339059327356; 0.3535533905932733;
   0.27778511650980114; -0.4903926402016152; 0.09754516100806415; 0.41573480615127273;
   -0.41573480615127256; -0.09754516100806401; 0.4903926402016153; -0.27778511650980076;
   0.19134171618254492; -0.4619397662556434; 0.46193976625564326; -0.19134171618254495;
   -0.19134171618254528; 0.46193976625564337; -0.4619397662556432; 0.19134171618254478;
   0.09754516100806417; -0.2777851165098011; 0.41573480615127273; -0.4903926402016153;
   0.4903926402016152; -0.4157348061512725; 0.27778511650980076; -0.09754516100806429]%float.

(** The stream and the two bytes [last] and [current] with which readJPG
    enters its marker loop, for a file that is FF D8 followed by [rest]. *)
Definition entryLast (rest : list byte) : Z := fst (get_byte (mkStream rest false)).
Definition entryCurrent (rest : list byte) : Z :=
  fst (get_byte (snd (get_byte (mkStream rest false)))).
Definition entryStream (rest : list byte) : ifstream :=
  snd (get_byte (snd (get_byte (mkStream rest false)))).

(** [jpg_head] without its first two bytes. *)
Definition jpg_segments : list byte := drop 2 jpg_head.

(** A file with a second SOF0 segment, which declares a 16x16 image. *)
Definition two_sof_rest : list byte :=
  jpg_segments
  ++ [xff; xc0; x00; x0b; x08; x00; x10; x00; x10; x01; x01; x11; x00]
  ++ sos_gray ++ [x00; xff; xd9].

(** A scan with a stuffed byte, a restart marker and a fill byte. *)
Definition stuffed_jpg : list byte :=
  jpg_head ++ sos_gray
  ++ [x12; xff; x00; xff; xd0; x34; xff; xff; xd9; x00].

(** A file with [restartInterval = 1] (a DRI segment before the scan). *)
Definition restart_jpg : list byte :=
  jpg_head ++ [xff; xdd; x00; x04; x00; x01] ++ sos_gray ++ [x00; xff; xd9].

Definition restart_header : Header := header_of (readJPG (Some restart_jpg) true).

(** ** The grammar of the entropy-coded segment

    [Scan consumed out]: the bytes [consumed], which end with the marker
    EOI, are an entropy-coded segment whose payload is [out].  A byte other
    than 0xFF stands for itself, the pair FF 00 stands for the byte 0xFF, a
    restart marker FF D0 .. FF D7 and a fill byte FF in front of another FF
    stand for nothing. *)
Definition is_rst (m : byte) : bool := in_range RST0 RST7 (byte_val m).

Inductive Scan : list byte -> list Z -> Prop :=
  | scan_eoi : Scan [xff; xd9] []
  | scan_plain c tl out :
      c <> xff -> Scan tl out -> Scan (c :: tl) (byte_val c :: out)
  | scan_stuffed tl out :
      Scan tl out -> Scan (xff :: x00 :: tl) (255 :: out)
  | scan_restart m tl out :
      is_rst m = true -> Scan tl out -> Scan (xff :: m :: tl) out
  | scan_fill tl out :
      Scan (xff :: tl) out -> Scan (xff :: xff :: tl) out.

(** The number of pairs FF 00 in a list of bytes. *)
Fixpoint stuffed_pairs (l : list byte) : nat :=
  match l with
  | [] => 0
  | a :: tl =>
      let followed := match tl with c :: _ => byte_val c =? 0 | [] => false end in
      if (byte_val a =? 255) && followed then S (stuffed_pairs tl)
      else stuffed_pairs tl
  end.

(** ** Greyscale conversion

    What YCbCrToRGBPixel gives for a pixel of a greyscale image, whose
    chroma samples are zero: R and B are the clamped [y + 128]; G, which is
    computed with a division by 0.587, is that value or one less. *)
Definition gray_pixel_ok (yv : Z) : bool :=
  let '(rv, gv, bv) := YCbCrToRGBPixel yv 0 0 in
  let v := clamp255 (yv + 128) in
  (rv =? v) && (bv =? v) && (v - 1 <=? gv) && (gv <=? v).

(** [p lo && p (lo + 1) && ...], [n] values. *)
Fixpoint all_from (n : nat) (lo : Z) (p : Z -> bool) : bool :=
  match n with
  | O => true
  | S k => p lo && all_from k (lo + 1) p
  end.

(** The pixel [j] of an MCU, converted. *)
Definition pixel_of (m : MCU) (j : nat) : Z * Z * Z :=
  YCbCrToRGBPixel (nth j (y m) 0) (nth j (cb m) 0) (nth j (cr m) 0).

(** Modelled from the spec: the sources contain no encoder.  This is the
    coding the round trip of section 8 (property 4) refers to: the size [L]
    of a value is the number of bits of its magnitude, and its [L] bits [V]
    are the value itself when it is positive and the value plus [2^L - 1]
    otherwise. *)
Definition bitLength (v : Z) : Z := if v =? 0 then 0 else Z.log2 (Z.abs v) + 1.

Definition encodeCoeff (v : Z) : Z * Z :=
  let L := bitLength v in
  (L, if v <? 0 then v + (2 ^ L - 1) else v).

(** The Huffman lookup of getNextSymbol finds no code of any of the sixteen
    lengths. *)
Definition symbolMiss (data : list Z) (b : BitReader) (codes : list Z)
    (t : HuffmanTable) : Prop :=
  let '(currentCode, b1) := readBit data b in
  fst (lookupSymbol data 16 0 currentCode b1 codes t) = None.

(** ** Vocabulary of the properties *)

(** The statement that the symbol ZRL (0xF0), read at the position [i] with
    [i + 15 < 64], leaves zero in the sixteen positions [zz i .. zz (i+15)]
    of the block, whatever the block held, and ends the pass with the index
    at [i + 15], so that the next pass is the one of [i + 16]. *)
Definition zrl_writes_sixteen_zeros : Prop :=
  forall data acCodes acTable i b component b',
    1 <= i -> i + 15 < 64 -> length component = 64%nat ->
    getNextSymbol data b acCodes acTable = (240, b') ->
    exists c',
      acBody data acCodes acTable i b component = AcNext (i + 15) c' b'
      /\ forall k, i <= k <= i + 15 -> nth (zz k) c' 0 = 0.


(** A reader that has consumed all the data stands on a byte boundary; this
    holds for the initial reader and is kept by every read. *)
Definition reader_ok (data : list Z) (b : BitReader) : Prop :=
  Z.of_nat (length data) <= nextByte b -> nextBit b = 0.

(** The predictors are the DC coefficients of the MCU decoded last. *)
Definition predictors_follow (freshMCU : MCU) (header : Header) (i : nat)
    (st : DecodeState) : Prop :=
  let m := mcu_at freshMCU (mcus st) (i - 1) in
  previousYDC st = nth 0 (y m) 0
  /\ (numComponents header = 3 ->
      previousCbDC st = nth 0 (cb m) 0 /\ previousCrDC st = nth 0 (cr m) 0).

Definition predictors_reset (st : DecodeState) : Prop :=
  previousYDC st = 0 /\ previousCbDC st = 0 /\ previousCrDC st = 0
  /\ nextBit (reader st) = 0.

(** What holds of the state of decodeHuffmanData after [i] MCUs. *)
Definition restart_inv (freshMCU : MCU) (header : Header) (i : nat)
    (st : DecodeState) : Prop :=
  numProcessed st = Z.of_nat i
  /\ length (mcus st) = Z.to_nat (mcuCount header)
  /\ reader_ok (huffmanData header) (reader st)
  /\ ((0 < i)%nat -> restartInterval header <> 0 ->
      Z.of_nat i mod restartInterval header = 0 -> predictors_reset st)
  /\ ((0 < i)%nat ->
      restartInterval header = 0 \/ Z.of_nat i mod restartInterval header <> 0 ->
      predictors_follow freshMCU header i st).

(** An MCU of a greyscale image: the chroma planes are those of a fresh MCU
    and the luma plane has its length. *)
Definition gray_mcu (freshMCU : MCU) (m : MCU) : Prop :=
  cb m = cb freshMCU /\ cr m = cr freshMCU /\ length (y m) = length (y freshMCU).

(** The statement that the colour conversion of a decoded greyscale image,
    whose chroma planes are the zeros of a fresh MCU, gives the three
    channels of every pixel the clamped value of [Y + 128]. *)
Definition gray_channels_equal : Prop :=
  forall freshMCU idctMap header alloc ms (i j : nat) (d : MCU),
    numComponents header = 1 ->
    length (y freshMCU) = 64%nat ->
    cb freshMCU = replicate 64 0 -> cr freshMCU = replicate 64 0 ->
    decodeHuffmanData freshMCU header alloc = Some ms ->
    let planes := inverseDCT idctMap header (dequantize header ms) in
    let Y := nth j (y (nth i planes d)) 0 in
    let m' := nth i (YCbCrToRGB header planes) d in
    (i < length planes)%nat -> (j < 64)%nat ->
    nth j (r m') 0 = clamp255 (Y + 128)
    /\ nth j (g m') 0 = clamp255 (Y + 128)
    /\ nth j (b m') 0 = clamp255 (Y + 128).

(** The number of calls of [get] a stream can still answer before it fails,
    plus one for the call that sets the fail bit. *)
Definition weight (s : ifstream) : nat :=
  if failbit s then 0%nat else S (length (pending s)).

(** [s'] is [s] after some reads: its pending bytes are a suffix of those of
    [s], and a fail bit stays set. *)
Definition advances (s s' : ifstream) : Prop :=
  (exists pre, pending s = pre ++ pending s') /\ (weight s' <= weight s)%nat.

(** A segment reader hands on a stream that has advanced and a header with
    the same [huffmanData]. *)
Definition keeps (s : ifstream) (h : Header) (res : ifstream * Header) : Prop :=
  advances s (fst res) /\ huffmanData (snd res) = huffmanData h.

(** The stream [s] on the file whose last [d] bytes are replaced by the
    bytes [tail]: of the pending bytes of [s], all but the last [d] are
    kept. *)
Definition retailed (d : nat) (tail : list byte) (s : ifstream) : ifstream :=
  mkStream (take (length (pending s) - d) (pending s) ++ tail) (failbit s).

(** No read has failed on [s], which has not come to the last [d] bytes of
    the file. *)
Definition reaches (d : nat) (s : ifstream) : Prop :=
  failbit s = false /\ (d <= length (pending s))%nat.

(** The state of the marker loop after [n] passes, if it runs that long. *)
Fixpoint markerPasses (n : nat) (s : ifstream) (last current : Z) (h : Header)
    : option (ifstream * Z * Z * Header) :=
  match n with
  | O => Some (s, last, current, h)
  | S n' =>
      match markerStep s last current h with
      | Again s last current h => markerPasses n' s last current h
      | Stop _ => None
      end
  end.

(** The state of the marker loop on [two_sof_rest] after four passes (DQT,
    SOF0, DHT, DHT): it stands at the second SOF0. *)
Definition two_sof_state : ifstream * Z * Z * Header :=
  default (mkStream [] true, 0, 0, newHeader)
    (markerPasses 4 (entryStream two_sof_rest) (entryLast two_sof_rest)
       (entryCurrent two_sof_rest) newHeader).

(** The BMP file of an 8x8 image whose only MCU is [zeroMCU]. *)
Definition tiny_bmp : list Z :=
  default [] (writeBMP zeroMCU tiny_header [zeroMCU] true).

(** ** Vocabulary of the further properties *)

(** The markers the loop of readJPG has a branch for that goes on with the
    next marker or with the scan: those with a segment reader, TEM, and the
    fill byte 0xFF. *)
Definition handled_marker (c : Z) : bool :=
  (c =? SOF0) || (c =? DQT) || (c =? DHT) || (c =? SOS) || (c =? DRI)
  || in_range APP0 APP15 c || (c =? COM) || in_range JPG0 JPG13 c
  || (c =? DNL) || (c =? DHP) || (c =? EXP) || (c =? TEM) || (c =? 255).

(** The number of colour components marked [used]. *)
Definition count_used (l : list ColorComponent) : nat :=
  length (List.filter used l).

(** The table indices of a component are indices of the four-element
    table arrays. *)
Definition ids_ok (c : ColorComponent) : Prop :=
  0 <= quantizationTableID c <= 3
  /\ 0 <= huffmanDCTableID c <= 3
  /\ 0 <= huffmanACTableID c <= 3.

(** What the marker loop keeps true of the header: the array of components
    has its three elements; a header with a frame is a baseline frame with
    nonzero dimensions; a valid header has at most three components, table
    indices in range and, if it has a frame, dimensions of sixteen bits. *)
Definition header_inv (h : Header) : Prop :=
  length (colorComponents h) = 3%nat
  /\ 0 <= numComponents h
  /\ (numComponents h <> 0 ->
      frameType h = SOF0 /\ 0 < height h /\ 0 < width h)
  /\ (valid h = true ->
      numComponents h <= 3 /\ Forall ids_ok (colorComponents h)
      /\ (numComponents h <> 0 -> height h <= 65535 /\ width h <= 65535)).

(** A reader that leaves the frame alone: the result has the frame fields
    of [h] and as many components, and it is valid only if [h] was, with
    table indices in range if those of [h] were. *)
Definition frame_kept (h h' : Header) : Prop :=
  length (colorComponents h') = length (colorComponents h)
  /\ numComponents h' = numComponents h /\ frameType h' = frameType h
  /\ height h' = height h /\ width h' = width h
  /\ zeroBased h' = zeroBased h
  /\ (valid h' = true ->
      valid h = true
      /\ (Forall ids_ok (colorComponents h) ->
          Forall ids_ok (colorComponents h'))).

(** Component [i] of the header can be decoded: it is sampled 1x1 and the
    tables it names are set. *)
Definition component_ready (h : Header) (i : nat) : Prop :=
  let c := component_at h i in
  horizontalSamplingFactor c = 1 /\ verticalSamplingFactor c = 1
  /\ q_set (qtable_at h (quantizationTableID c)) = true
  /\ h_set (dctable_at h (huffmanDCTableID c)) = true
  /\ h_set (actable_at h (huffmanACTableID c)) = true.

(** The headers the decoder goes on with: a baseline frame whose height and
    width are within 1 .. 65535, with one or three components, a full
    spectral selection without successive approximation, and every
    component ready. *)
Definition baseline_header (h : Header) : Prop :=
  frameType h = SOF0
  /\ 0 < height h <= 65535 /\ 0 < width h <= 65535
  /\ (numComponents h = 1 \/ numComponents h = 3)
  /\ startOfSelection h = 0 /\ endOfSelection h = 63
  /\ successiveApproximationHigh h = 0 /\ successiveApproximationLow h = 0
  /\ Forall ids_ok (colorComponents h)
  /\ forall i, (i < Z.to_nat (numComponents h))%nat -> component_ready h i.

(** The position of a reader in the bit stream, bits counted from the most
    significant bit of the first byte. *)
Definition bit_position (b : BitReader) : Z := 8 * nextByte b + nextBit b.

(** The reader stands on a bit of the data or right behind the last one;
    this holds for the initial reader and is kept by every read. *)
Definition reader_in (data : list Z) (b : BitReader) : Prop :=
  0 <= nextByte b /\ 0 <= nextBit b < 8
  /\ bit_position b <= 8 * Z.of_nat (length data).

(** The bytes of one pixel row of the BMP file: three per pixel, rounded up
    to a multiple of four. *)
Definition bmp_stride (w : Z) : Z := 4 * ((3 * w + 3) / 4).

(** The four bytes at the offset [o], read as a little-endian number. *)
Definition le32 (bytes : list Z) (o : nat) : Z :=
  nth o bytes 0 + 256 * nth (o + 1) bytes 0 + 65536 * nth (o + 2) bytes 0
  + 16777216 * nth (o + 3) bytes 0.

(** The markers whose segment is skipped by its length: APPn by readAPPN,
    COM, JPGn, DNL, DHP and EXP by readComment. *)
Definition skipped_marker (c : Z) : bool :=
  in_range APP0 APP15 c || (c =? COM) || in_range JPG0 JPG13 c
  || (c =? DNL) || (c =? DHP) || (c =? EXP).

(** The running sums of a list, from [acc] on, as [uint]. *)
Fixpoint running_sums (acc : Z) (l : list Z) : list Z :=
  match l with
  | [] => []
  | v :: tl => to_uint (acc + v) :: running_sums (to_uint (acc + v)) tl
  end.

(** The number of codes of [j + 1] bits in a Huffman table. *)
Definition code_count (t : HuffmanTable) (j : nat) : Z :=
  offset_at t (Z.of_nat (S j)) - offset_at t (Z.of_nat j).

(** The first code of [j + 1] bits of the canonical code of a table: 0 for
    one bit, and the code after the last one of the length before, with a
    zero bit appended. *)
Fixpoint first_code (t : HuffmanTable) (j : nat) : Z :=
  match j with
  | O => 0
  | S j' => 2 * (first_code t j' + code_count t j')
  end.

(** The tables a DHT segment can describe a prefix code with: the offsets
    grow, stay within the 162 symbols, and the codes of every length fit
    in that many bits. *)
Definition canonical_table (t : HuffmanTable) : Prop :=
  0 <= offset_at t 0 /\ offset_at t 16 <= 162
  /\ forall j, (j < 16)%nat ->
       0 <= code_count t j
       /\ first_code t j + code_count t j <= 2 ^ Z.of_nat (S j).

(** What the frame header makes of a component: the sampling factors are
    the nibbles of [sf], [q] is the quantization table, and the component
    is used; the Huffman table indices stay. *)
Definition frame_component (sf q : Z) (c : ColorComponent) : ColorComponent :=
  mkComponent (Z.shiftr sf 4) (Z.land sf 15) q
    (huffmanDCTableID c) (huffmanACTableID c) true.

(** What the scan header makes of a component: the Huffman table indices
    are the nibbles of [tables], and the component is used. *)
Definition scan_component (tables : Z) (c : ColorComponent) : ColorComponent :=
  mkComponent (horizontalSamplingFactor c) (verticalSamplingFactor c)
    (quantizationTableID c) (Z.shiftr tables 4) (Z.land tables 15) true.

(** The stream of a file that has the bytes [junk] after those of [s]. *)
Definition extended (junk : list byte) (s : ifstream) : ifstream :=
  mkStream (pending s ++ junk) (failbit s).

(** * Properties *)

(** ** Machine integers *)

Lemma to_int_small (z : Z) : -2147483648 <= z < 2147483648 -> to_int z = z.
Proof.
  intros Hz. unfold to_int.
  rewrite Z.mod_small by lia. lia.
Qed.

Lemma shl1_pow (n : Z) : 0 <= n < 31 -> shl1 n = 2 ^ n.
Proof.
  intros Hn. unfold shl1. rewrite Z.shiftl_1_l.
  apply to_int_small.
  assert (0 < 2 ^ n) by (apply Z.pow_pos_nonneg; lia).
  assert (2 ^ n < 2 ^ 31) by (apply Z.pow_lt_mono_r; lia).
  change (2 ^ 31) with 2147483648 in *. lia.
Qed.

Lemma pow2_step (n : Z) : 1 <= n -> 2 ^ n = 2 * 2 ^ (n - 1).
Proof.
  intros Hn. replace n with (Z.succ (n - 1)) at 1 by lia.
  apply Z.pow_succ_r. lia.
Qed.

Lemma pow2_le_2048 (n : Z) : 0 <= n <= 11 -> 0 < 2 ^ n <= 2048.
Proof.
  intros Hn. split; [apply Z.pow_pos_nonneg; lia|].
  change 2048 with (2 ^ 11). apply Z.pow_le_mono_r; lia.
Qed.

(** ** Sign extension *)

Lemma extendAC_eq (L V : Z) :
  1 <= L <= 11 -> 0 <= V < 2 ^ L ->
  extendAC L V = if V <? 2 ^ (L - 1) then V - (2 ^ L - 1) else V.
Proof.
  intros HL HV. unfold extendAC.
  rewrite !shl1_pow by lia.
  destruct (V <? 2 ^ (L - 1)); [|reflexivity].
  pose proof (pow2_le_2048 L ltac:(lia)).
  apply to_int_small. lia.
Qed.

Lemma extendDC_eq (L V : Z) :
  0 <= L <= 11 -> 0 <= V < 2 ^ L ->
  extendDC L V = if L =? 0 then V else extendAC L V.
Proof.
  intros HL HV. unfold extendDC, extendAC.
  destruct (Z.eqb_spec L 0) as [->|HL0]; reflexivity.
Qed.

Lemma bitLength_pos (L v : Z) :
  1 <= L -> 2 ^ (L - 1) <= Z.abs v < 2 ^ L -> bitLength v = L.
Proof.
  intros HL Hv. unfold bitLength.
  assert (0 < 2 ^ (L - 1)) by (apply Z.pow_pos_nonneg; lia).
  destruct (Z.eqb_spec v 0) as [->|_]; [simpl in Hv; lia|].
  assert (Z.log2 (Z.abs v) = L - 1) as ->; [|lia].
  apply Z.log2_unique; [lia|].
  replace (Z.succ (L - 1)) with L by lia. lia.
Qed.

(** The range of a sign-extended value is tighter than the one the
    specification gives: a negative value is at most [-2^(L-1)]. *)
Lemma extendAC_range (L V : Z) :
  1 <= L <= 11 -> 0 <= V < 2 ^ L ->
  - (2 ^ L - 1) <= extendAC L V <= - 2 ^ (L - 1)
  \/ 2 ^ (L - 1) <= extendAC L V <= 2 ^ L - 1.
Proof.
  intros HL HV. rewrite extendAC_eq by lia.
  pose proof (pow2_step L ltac:(lia)).
  destruct (Z.ltb_spec V (2 ^ (L - 1))); lia.
Qed.

(** C7: for a size [L] in [0, 11] and [L] bits [V], the sign extension of
    decodeMCUComponent (the DC rule, and the AC rule, which is the same for
    [L <> 0]) is [V - (2^L - 1)] if [L <> 0] and [V < 2^(L-1)], and [V]
    otherwise; it gives 0 when [L = 0] and otherwise a value in
    [-(2^L-1), -2^(L-1)+1] or in [2^(L-1), 2^L-1]; coding the value again
    gives back [(L, V)]. *)
Theorem sign_extension_round_trip (L V : Z) :
  0 <= L <= 11 -> 0 <= V < 2 ^ L ->
  extendDC L V
  = (if negb (L =? 0) && (V <? 2 ^ (L - 1)) then V - (2 ^ L - 1) else V)
  /\ (L = 0 -> extendDC L V = 0)
  /\ (L <> 0 -> extendAC L V = extendDC L V
               /\ (- (2 ^ L - 1) <= extendDC L V <= - 2 ^ (L - 1) + 1
                   \/ 2 ^ (L - 1) <= extendDC L V <= 2 ^ L - 1))
  /\ encodeCoeff (extendDC L V) = (L, V).
Proof.
  intros HL HV. rewrite extendDC_eq by lia.
  destruct (Z.eqb_spec L 0) as [->|HL0].
  - change (2 ^ 0) with 1 in HV. assert (V = 0) as -> by lia.
    split; [reflexivity|]. split; [reflexivity|].
    split; [intros; lia|reflexivity].
  - split; [rewrite extendAC_eq by lia; reflexivity|].
    split; [intros; lia|]. split.
    + intros _. split; [reflexivity|].
      destruct (extendAC_range L V) as [Hr|Hr]; [lia|lia| |]; [left|right]; lia.
    + pose proof (extendAC_range L V ltac:(lia) HV) as Hr.
      pose proof (pow2_step L ltac:(lia)) as Hstep.
      assert (0 < 2 ^ (L - 1)) by (apply Z.pow_pos_nonneg; lia).
      unfold encodeCoeff.
      rewrite (bitLength_pos L) by lia.
      rewrite extendAC_eq in * by lia.
      destruct (Z.ltb_spec V (2 ^ (L - 1))).
      * destruct (Z.ltb_spec (V - (2 ^ L - 1)) 0); [f_equal; lia|lia].
      * destruct (Z.ltb_spec V 0); [lia|reflexivity].
Qed.

Lemma sign_extension_round_trip_witness :
  (0 <= 3 <= 11 /\ 0 <= 2 < 2 ^ 3)
  /\ extendDC 3 2 = -5
  /\ (3 <> 0 -> extendAC 3 2 = extendDC 3 2
                /\ (- (2 ^ 3 - 1) <= extendDC 3 2 <= - 2 ^ (3 - 1) + 1
                    \/ 2 ^ (3 - 1) <= extendDC 3 2 <= 2 ^ 3 - 1))
  /\ encodeCoeff (extendDC 3 2) = (3, 2).
Proof.
  assert (H : 0 <= 3 <= 11 /\ 0 <= 2 < 2 ^ 3) by (simpl; lia).
  split; [exact H|].
  destruct (sign_extension_round_trip 3 2 (proj1 H) (proj2 H))
    as (Hrule & _ & Hrange & Hcode).
  split; [exact Hrule|]. split; [exact Hrange|exact Hcode].
Defined.

(** ** Huffman lookup *)

Lemma getNextSymbol_miss data b codes t :
  symbolMiss data b codes t ->
  fst (getNextSymbol data b codes t) = 255.
Proof.
  unfold symbolMiss, getNextSymbol.
  destruct (readBit data b) as [currentCode b1].
  destruct (lookupSymbol data 16 0 currentCode b1 codes t) as [[sym|] b2];
    simpl; [discriminate|reflexivity].
Qed.

Lemma readBit_eof data b :
  Z.of_nat (length data) <= nextByte b -> readBit data b = (-1, b).
Proof.
  intros Heof. unfold readBit.
  destruct (Z.leb_spec (Z.of_nat (length data)) (nextByte b)); [reflexivity|lia].
Qed.

Lemma findCode_none n k code codes t :
  (forall i, nth i codes 0 <> code) -> findCode n k code codes t = None.
Proof.
  intros Hne. revert k. induction n as [|n IH]; intros k; simpl; [reflexivity|].
  destruct (Z.eqb_spec code (nth (Z.to_nat k) codes 0)) as [E|_].
  - exfalso. apply (Hne (Z.to_nat k)). symmetry. exact E.
  - apply IH.
Qed.

Lemma lookupSymbol_eof data m j b codes t :
  Z.of_nat (length data) <= nextByte b ->
  (forall i, nth i codes 0 <> -1) ->
  lookupSymbol data m j (-1) b codes t = (None, b).
Proof.
  intros Heof Hne. revert j. induction m as [|m IH]; intros j; simpl; [reflexivity|].
  rewrite findCode_none by exact Hne.
  rewrite readBit_eof by exact Heof.
  apply IH.
Qed.

(** Once the reader is at the end of the data, the lookup misses: the code
    read is -1 at every length, which is no code of a table. *)
Lemma eof_symbolMiss data b codes t :
  Z.of_nat (length data) <= nextByte b ->
  (forall i, nth i codes 0 <> -1) ->
  symbolMiss data b codes t.
Proof.
  intros Heof Hne. unfold symbolMiss.
  rewrite readBit_eof by exact Heof.
  rewrite lookupSymbol_eof by assumption. reflexivity.
Qed.

(** C8: when the Huffman lookup finds no code of any length from 1 to 16
    (as it does once the reader is at the end of the data, see
    [eof_symbolMiss]), the decoding of the block fails: decodeMCUComponent
    returns false when this happens for the DC symbol, and the AC loop
    returns false when it happens in any of its passes. *)
Theorem symbol_miss_fails_block data :
  (forall b component previousDC dcCodes dcTable acCodes acTable,
      symbolMiss data b dcCodes dcTable ->
      fst (fst (decodeMCUComponent data b component previousDC
                  dcCodes dcTable acCodes acTable)) = false)
  /\ (forall fuel acCodes acTable i b component,
         i < 64 ->
         symbolMiss data b acCodes acTable ->
         fst (fst (acLoop data (S fuel) acCodes acTable i b component)) = false).
Proof.
  split.
  - intros b component previousDC dcCodes dcTable acCodes acTable Hmiss.
    apply getNextSymbol_miss in Hmiss.
    unfold decodeMCUComponent.
    destruct (getNextSymbol data b dcCodes dcTable) as [len b1].
    simpl in Hmiss. subst len. reflexivity.
  - intros fuel acCodes acTable i b component Hi Hmiss.
    apply getNextSymbol_miss in Hmiss.
    simpl. destruct (Z.leb_spec 64 i); [lia|].
    unfold acBody.
    destruct (getNextSymbol data b acCodes acTable) as [symbol b1].
    simpl in Hmiss. subst symbol.
    change (255 =? -1) with false. change (255 =? 0) with false.
    change (Z.shiftr 255 4) with 15. change (Z.land 255 15) with 15.
    cbv iota.
    destruct (zeroRun (Z.to_nat 15) i component) as [i' c'].
    reflexivity.
Qed.

Lemma symbol_miss_fails_block_witness :
  symbolMiss [] (mkReader 0 0) noCodes newHTable
  /\ fst (fst (decodeMCUComponent [] (mkReader 0 0) (replicate 64 0) 0
                 noCodes newHTable noCodes newHTable)) = false
  /\ fst (fst (acLoop [] 1 noCodes newHTable 1 (mkReader 0 0) (replicate 64 0)))
     = false.
Proof.
  assert (Hm : symbolMiss [] (mkReader 0 0) noCodes newHTable) by reflexivity.
  destruct (symbol_miss_fails_block []) as [Hdc Hac].
  split; [exact Hm|]. split.
  - apply Hdc. exact Hm.
  - apply Hac; [lia|exact Hm].
Defined.

(** ** Zero runs *)

Lemma nth_insert_eq {A} (l : list A) (q : nat) (v d : A) :
  (q < length l)%nat -> nth q (<[q := v]> l) d = v.
Proof.
  intros Hq. rewrite nth_lookup, list_lookup_insert_eq by exact Hq. reflexivity.
Qed.

Lemma nth_insert_ne {A} (l : list A) (p q : nat) (v d : A) :
  p <> q -> nth p (<[q := v]> l) d = nth p l d.
Proof.
  intros Hpq. rewrite !nth_lookup, list_lookup_insert_ne by congruence. reflexivity.
Qed.

Lemma zigZagMap_NoDup : NoDup zigZagMap.
Proof. apply (bool_decide_unpack _). vm_compute. reflexivity. Qed.

Lemma zigZagMap_bound : Forall (fun p => (p < 64)%nat) zigZagMap.
Proof. apply (bool_decide_unpack _). vm_compute. reflexivity. Qed.

Lemma zz_lt (k : Z) : 0 <= k < 64 -> (zz k < 64)%nat.
Proof.
  intros Hk. unfold zz.
  apply (proj1 (List.Forall_nth _ zigZagMap) zigZagMap_bound).
  change (length zigZagMap) with 64%nat. lia.
Qed.

Lemma zz_inj (j k : Z) : 0 <= j < 64 -> 0 <= k < 64 -> zz j = zz k -> j = k.
Proof.
  intros Hj Hk E. unfold zz in E.
  destruct (nth_lookup_or_length zigZagMap (Z.to_nat j) 0%nat) as [Lj|Lj];
    [|change (length zigZagMap) with 64%nat in Lj; lia].
  destruct (nth_lookup_or_length zigZagMap (Z.to_nat k) 0%nat) as [Lk|Lk];
    [|change (length zigZagMap) with 64%nat in Lk; lia].
  rewrite E in Lj.
  pose proof (NoDup_lookup _ _ _ _ zigZagMap_NoDup Lj Lk). lia.
Qed.

Lemma zeroRun_ge n i c : i <= fst (zeroRun n i c).
Proof.
  revert i c. induction n as [|n IH]; intros i c; simpl; [lia|].
  destruct (i <? 64); simpl; [|lia].
  specialize (IH (i + 1) (<[zz i := 0]> c)). lia.
Qed.

Lemma zeroRun_fst n i c :
  i + Z.of_nat n <= 64 -> fst (zeroRun n i c) = i + Z.of_nat n.
Proof.
  revert i c. induction n as [|n IH]; intros i c Hi; simpl; [lia|].
  destruct (Z.ltb_spec i 64); [|lia].
  rewrite IH by lia. lia.
Qed.

Lemma zeroRun_length n i c : length (snd (zeroRun n i c)) = length c.
Proof.
  revert i c. induction n as [|n IH]; intros i c; simpl; [reflexivity|].
  destruct (i <? 64); simpl; [|reflexivity].
  rewrite IH. apply length_insert.
Qed.

(** A zero run leaves every position it does not name as it was. *)
Lemma zeroRun_other n i c p :
  (forall k, i <= k < i + Z.of_nat n -> zz k <> p) ->
  nth p (snd (zeroRun n i c)) 0 = nth p c 0.
Proof.
  revert i c. induction n as [|n IH]; intros i c Hp; simpl; [reflexivity|].
  destruct (i <? 64); simpl; [|reflexivity].
  rewrite IH by (intros k Hk; apply Hp; lia).
  apply nth_insert_ne. intros ->. apply (Hp i); [lia|reflexivity].
Qed.

Lemma zeroRun_zero n i c k :
  0 <= i -> i + Z.of_nat n <= 64 -> length c = 64%nat ->
  i <= k < i + Z.of_nat n ->
  nth (zz k) (snd (zeroRun n i c)) 0 = 0.
Proof.
  revert i c. induction n as [|n IH]; intros i c Hi Hn Hc Hk; simpl; [lia|].
  destruct (Z.ltb_spec i 64); [|lia].
  destruct (Z.eq_dec k i) as [->|Hne].
  - rewrite zeroRun_other.
    + apply nth_insert_eq. rewrite Hc. apply zz_lt. lia.
    + intros j Hj E. apply zz_inj in E; lia.
  - apply IH; try lia. rewrite length_insert. exact Hc.
Qed.

(** ** The AC loop *)

Lemma acBody_next_ge data acCodes acTable i b c i' c' b' :
  acBody data acCodes acTable i b c = AcNext i' c' b' -> i <= i'.
Proof.
  unfold acBody.
  destruct (getNextSymbol data b acCodes acTable) as [symbol b1].
  destruct (symbol =? -1); [discriminate|].
  destruct (symbol =? 0); [discriminate|].
  pose proof (zeroRun_ge (Z.to_nat (Z.shiftr symbol 4)) i c) as Hge.
  destruct (zeroRun (Z.to_nat (Z.shiftr symbol 4)) i c) as [i0 c0].
  simpl in Hge.
  destruct (10 <? Z.land symbol 15); [discriminate|].
  destruct (negb (Z.land symbol 15 =? 0)).
  - destruct (i0 =? 64); [discriminate|].
    destruct (readBits data (Z.land symbol 15) b1) as [coeff b2].
    destruct (coeff =? -1); [discriminate|].
    intros [= <- _ _]. exact Hge.
  - intros [= <- _ _]. exact Hge.
Qed.

(** The passes of the AC loop never use up their fuel: with [64 - i] passes
    or more the result does not depend on the number of passes allowed.  In
    particular the 63 passes decodeMCUComponent starts with at [i = 1]
    suffice. *)
Lemma acLoop_fuel data acCodes acTable fuel :
  forall fuel' i b c,
    64 - i <= Z.of_nat fuel -> (fuel <= fuel')%nat ->
    acLoop data fuel' acCodes acTable i b c = acLoop data fuel acCodes acTable i b c.
Proof.
  induction fuel as [|fuel IH]; intros fuel' i b c Hi Hle.
  - destruct fuel'; simpl; destruct (Z.leb_spec 64 i); try reflexivity; lia.
  - destruct fuel' as [|fuel']; [lia|]. simpl.
    destruct (64 <=? i); [reflexivity|].
    destruct (acBody data acCodes acTable i b c) as [| |i' c' b'] eqn:Hbody;
      try reflexivity.
    apply acBody_next_ge in Hbody.
    apply IH; lia.
Qed.

(** The sixteenth position is not written: a block that holds 7 at
    [zz 16] still holds it after a ZRL read at the position 1. *)
Lemma zrl_sixteenth_not_written : ~ zrl_writes_sixteen_zeros.
Proof.
  intros Hclaim.
  destruct (Hclaim [128] acCodes0 acTable0 1 (mkReader 0 0)
              (<[zz 16 := 7]> (replicate 64 0)) (mkReader 0 2))
    as (c' & Hbody & Hzero).
  - lia.
  - lia.
  - reflexivity.
  - vm_compute. reflexivity.
  - specialize (Hzero 16 ltac:(lia)).
    vm_compute in Hbody. injection Hbody as <-.
    vm_compute in Hzero. discriminate.
Qed.

(** C3 (amended): the symbol ZRL (0xF0), read at the position [i] with
    [i + 15 < 64], writes zero to the fifteen positions [zz i .. zz (i+14)],
    stores no coefficient and leaves the position [zz (i+15)] as it was
    (zero, if the block was zero there); the next symbol is decoded for the
    position [i + 16]. *)
Theorem zrl_skips_sixteen data acCodes acTable i b component b' :
  1 <= i -> i + 15 < 64 -> length component = 64%nat ->
  getNextSymbol data b acCodes acTable = (240, b') ->
  exists c',
    acBody data acCodes acTable i b component = AcNext (i + 15) c' b'
    /\ (forall k, i <= k <= i + 14 -> nth (zz k) c' 0 = 0)
    /\ (forall p, (forall k, i <= k <= i + 14 -> zz k <> p) ->
                  nth p c' 0 = nth p component 0)
    /\ nth (zz (i + 15)) c' 0 = nth (zz (i + 15)) component 0
    /\ forall fuel,
         acLoop data (S fuel) acCodes acTable i b component
         = acLoop data fuel acCodes acTable (i + 16) b' c'.
Proof.
  intros Hi Hi15 Hlen Hsym.
  exists (snd (zeroRun 15 i component)).
  assert (Hbody : acBody data acCodes acTable i b component
                  = AcNext (i + 15) (snd (zeroRun 15 i component)) b').
  { unfold acBody. rewrite Hsym.
    change (240 =? -1) with false. change (240 =? 0) with false.
    change (Z.to_nat (Z.shiftr 240 4)) with 15%nat.
    change (Z.land 240 15) with 0. cbv iota.
    pose proof (zeroRun_fst 15 i component ltac:(lia)) as Hfst.
    destruct (zeroRun 15 i component) as [i0 c0]. simpl in *.
    subst i0. reflexivity. }
  split; [exact Hbody|].
  assert (Hother : forall p, (forall k, i <= k <= i + 14 -> zz k <> p) ->
                             nth p (snd (zeroRun 15 i component)) 0
                             = nth p component 0).
  { intros p Hp. apply zeroRun_other. intros k Hk. apply Hp. lia. }
  repeat split.
  - intros k Hk. apply zeroRun_zero; lia.
  - exact Hother.
  - apply Hother. intros k Hk E. apply zz_inj in E; lia.
  - intros fuel. simpl. destruct (Z.leb_spec 64 i); [lia|].
    rewrite Hbody. replace (i + 15 + 1) with (i + 16) by lia. reflexivity.
Qed.

Lemma zrl_skips_sixteen_witness :
  exists c',
    acBody [128] acCodes0 acTable0 1 (mkReader 0 0) (replicate 64 5)
    = AcNext (1 + 15) c' (mkReader 0 2)
    /\ (forall k, 1 <= k <= 1 + 14 -> nth (zz k) c' 0 = 0)
    /\ (forall p, (forall k, 1 <= k <= 1 + 14 -> zz k <> p) ->
                  nth p c' 0 = nth p (replicate 64 5) 0)
    /\ nth (zz (1 + 15)) c' 0 = nth (zz (1 + 15)) (replicate 64 5) 0
    /\ forall fuel,
         acLoop [128] (S fuel) acCodes0 acTable0 1 (mkReader 0 0) (replicate 64 5)
         = acLoop [128] fuel acCodes0 acTable0 (1 + 16) (mkReader 0 2) c'.
Proof.
  apply (zrl_skips_sixteen [128] acCodes0 acTable0 1 (mkReader 0 0)
           (replicate 64 5) (mkReader 0 2)).
  - lia.
  - lia.
  - reflexivity.
  - vm_compute. reflexivity.
Defined.

(** A run that reaches the position 64 stops there, however long it is. *)
Lemma zeroRun_stops n m i c :
  (m <= n)%nat -> fst (zeroRun m i c) = 64 -> zeroRun n i c = zeroRun m i c.
Proof.
  revert n i c. induction m as [|m IH]; intros n i c Hle H64; simpl in H64.
  - subst i. destruct n; reflexivity.
  - destruct n as [|n]; [lia|]. simpl.
    destruct (i <? 64); [apply IH; [lia|exact H64]|reflexivity].
Qed.




(** ** The exit code *)

Lemma main_code freshMCU idctMap e :
  option_map fst (main freshMCU idctMap e) =
  if negb (argc e =? 2) then Some 1
  else match readJPG (input e) (header_alloc e) with
       | Null => Some 1
       | Fault _ | OutOfFuel => None
       | Hdr header =>
           if negb (valid header) then Some 1
           else match decodeHuffmanData freshMCU header (mcus_alloc e) with
                | None => Some 1
                | Some _ => Some 0
                end
       end.
Proof.
  unfold main.
  destruct (negb (argc e =? 2)); [reflexivity|].
  destruct (readJPG (input e) (header_alloc e)) as [|header| |]; try reflexivity.
  destruct (negb (valid header)); [reflexivity|].
  destruct (decodeHuffmanData freshMCU header (mcus_alloc e)); reflexivity.
Qed.

(** The exit code 0 is only reached past a valid header and a complete
    entropy decoding. *)
Lemma main_exit_0 freshMCU idctMap e bmp :
  main freshMCU idctMap e = Some (0, bmp) ->
  argc e = 2
  /\ exists header ms,
       readJPG (input e) (header_alloc e) = Hdr header
       /\ valid header = true
       /\ decodeHuffmanData freshMCU header (mcus_alloc e) = Some ms.
Proof.
  unfold main.
  destruct (Z.eqb_spec (argc e) 2) as [Hargc|]; [|discriminate]. simpl.
  destruct (readJPG (input e) (header_alloc e)) as [|header| |] eqn:Hread;
    try discriminate.
  destruct (valid header) eqn:Hvalid; [|discriminate]. simpl.
  destruct (decodeHuffmanData freshMCU header (mcus_alloc e)) as [ms|] eqn:Hdec;
    [|discriminate].
  intros _. split; [exact Hargc|]. exists header, ms.
  split; [reflexivity|]. split; [exact Hvalid|exact Hdec].
Qed.

(** A block whose AC symbols are four ZRL: the fourth is read at the
    position 49 and its run reaches past the position 63; decodeMCUComponent
    returns true, and the program decodes the file that holds this block
    with the exit code 0. *)
Example zero_run_overrun_accepted :
  fst (fst (decodeMCUComponent zrl4_data (mkReader 0 0) (replicate 64 0) 0
              dcCodes0 dcTable0 acCodes0 acTable0)) = true
  /\ forall freshMCU idctMap,
       option_map fst
         (main freshMCU idctMap (mkEnv 2 (Some zrl4_jpg) true true true))
       = Some 0.
Proof.
  split; [vm_compute; reflexivity|].
  intros freshMCU idctMap. rewrite main_code. vm_compute. reflexivity.
Qed.

(** C2 (the code departs from the claim): when the output file cannot be
    opened nothing is written, and main still returns 0. *)
Theorem output_open_failure_exits_0 :
  forall freshMCU idctMap,
    main freshMCU idctMap (mkEnv 2 (Some tiny_jpg) true true false)
    = Some (0, None).
Proof.
  intros freshMCU idctMap. vm_compute. reflexivity.
Qed.

(** C9 (the code departs from the claim): the frame of [id0_jpg] numbers its
    component 1, so [zeroBased] stays false; its scan names the component 0,
    which passes the test [componentID > numComponents], and
    readStartOfScan addresses [colorComponents[-1]]. *)
Theorem scan_component_zero_underflows :
  readJPG (Some id0_jpg) true = Fault (-1).
Proof. vm_compute. reflexivity. Qed.

(** ** A second frame header *)

Lemma readStartOfFrame_again s h :
  numComponents h <> 0 -> readStartOfFrame s h = (s, invalid h).
Proof.
  intros Hnc. unfold readStartOfFrame.
  destruct (Z.eqb_spec (numComponents h) 0); [contradiction|reflexivity].
Qed.

Lemma readMarkers_invalid fuel s last current h :
  valid h = false -> readMarkers fuel s last current h = MLeave s h.
Proof.
  intros Hv. destruct fuel; simpl; unfold markerStep; rewrite Hv; reflexivity.
Qed.

Lemma checkTables_cases n i h : checkTables n i h = h \/ checkTables n i h = invalid h.
Proof.
  revert i. induction n as [|n IH]; intros i; simpl; [left; reflexivity|].
  destruct (negb (q_set _)); [right; reflexivity|].
  destruct (negb (h_set _)); [right; reflexivity|].
  destruct (negb (h_set _)); [right; reflexivity|].
  apply IH.
Qed.

Lemma validateHeader_cases h : validateHeader h = h \/ validateHeader h = invalid h.
Proof.
  unfold validateHeader.
  destruct (_ && _); [right; reflexivity|].
  destruct (bad_sampling _); [right; reflexivity|].
  destruct (_ && _); [right; reflexivity|].
  destruct (_ && _); [right; reflexivity|].
  apply checkTables_cases.
Qed.

(** When the marker loop meets the marker SOF0 while the header is valid and
    holds a frame already, readJPG returns the header with [valid] false and
    the frame it had. *)
Lemma second_SOF_at_loop fuel s h :
  valid h = true -> failbit s = false -> numComponents h <> 0 ->
  exists h',
    readJPG_tail (readMarkers (S fuel) s 255 SOF0 h) = Hdr h'
    /\ valid h' = false
    /\ height h' = height h
    /\ width h' = width h
    /\ numComponents h' = numComponents h
    /\ colorComponents h' = colorComponents h.
Proof.
  intros Hvalid Hfail Hnc.
  cbn [readMarkers]. unfold markerStep. rewrite Hvalid, Hfail. cbn [negb].
  change (255 =? 255) with true. change (SOF0 =? SOF0) with true. cbn [negb].
  rewrite readStartOfFrame_again by exact Hnc.
  unfold nextMarker.
  destruct (get_byte s) as [last s1].
  destruct (get_byte s1) as [current s2].
  rewrite readMarkers_invalid by reflexivity.
  cbn [readJPG_tail invalid set_valid valid].
  eexists. split; [reflexivity|].
  destruct (validateHeader_cases (invalid (set_frameType SOF0 h))) as [-> | ->];
    repeat split; reflexivity.
Qed.

(** ** Restart intervals *)

Section Restart.

Variable data : list Z.

Lemma readBit_ok b : reader_ok data b -> reader_ok data (snd (readBit data b)).
Proof.
  unfold reader_ok, readBit. intros Hok.
  destruct (Z.leb_spec (Z.of_nat (length data)) (nextByte b)); simpl; [exact Hok|].
  destruct (nextBit b + 1 =? 8); simpl; [reflexivity|lia].
Qed.

Lemma readBits_from_ok n bits b :
  reader_ok data b -> reader_ok data (snd (readBits_from data n bits b)).
Proof.
  revert bits b. induction n as [|n IH]; intros bits b Hok; simpl; [exact Hok|].
  pose proof (readBit_ok b Hok) as Hok1.
  destruct (readBit data b) as [bit b1]. simpl in Hok1.
  destruct (bit =? -1); simpl; [exact Hok1|]. apply IH. exact Hok1.
Qed.

Lemma lookupSymbol_ok m j code b codes t :
  reader_ok data b -> reader_ok data (snd (lookupSymbol data m j code b codes t)).
Proof.
  revert j code b. induction m as [|m IH]; intros j code b Hok; simpl; [exact Hok|].
  destruct (findCode _ _ _ _ _); simpl; [exact Hok|].
  pose proof (readBit_ok b Hok) as Hok1.
  destruct (readBit data b) as [bit b1]. simpl in Hok1.
  apply IH. exact Hok1.
Qed.

Lemma getNextSymbol_ok b codes t :
  reader_ok data b -> reader_ok data (snd (getNextSymbol data b codes t)).
Proof.
  intros Hok. unfold getNextSymbol.
  pose proof (readBit_ok b Hok) as Hok1.
  destruct (readBit data b) as [code b1]. simpl in Hok1.
  pose proof (lookupSymbol_ok 16 0 code b1 codes t Hok1) as Hok2.
  destruct (lookupSymbol data 16 0 code b1 codes t) as [[sym|] b2]; exact Hok2.
Qed.

Lemma acLoop_ok fuel acCodes acTable :
  forall i b c,
    reader_ok data b ->
    reader_ok data (snd (acLoop data fuel acCodes acTable i b c)).
Proof.
  induction fuel as [|fuel IH]; intros i b c Hok; simpl.
  - destruct (64 <=? i); exact Hok.
  - destruct (64 <=? i); [exact Hok|].
    unfold acBody.
    pose proof (getNextSymbol_ok b acCodes acTable Hok) as Hok1.
    destruct (getNextSymbol data b acCodes acTable) as [symbol b1]. simpl in Hok1.
    destruct (symbol =? -1); [exact Hok1|].
    destruct (symbol =? 0); [exact Hok1|].
    destruct (zeroRun _ i c) as [i0 c0].
    destruct (10 <? Z.land symbol 15); [exact Hok1|].
    destruct (negb (Z.land symbol 15 =? 0)); [|apply IH; exact Hok1].
    destruct (i0 =? 64); [exact Hok1|].
    pose proof (readBits_from_ok (Z.to_nat (Z.land symbol 15)) 0 b1 Hok1) as Hok2.
    unfold readBits.
    destruct (readBits_from data _ 0 b1) as [coeff b2]. simpl in Hok2.
    destruct (coeff =? -1); [exact Hok2|]. apply IH. exact Hok2.
Qed.

Lemma decodeMCUComponent_ok b c previousDC dcCodes dcTable acCodes acTable :
  reader_ok data b ->
  reader_ok data (snd (decodeMCUComponent data b c previousDC
                    dcCodes dcTable acCodes acTable)).
Proof.
  intros Hok. unfold decodeMCUComponent.
  pose proof (getNextSymbol_ok b dcCodes dcTable Hok) as Hok1.
  destruct (getNextSymbol data b dcCodes dcTable) as [len b1]. simpl in Hok1.
  destruct (len =? to_byte (-1)); [exact Hok1|].
  pose proof (readBits_from_ok (Z.to_nat len) 0 b1 Hok1) as Hok2.
  unfold readBits.
  destruct (readBits_from data _ 0 b1) as [coeff b2]. simpl in Hok2.
  destruct (coeff =? -1); [exact Hok2|].
  apply acLoop_ok. exact Hok2.
Qed.

Lemma align_aligned b : reader_ok data b -> nextBit (align data b) = 0.
Proof.
  unfold reader_ok, align. intros Hok.
  destruct (Z.leb_spec (Z.of_nat (length data)) (nextByte b)); [auto|].
  destruct (Z.eqb_spec (nextBit b) 0); simpl; auto.
Qed.

Lemma align_ok b : reader_ok data b -> reader_ok data (align data b).
Proof.
  intros Hok. pose proof (align_aligned b Hok). unfold reader_ok. auto.
Qed.

End Restart.

Section RestartInvariant.

Variable freshMCU : MCU.
Variable header : Header.
Variables dcCodes acCodes : list (list Z).

Lemma mcuCount_bound : 0 <= mcuCount header < 4294967296.
Proof. unfold mcuCount, to_uint. apply Z.mod_pos_bound. lia. Qed.

Lemma restart_inv_initial : restart_inv freshMCU header 0 (initialState freshMCU header).
Proof.
  unfold restart_inv, initialState. simpl.
  split; [reflexivity|]. split; [apply length_replicate|].
  split; [intros _; reflexivity|]. split; intros; lia.
Qed.

Lemma finishMCU_inv (i : nat) rd ms m pCb pCr :
  (i < Z.to_nat (mcuCount header))%nat ->
  length ms = Z.to_nat (mcuCount header) ->
  reader_ok (huffmanData header) rd ->
  (numComponents header = 3 -> pCb = nth 0 (cb m) 0 /\ pCr = nth 0 (cr m) 0) ->
  restart_inv freshMCU header (S i)
    (finishMCU header (Z.of_nat i) rd (<[i := m]> ms) (nth 0 (y m) 0) pCb pCr).
Proof.
  intros Hi Hlen Hok Hchroma.
  pose proof mcuCount_bound as Hb.
  assert (Hn : to_uint (Z.of_nat i + 1) = Z.of_nat (S i)).
  { unfold to_uint. rewrite Z.mod_small; lia. }
  unfold finishMCU. rewrite Hn.
  destruct (Z.eqb_spec (restartInterval header) 0) as [Hri|Hri]; cbn [negb andb].
  - unfold restart_inv. cbn [numProcessed mcus reader].
    split; [reflexivity|]. split; [rewrite length_insert; exact Hlen|].
    split; [exact Hok|]. split; [intros; contradiction|].
    intros _ _. unfold predictors_follow, mcu_at. cbn.
    replace (i - 0)%nat with i by lia.
    rewrite nth_insert_eq by lia. auto.
  - destruct (Z.eqb_spec (Z.of_nat (S i) mod restartInterval header) 0) as [Hm|Hm].
    + unfold restart_inv. cbn [numProcessed mcus reader].
      split; [reflexivity|]. split; [rewrite length_insert; exact Hlen|].
      split; [apply align_ok; exact Hok|]. split.
      * intros _ _ _. unfold predictors_reset. cbn.
        repeat split; try reflexivity. apply align_aligned. exact Hok.
      * intros _ [H0|H0]; contradiction.
    + unfold restart_inv. cbn [numProcessed mcus reader].
      split; [reflexivity|]. split; [rewrite length_insert; exact Hlen|].
      split; [exact Hok|]. split; [intros; contradiction|].
      intros _ _. unfold predictors_follow, mcu_at. cbn.
      replace (i - 0)%nat with i by lia.
      rewrite nth_insert_eq by lia. auto.
Qed.

Lemma decodeMCU_inv (i : nat) st st' :
  (i < Z.to_nat (mcuCount header))%nat ->
  restart_inv freshMCU header i st ->
  decodeMCU freshMCU header dcCodes acCodes i st = Some st' ->
  restart_inv freshMCU header (S i) st'.
Proof.
  intros Hi (Hnum & Hlen & Hok & _ & _). unfold decodeMCU, decodeComponent.
  rewrite Hnum.
  match goal with
  | |- context [decodeMCUComponent ?d ?b ?c ?p ?dc ?dt ?ac ?at'] =>
      pose proof (decodeMCUComponent_ok d b c p dc dt ac at' Hok) as Hok1;
      destruct (decodeMCUComponent d b c p dc dt ac at') as [[ok yv] rd]
  end.
  simpl in Hok1. destruct ok; [|discriminate].
  destruct (Z.eqb_spec (numComponents header) 3) as [Hnc|Hnc].
  - match goal with
    | |- context [decodeMCUComponent ?d ?b ?c ?p ?dc ?dt ?ac ?at'] =>
        pose proof (decodeMCUComponent_ok d b c p dc dt ac at' Hok1) as Hok2;
        destruct (decodeMCUComponent d b c p dc dt ac at') as [[ok cbv] rd2]
    end.
    simpl in Hok2. destruct ok; [|discriminate].
    match goal with
    | |- context [decodeMCUComponent ?d ?b ?c ?p ?dc ?dt ?ac ?at'] =>
        pose proof (decodeMCUComponent_ok d b c p dc dt ac at' Hok2) as Hok3;
        destruct (decodeMCUComponent d b c p dc dt ac at') as [[ok crv] rd3]
    end.
    simpl in Hok3. destruct ok; [|discriminate].
    intros [= <-].
    match goal with
    | |- context [<[i := ?m]> _] =>
        apply (finishMCU_inv i rd3 (mcus st) m); auto
    end.
  - intros [= <-].
    match goal with
    | |- context [<[i := ?m]> _] =>
        apply (finishMCU_inv i rd (mcus st) m); auto
    end.
    intros; contradiction.
Qed.

Lemma decodeMCUs_inv n :
  forall i st st',
    (i + n <= Z.to_nat (mcuCount header))%nat ->
    restart_inv freshMCU header i st ->
    decodeMCUs freshMCU header dcCodes acCodes n i st = Some st' ->
    restart_inv freshMCU header (i + n) st'.
Proof.
  induction n as [|n IH]; intros i st st' Hn Hinv; simpl.
  - intros [= <-]. replace (i + 0)%nat with i by lia. exact Hinv.
  - destruct (decodeMCU freshMCU header dcCodes acCodes i st) as [st1|] eqn:Hstep;
      [|discriminate].
    intros Hrest. replace (i + S n)%nat with (S i + n)%nat by lia.
    apply (IH (S i) st1); [lia| |exact Hrest].
    apply (decodeMCU_inv i st); [lia|exact Hinv|exact Hstep].
Qed.

(** C6: in the loop of decodeHuffmanData, with [restartInterval > 0], the
    state after the MCU number [n] (counted from 1) has the three DC
    predictors at 0 and the reader on a byte boundary whenever [n] is a
    multiple of [restartInterval]; with [restartInterval = 0] the predictors
    are never reset: after every MCU they are the DC coefficients of that
    MCU (for the components the header has). *)
Theorem restart_resets_predictors (n : nat) (st : DecodeState) :
  (0 < n <= Z.to_nat (mcuCount header))%nat ->
  decodeMCUs freshMCU header dcCodes acCodes n 0 (initialState freshMCU header)
  = Some st ->
  (0 < restartInterval header ->
   Z.of_nat n mod restartInterval header = 0 ->
   previousYDC st = 0 /\ previousCbDC st = 0 /\ previousCrDC st = 0
   /\ nextBit (reader st) = 0)
  /\ (restartInterval header = 0 -> predictors_follow freshMCU header n st).
Proof.
  intros Hn Hrun.
  destruct (decodeMCUs_inv n 0 _ st ltac:(lia) restart_inv_initial Hrun)
    as (_ & _ & _ & Hreset & Hfollow).
  split.
  - intros Hri Hmod. apply Hreset; [lia|lia|exact Hmod].
  - intros Hri. apply Hfollow; [lia|left; exact Hri].
Qed.

End RestartInvariant.

Lemma restart_resets_predictors_witness :
  exists st,
    decodeMCUs zeroMCU restart_header
      (codesFor (huffmanDCTables restart_header))
      (codesFor (huffmanACTables restart_header)) 1 0
      (initialState zeroMCU restart_header) = Some st
    /\ previousYDC st = 0 /\ previousCbDC st = 0 /\ previousCrDC st = 0
    /\ nextBit (reader st) = 0.
Proof.
  eexists. split; [vm_compute; reflexivity|].
  refine (proj1 (restart_resets_predictors zeroMCU restart_header
                   (codesFor (huffmanDCTables restart_header))
                   (codesFor (huffmanACTables restart_header)) 1 _ _ _) _ _).
  - vm_compute. lia.
  - vm_compute. reflexivity.
  - vm_compute. reflexivity.
  - vm_compute. reflexivity.
Defined.

(** ** Extraction of the entropy-coded bytes *)

Lemma byte_val_range (c : byte) : 0 <= byte_val c < 256.
Proof.
  unfold byte_val. pose proof (Byte.to_N_bounded c). lia.
Qed.

Lemma byte_val_inj (c d : byte) : byte_val c = byte_val d -> c = d.
Proof.
  unfold byte_val. intros E. apply N2Z.inj in E.
  pose proof (Byte.of_to_N c) as Hc. rewrite E, Byte.of_to_N in Hc. congruence.
Qed.

Lemma to_byte_val (c : byte) : to_byte (byte_val c) = byte_val c.
Proof. unfold to_byte. apply Z.mod_small. apply byte_val_range. Qed.

Lemma get_byte_cons c tl :
  get_byte (mkStream (c :: tl) false) = (byte_val c, mkStream tl false).
Proof. unfold get_byte, get. simpl. rewrite to_byte_val. reflexivity. Qed.

Lemma get_byte_nil : get_byte (mkStream [] false) = (255, mkStream [] true).
Proof. reflexivity. Qed.

Lemma readScanData_failed fuel s current data s' data' :
  failbit s = true -> readScanData fuel s current data <> ScanDone s' data'.
Proof.
  intros Hf. destruct fuel; simpl; [discriminate|]. rewrite Hf. discriminate.
Qed.

(** Every run of the extraction loop that ends at EOI has read a segment of
    the grammar and pushed its payload. *)
Lemma readScanData_sound fuel :
  forall c tl data s' data',
    readScanData fuel (mkStream tl false) (byte_val c) data = ScanDone s' data' ->
    exists consumed out,
      c :: tl = consumed ++ pending s' /\ failbit s' = false
      /\ Scan consumed out /\ data' = data ++ out.
Proof.
  induction fuel as [|fuel IH]; intros c tl data s' data'; [discriminate|].
  cbn [readScanData failbit].
  destruct tl as [|d tl].
  - rewrite get_byte_nil.
    destruct (byte_val c =? 255); cbn; intros Hrun;
      exfalso; revert Hrun; apply readScanData_failed; reflexivity.
  - rewrite get_byte_cons.
    destruct (Z.eqb_spec (byte_val c) 255) as [Hc|Hc].
    + apply (byte_val_inj c xff) in Hc. subst c.
      destruct (Z.eqb_spec (byte_val d) EOI) as [Hd|_].
      { apply (byte_val_inj d xd9) in Hd. subst d.
        intros [= <- <-]. exists [xff; xd9], [].
        repeat split; [constructor|symmetry; apply app_nil_r]. }
      destruct (Z.eqb_spec (byte_val d) 0) as [Hd|_].
      { apply (byte_val_inj d x00) in Hd. subst d.
        destruct tl as [|e tl].
        - rewrite get_byte_nil. intros Hrun.
          exfalso; revert Hrun; apply readScanData_failed; reflexivity.
        - rewrite get_byte_cons. intros Hrun.
          destruct (IH _ _ _ _ _ Hrun) as (consumed & out & Hsplit & Hf & Hscan & ->).
          exists (xff :: x00 :: consumed), (255 :: out).
          split; [simpl; rewrite Hsplit; reflexivity|].
          split; [exact Hf|]. split; [constructor; exact Hscan|].
          rewrite <- app_assoc. reflexivity. }
      destruct (in_range RST0 RST7 (byte_val d)) eqn:Hrst.
      { destruct tl as [|e tl].
        - rewrite get_byte_nil. intros Hrun.
          exfalso; revert Hrun; apply readScanData_failed; reflexivity.
        - rewrite get_byte_cons. intros Hrun.
          destruct (IH _ _ _ _ _ Hrun) as (consumed & out & Hsplit & Hf & Hscan & ->).
          exists (xff :: d :: consumed), out.
          split; [simpl; rewrite Hsplit; reflexivity|].
          split; [exact Hf|]. split; [|reflexivity].
          apply scan_restart; [exact Hrst|exact Hscan]. }
      destruct (Z.eqb_spec (byte_val d) 255) as [Hd|_]; [|discriminate].
      apply (byte_val_inj d xff) in Hd. subst d.
      intros Hrun. change 255 with (byte_val xff) in Hrun.
      destruct (IH _ _ _ _ _ Hrun) as (consumed & out & Hsplit & Hf & Hscan & ->).
      destruct consumed as [|k consumed]; [inversion Hscan|].
      injection Hsplit as <- Hsplit.
      exists (xff :: xff :: consumed), out.
      split; [simpl; rewrite Hsplit; reflexivity|].
      split; [exact Hf|]. split; [|reflexivity].
      apply scan_fill. exact Hscan.
    + intros Hrun.
      destruct (IH _ _ _ _ _ Hrun) as (consumed & out & Hsplit & Hf & Hscan & ->).
      exists (c :: consumed), (byte_val c :: out).
      split; [simpl; rewrite Hsplit; reflexivity|].
      split; [exact Hf|]. split.
      * apply scan_plain; [|exact Hscan]. intros ->. apply Hc. reflexivity.
      * rewrite <- app_assoc. reflexivity.
Qed.

Lemma Scan_nonempty out : ~ Scan [] out.
Proof. intros H. inversion H. Qed.

Lemma is_rst_val m : is_rst m = true -> 208 <= byte_val m <= 215.
Proof.
  unfold is_rst, in_range, RST0, RST7. intros H.
  apply andb_true_iff in H as [H1 H2]. lia.
Qed.

(** The loop accepts every segment of the grammar: it stops at the EOI that
    ends the segment, with the payload pushed. *)
Lemma readScanData_complete consumed out :
  Scan consumed out ->
  forall c tl rest fuel data,
    consumed ++ rest = c :: tl -> (length tl < fuel)%nat ->
    readScanData fuel (mkStream tl false) (byte_val c) data
    = ScanDone (mkStream rest false) (data ++ out).
Proof.
  induction 1 as [|c0 tl0 out Hc0 Hscan IH|tl0 out Hscan IH
                  |m tl0 out Hm Hscan IH|tl0 out Hscan IH];
    intros c tl rest fuel data Hsplit Hfuel;
    injection Hsplit as <- <-;
    (destruct fuel as [|fuel]; [simpl in Hfuel; lia|]);
    cbn [readScanData failbit].
  - rewrite get_byte_cons. cbn. rewrite app_nil_r. reflexivity.
  - destruct tl0 as [|d tl1]; [destruct (Scan_nonempty _ Hscan)|].
    cbn [app]. rewrite get_byte_cons.
    destruct (Z.eqb_spec (byte_val c0) 255) as [E|_].
    { apply (byte_val_inj c0 xff) in E. contradiction. }
    rewrite (IH d (tl1 ++ rest) rest) by (simpl in *; try reflexivity; lia).
    rewrite <- app_assoc. reflexivity.
  - cbn [app]. rewrite get_byte_cons. cbn.
    destruct tl0 as [|d tl1]; [destruct (Scan_nonempty _ Hscan)|].
    cbn [app]. rewrite get_byte_cons.
    rewrite (IH d (tl1 ++ rest) rest) by (simpl in *; try reflexivity; lia).
    rewrite <- app_assoc. reflexivity.
  - cbn [app]. rewrite get_byte_cons.
    change (byte_val xff =? 255) with true. cbv iota.
    pose proof (is_rst_val m Hm) as Hv.
    destruct (Z.eqb_spec (byte_val m) EOI) as [E|_]; [unfold EOI in E; lia|].
    destruct (Z.eqb_spec (byte_val m) 0) as [E|_]; [lia|].
    unfold is_rst in Hm. rewrite Hm.
    destruct tl0 as [|d tl1]; [destruct (Scan_nonempty _ Hscan)|].
    cbn [app]. rewrite get_byte_cons.
    apply (IH d (tl1 ++ rest) rest); simpl in *; try reflexivity; lia.
  - cbn [app]. rewrite get_byte_cons. cbn.
    apply (IH xff (tl0 ++ rest) rest); simpl in *; try reflexivity; lia.
Qed.

(** In a segment of the grammar a marker byte follows 0xFF only as EOI, as
    the stuffed 0x00, as a restart marker or behind a fill byte. *)
Lemma Scan_marker m tl out :
  Scan (xff :: m :: tl) out ->
  m = xd9 \/ m = x00 \/ is_rst m = true \/ m = xff.
Proof.
  intros H. inversion H; subst; auto. contradiction.
Qed.

(** The bytes 0xFF of the payload are as many as the pairs FF 00 of the
    segment. *)
Lemma Scan_stuffed_pairs consumed out :
  Scan consumed out -> count_occ Z.eq_dec out 255 = stuffed_pairs consumed.
Proof.
  induction 1 as [|c0 tl0 out Hc0 Hscan IH|tl0 out Hscan IH
                  |m tl0 out Hm Hscan IH|tl0 out Hscan IH].
  - reflexivity.
  - cbn [stuffed_pairs].
    destruct (Z.eqb_spec (byte_val c0) 255) as [E|Hne].
    { apply (byte_val_inj c0 xff) in E. contradiction. }
    cbn [andb]. rewrite count_occ_cons_neq by exact Hne. exact IH.
  - cbn. f_equal. exact IH.
  - pose proof (is_rst_val m Hm) as Hv.
    cbn [stuffed_pairs].
    destruct (Z.eqb_spec (byte_val m) 0) as [E|_]; [lia|].
    destruct (Z.eqb_spec (byte_val m) 255) as [E|_]; [lia|].
    rewrite andb_false_r. cbn [andb]. exact IH.
  - exact IH.
Qed.

Lemma validateHeader_valid h :
  valid (validateHeader h) = true -> validateHeader h = h.
Proof.
  destruct (validateHeader_cases h) as [-> | ->]; [reflexivity|discriminate].
Qed.

(** When readJPG, having left the marker loop after SOS, returns a valid
    header, the bytes that follow in the file start with a segment of the
    grammar [Scan], whose payload is what the loop appended to
    [huffmanData]. *)
Lemma extraction_unstuffed s h h' :
  readJPG_tail (MLeave s h) = Hdr h' -> valid h' = true ->
  exists consumed rest out,
    pending s = consumed ++ rest
    /\ Scan consumed out
    /\ huffmanData h' = huffmanData h ++ out
    /\ count_occ Z.eq_dec out 255 = stuffed_pairs consumed.
Proof.
  cbn [readJPG_tail]. destruct (valid h) eqn:Hvalid.
  - destruct s as [[|c tl] [|]].
    + cbn. intros [= <-]. discriminate.
    + cbn. intros [= <-]. discriminate.
    + cbn. intros [= <-]. discriminate.
    + rewrite get_byte_cons. cbn [pending].
      destruct (readScanData _ _ _ _) as [data|s' data|] eqn:Hrun;
        [intros [= <-]; discriminate| |discriminate].
      intros [= <-] Hv. apply validateHeader_valid in Hv. rewrite Hv.
      destruct (readScanData_sound _ _ _ _ _ _ Hrun)
        as (consumed & out & Hsplit & _ & Hscan & ->).
      exists consumed, (pending s'), out.
      split; [exact Hsplit|]. split; [exact Hscan|].
      split; [reflexivity|]. apply Scan_stuffed_pairs. exact Hscan.
  - intros [= <-] Hv.
    destruct (validateHeader_cases h) as [E|E]; rewrite E in Hv; cbn in Hv;
      congruence.
Qed.

(** ** Colour conversion of a greyscale image *)

Lemma all_from_spec n lo p v :
  all_from n lo p = true -> lo <= v < lo + Z.of_nat n -> p v = true.
Proof.
  revert lo. induction n as [|n IH]; intros lo Hall Hv; [lia|].
  simpl in Hall. apply andb_true_iff in Hall as [Hlo Hrest].
  destruct (Z.eq_dec v lo) as [->|Hne]; [exact Hlo|].
  apply (IH (lo + 1)); [exact Hrest|lia].
Qed.

Lemma gray_pixels_checked :
  all_from (Z.to_nat 65536) (-32768) gray_pixel_ok = true.
Proof. vm_compute. reflexivity. Qed.

Lemma gray_pixel (yv : Z) :
  -32768 <= yv <= 32767 ->
  exists gv,
    YCbCrToRGBPixel yv 0 0 = (clamp255 (yv + 128), gv, clamp255 (yv + 128))
    /\ clamp255 (yv + 128) - 1 <= gv <= clamp255 (yv + 128).
Proof.
  intros Hy.
  assert (Hin : -32768 <= yv < -32768 + Z.of_nat (Z.to_nat 65536))
    by (rewrite Z2Nat.id; lia).
  pose proof (all_from_spec _ _ _ yv gray_pixels_checked Hin) as Hok.
  unfold gray_pixel_ok in Hok.
  destruct (YCbCrToRGBPixel yv 0 0) as [[rv gv] bv].
  apply andb_true_iff in Hok as [Hok Hg2].
  apply andb_true_iff in Hok as [Hok Hg1].
  apply andb_true_iff in Hok as [Hr Hb].
  exists gv. split; [|lia].
  apply Z.eqb_eq in Hr, Hb. congruence.
Qed.

Lemma convert_from_spec n :
  forall a m,
    length (y m) = 64%nat -> length (cb m) = 64%nat -> length (cr m) = 64%nat ->
    (a + n <= 64)%nat ->
    forall j,
      (nth j (y (convert_from a n m)) 0, nth j (cb (convert_from a n m)) 0,
       nth j (cr (convert_from a n m)) 0)
      = if (a <=? j)%nat && (j <? a + n)%nat then pixel_of m j
        else (nth j (y m) 0, nth j (cb m) 0, nth j (cr m) 0).
Proof.
  induction n as [|n IH]; intros a m Hy Hcb Hcr Han j.
  - unfold convert_from. cbn [seq fold_left].
    destruct (Nat.leb_spec a j); [|reflexivity].
    destruct (Nat.ltb_spec j (a + 0)); [lia|reflexivity].
  - unfold convert_from. cbn [seq fold_left].
    destruct (YCbCrToRGBPixel (nth a (y m) 0) (nth a (cb m) 0) (nth a (cr m) 0))
      as [[rv gv] bv] eqn:Hpx.
    fold (convert_from (S a) n
            (mkMCU (<[a := rv]> (y m)) (<[a := gv]> (cb m)) (<[a := bv]> (cr m)))).
    rewrite IH; cbn [y cb cr]; rewrite ?length_insert; try assumption; [|lia].
    destruct (Nat.eq_dec j a) as [->|Hne].
    + destruct (Nat.leb_spec (S a) a); [lia|]. cbn [andb].
      rewrite !nth_insert_eq by lia.
      destruct (Nat.leb_spec a a); [|lia].
      destruct (Nat.ltb_spec a (a + S n)); [|lia].
      cbn [andb]. unfold pixel_of. rewrite Hpx. reflexivity.
    + unfold pixel_of. cbn [y cb cr]. rewrite !nth_insert_ne by exact Hne.
      destruct (Nat.leb_spec (S a) j), (Nat.leb_spec a j),
               (Nat.ltb_spec j (S a + n)), (Nat.ltb_spec j (a + S n));
        cbn [andb]; try reflexivity; lia.
Qed.

Lemma YCbCrToRGB_MCU_pixel m j :
  length (y m) = 64%nat -> length (cb m) = 64%nat -> length (cr m) = 64%nat ->
  (j < 64)%nat ->
  (nth j (r (YCbCrToRGB_MCU m)) 0, nth j (g (YCbCrToRGB_MCU m)) 0,
   nth j (b (YCbCrToRGB_MCU m)) 0) = pixel_of m j.
Proof.
  intros Hy Hcb Hcr Hj.
  unfold YCbCrToRGB_MCU, r, g, b.
  rewrite (convert_from_spec 64 0 m Hy Hcb Hcr (Nat.le_refl 64) j).
  destruct (Nat.ltb_spec j (0 + 64)) as [_|Hge]; [reflexivity|].
  exfalso. apply (Nat.lt_irrefl j). eapply Nat.lt_le_trans; [exact Hj|exact Hge].
Qed.


(** The file [dark_jpg] is a greyscale image whose samples are -127.  For
    this value the G formula gives 0.99999999999998579 in [double]
    arithmetic, which the initialisation of [int g] truncates to 0, while R
    and B are 1. *)
Lemma gray_green_off_by_one : ~ gray_channels_equal.
Proof.
  intros Hclaim.
  destruct (decodeHuffmanData zeroMCU dark_header true) as [ms|] eqn:Hdec;
    [|vm_compute in Hdec; discriminate].
  destruct (Hclaim zeroMCU idctMap_ref dark_header true ms 0%nat 0%nat zeroMCU)
    as (_ & Hg & _); try reflexivity.
  - exact Hdec.
  - vm_compute in Hdec. injection Hdec as <-. vm_compute. lia.
  - lia.
  - vm_compute in Hdec. injection Hdec as <-. vm_compute in Hg. discriminate.
Qed.

(** *** The planes of a greyscale image *)

Lemma fold_left_length {A B} (f : list A -> B -> list A) (l : list B) :
  (forall c i, length (f c i) = length c) ->
  forall c, length (fold_left f l c) = length c.
Proof.
  intros Hf. induction l as [|i l IH]; intros c; simpl; [reflexivity|].
  rewrite IH. apply Hf.
Qed.

Lemma acLoop_length data fuel acCodes acTable :
  forall i b c,
    length (snd (fst (acLoop data fuel acCodes acTable i b c))) = length c.
Proof.
  induction fuel as [|fuel IH]; intros i b c; simpl.
  - destruct (64 <=? i); reflexivity.
  - destruct (64 <=? i); [reflexivity|].
    unfold acBody.
    destruct (getNextSymbol data b acCodes acTable) as [symbol b1].
    destruct (symbol =? -1); [reflexivity|].
    destruct (symbol =? 0); [apply zeroRun_length|].
    pose proof (zeroRun_length (Z.to_nat (Z.shiftr symbol 4)) i c) as Hlen.
    destruct (zeroRun _ i c) as [i0 c0]. simpl in Hlen.
    destruct (10 <? Z.land symbol 15); [exact Hlen|].
    destruct (negb (Z.land symbol 15 =? 0)); [|rewrite IH; exact Hlen].
    destruct (i0 =? 64); [exact Hlen|].
    destruct (readBits data (Z.land symbol 15) b1) as [coeff b2].
    destruct (coeff =? -1); [exact Hlen|].
    rewrite IH, length_insert. exact Hlen.
Qed.

Lemma decodeMCUComponent_length data b c previousDC dcCodes dcTable acCodes acTable :
  length (snd (fst (decodeMCUComponent data b c previousDC
                      dcCodes dcTable acCodes acTable))) = length c.
Proof.
  unfold decodeMCUComponent.
  destruct (getNextSymbol data b dcCodes dcTable) as [len b1].
  destruct (len =? to_byte (-1)); [reflexivity|].
  destruct (readBits data len b1) as [coeff b2].
  destruct (coeff =? -1); [reflexivity|].
  rewrite acLoop_length. apply length_insert.
Qed.

Lemma dequantizeMCUComponent_length q c :
  length (dequantizeMCUComponent q c) = length c.
Proof.
  unfold dequantizeMCUComponent. apply fold_left_length.
  intros c' i. apply length_insert.
Qed.

Lemma transformMCUComponent_length idctMap c :
  length (transformMCUComponent idctMap c) = length c.
Proof.
  unfold transformMCUComponent. apply fold_left_length.
  intros c' i. unfold transformRow. apply fold_left_length.
  intros c'' k. apply length_insert.
Qed.

Section Grayscale.

Variable freshMCU : MCU.
Variable header : Header.
Hypothesis gray : numComponents header = 1.

Lemma mcu_at_gray ms i : Forall (gray_mcu freshMCU) ms -> gray_mcu freshMCU (mcu_at freshMCU ms i).
Proof.
  intros Hall. unfold mcu_at.
  destruct (nth_lookup_or_length ms i freshMCU) as [Hi|Hi].
  - apply (Forall_lookup_1 _ _ _ _ Hall Hi).
  - rewrite nth_overflow by lia. repeat split.
Qed.

Lemma decodeMCU_gray dcCodes acCodes i st st' :
  Forall (gray_mcu freshMCU) (mcus st) ->
  decodeMCU freshMCU header dcCodes acCodes i st = Some st' ->
  Forall (gray_mcu freshMCU) (mcus st').
Proof.
  intros Hall. unfold decodeMCU, decodeComponent.
  match goal with
  | |- context [decodeMCUComponent ?d ?b ?c ?p ?dc ?dt ?ac ?at'] =>
      pose proof (decodeMCUComponent_length d b c p dc dt ac at') as Hlen;
      destruct (decodeMCUComponent d b c p dc dt ac at') as [[ok yv] rd]
  end.
  simpl in Hlen. destruct ok; [|discriminate].
  rewrite gray. change (1 =? 3) with false. cbv iota.
  intros [= <-]. unfold finishMCU.
  assert (Hnew : Forall (gray_mcu freshMCU)
                   (<[i := with_y yv (mcu_at freshMCU (mcus st) i)]> (mcus st))).
  { apply Forall_insert; [exact Hall|].
    destruct (mcu_at_gray (mcus st) i Hall) as (Hcb & Hcr & Hy).
    repeat split; cbn [y cb cr with_y]; congruence. }
  destruct (_ && _); exact Hnew.
Qed.

Lemma decodeMCUs_gray dcCodes acCodes n :
  forall i st st',
    Forall (gray_mcu freshMCU) (mcus st) ->
    decodeMCUs freshMCU header dcCodes acCodes n i st = Some st' ->
    Forall (gray_mcu freshMCU) (mcus st').
Proof.
  induction n as [|n IH]; intros i st st' Hall; simpl.
  - intros [= <-]. exact Hall.
  - destruct (decodeMCU freshMCU header dcCodes acCodes i st) as [st1|] eqn:Hstep;
      [|discriminate].
    apply IH. apply (decodeMCU_gray _ _ _ _ _ Hall Hstep).
Qed.

Lemma decodeHuffmanData_gray alloc ms :
  decodeHuffmanData freshMCU header alloc = Some ms -> Forall (gray_mcu freshMCU) ms.
Proof.
  unfold decodeHuffmanData. destruct (negb alloc); [discriminate|].
  destruct (decodeMCUs _ _ _ _ _ _ _) as [st|] eqn:Hrun; [|discriminate].
  intros [= <-].
  apply (decodeMCUs_gray _ _ _ _ _ _) in Hrun; [exact Hrun|].
  unfold initialState. cbn [mcus]. apply Forall_replicate. repeat split.
Qed.

Lemma dequantizeMCU_gray m : gray_mcu freshMCU m -> gray_mcu freshMCU (dequantizeMCU header m).
Proof.
  intros (Hcb & Hcr & Hy). unfold dequantizeMCU.
  rewrite gray. change (1 =? 3) with false. cbv iota.
  repeat split; cbn [y cb cr with_y]; try assumption.
  rewrite dequantizeMCUComponent_length. exact Hy.
Qed.

Lemma inverseDCT_MCU_gray idctMap m :
  gray_mcu freshMCU m -> gray_mcu freshMCU (inverseDCT_MCU idctMap header m).
Proof.
  intros (Hcb & Hcr & Hy). unfold inverseDCT_MCU.
  rewrite gray. change (1 =? 3) with false. cbv iota.
  repeat split; cbn [y cb cr with_y]; try assumption.
  rewrite transformMCUComponent_length. exact Hy.
Qed.

(** Up to the colour conversion the chroma planes of a greyscale image are
    what [new MCU[...]] left in them. *)
Lemma gray_planes idctMap alloc ms :
  decodeHuffmanData freshMCU header alloc = Some ms ->
  Forall (gray_mcu freshMCU) (inverseDCT idctMap header (dequantize header ms)).
Proof.
  intros Hdec. apply decodeHuffmanData_gray in Hdec.
  unfold inverseDCT, dequantize.
  apply List.Forall_map, List.Forall_map.
  eapply Forall_impl; [exact Hdec|].
  intros m Hm. apply inverseDCT_MCU_gray, dequantizeMCU_gray. exact Hm.
Qed.

End Grayscale.

(** C1 (amended): for a decoded image with [numComponents = 1], in which
    the chroma planes are the zeros a fresh MCU holds, the colour conversion
    sets, for every pixel of every MCU whose luma sample [Y] is in the
    16-bit range, R = B = [Y + 128] clamped to [0, 255]; G is that value or
    one less, the G formula being evaluated in [double] and truncated. *)
Theorem gray_conversion freshMCU idctMap header alloc ms (i j : nat) (d : MCU) :
  numComponents header = 1 ->
  length (y freshMCU) = 64%nat ->
  cb freshMCU = replicate 64 0 -> cr freshMCU = replicate 64 0 ->
  decodeHuffmanData freshMCU header alloc = Some ms ->
  let planes := inverseDCT idctMap header (dequantize header ms) in
  let Y := nth j (y (nth i planes d)) 0 in
  let m' := nth i (YCbCrToRGB header planes) d in
  (i < length planes)%nat -> (j < 64)%nat ->
  -32768 <= Y <= 32767 ->
  nth j (r m') 0 = clamp255 (Y + 128)
  /\ nth j (b m') 0 = clamp255 (Y + 128)
  /\ clamp255 (Y + 128) - 1 <= nth j (g m') 0 <= clamp255 (Y + 128).
Proof.
  intros Hgray Hlen Hcb Hcr Hdec planes Y m' Hi Hj HY.
  pose proof (gray_planes freshMCU header Hgray idctMap alloc ms Hdec) as Hall.
  fold planes in Hall.
  assert (Hm : gray_mcu freshMCU (nth i planes d)).
  { destruct (nth_lookup_or_length planes i d) as [Hlk|Hlk]; [|lia].
    apply (Forall_lookup_1 _ _ _ _ Hall Hlk). }
  destruct Hm as (Hmcb & Hmcr & Hmy).
  assert (Hm' : m' = YCbCrToRGB_MCU (nth i planes d)).
  { unfold m', YCbCrToRGB.
    rewrite (nth_indep _ d (YCbCrToRGB_MCU d)) by (rewrite length_map; exact Hi).
    apply map_nth. }
  assert (Hy64 : length (y (nth i planes d)) = 64%nat) by congruence.
  assert (Hcb64 : length (cb (nth i planes d)) = 64%nat)
    by (rewrite Hmcb, Hcb; apply length_replicate).
  assert (Hcr64 : length (cr (nth i planes d)) = 64%nat)
    by (rewrite Hmcr, Hcr; apply length_replicate).
  pose proof (YCbCrToRGB_MCU_pixel (nth i planes d) j Hy64 Hcb64 Hcr64 Hj) as Hpx.
  rewrite <- Hm' in Hpx. unfold pixel_of in Hpx.
  rewrite Hmcb, Hmcr, Hcb, Hcr in Hpx.
  assert (Hz : nth j (replicate 64 0) 0 = 0).
  { rewrite nth_lookup, lookup_replicate_2 by exact Hj. reflexivity. }
  rewrite Hz in Hpx. fold Y in Hpx.
  destruct (gray_pixel Y HY) as (gv & Hgv & Hrange).
  rewrite Hgv in Hpx.
  injection Hpx as Hr Hg Hb. rewrite Hr, Hg, Hb.
  split; [reflexivity|]. split; [reflexivity|exact Hrange].
Qed.

Lemma gray_conversion_witness :
  exists ms,
    decodeHuffmanData zeroMCU tiny_header true = Some ms
    /\ let planes := inverseDCT idctMap_ref tiny_header (dequantize tiny_header ms) in
       let Y := nth 0 (y (nth 0 planes zeroMCU)) 0 in
       let m' := nth 0 (YCbCrToRGB tiny_header planes) zeroMCU in
       nth 0 (r m') 0 = clamp255 (Y + 128)
       /\ nth 0 (b m') 0 = clamp255 (Y + 128)
       /\ clamp255 (Y + 128) - 1 <= nth 0 (g m') 0 <= clamp255 (Y + 128).
Proof.
  eexists. split; [vm_compute; reflexivity|].
  apply (gray_conversion zeroMCU idctMap_ref tiny_header true _ 0 0 zeroMCU).
  - vm_compute. reflexivity.
  - reflexivity.
  - reflexivity.
  - reflexivity.
  - vm_compute. reflexivity.
  - vm_compute. lia.
  - lia.
  - vm_compute. split; intros H; discriminate H.
Defined.

(** The scenario S1 of the specification: the 8x8 image whose only block is
    zero decodes to a BMP of 218 bytes whose pixels are all (128, 128, 128). *)
Example solid_gray_image :
  main zeroMCU idctMap_ref (mkEnv 2 (Some tiny_jpg) true true true)
  = Some (0, Some ([66; 77; 218; 0; 0; 0; 0; 0; 0; 0; 26; 0; 0; 0;
                    12; 0; 0; 0; 8; 0; 8; 0; 1; 0; 24; 0]
                   ++ replicate 192 128)).
Proof. vm_compute. reflexivity. Qed.

(** ** The marker loop consumes the file *)

Lemma advances_refl s : advances s s.
Proof. split; [exists []; reflexivity|lia]. Qed.

Lemma advances_trans s1 s2 s3 : advances s1 s2 -> advances s2 s3 -> advances s1 s3.
Proof.
  intros [[p1 H1] W1] [[p2 H2] W2]. split; [|lia].
  exists (p1 ++ p2). rewrite H1, H2. apply app_assoc.
Qed.

Lemma get_advances s : advances s (snd (get s)).
Proof.
  unfold get. destruct s as [p f]. cbn [failbit pending].
  destruct f; [apply advances_refl|].
  destruct p as [|c p]; cbn.
  - split; [exists []; reflexivity|cbn; lia].
  - split; [exists [c]; reflexivity|cbn; lia].
Qed.

Lemma get_weight s :
  failbit s = false -> (weight (snd (get s)) < weight s)%nat.
Proof.
  unfold get. destruct s as [p f]. cbn [failbit pending]. intros ->.
  destruct p as [|c p]; cbn; lia.
Qed.

Lemma get_byte_advances s : advances s (snd (get_byte s)).
Proof.
  unfold get_byte. pose proof (get_advances s) as H.
  destruct (get s) as [v s1]. exact H.
Qed.

Lemma get_byte_weight s :
  failbit s = false -> (weight (snd (get_byte s)) < weight s)%nat.
Proof.
  unfold get_byte. intros Hf. pose proof (get_weight s Hf) as H.
  destruct (get s) as [v s1]. exact H.
Qed.

Lemma get16_advances s : advances s (snd (get16 s)).
Proof.
  unfold get16. pose proof (get_advances s) as H1.
  destruct (get s) as [hi s1]. pose proof (get_advances s1) as H2.
  destruct (get s1) as [lo s2]. exact (advances_trans _ _ _ H1 H2).
Qed.

Lemma get_many_advances cast k s : advances s (snd (get_many cast k s)).
Proof.
  revert s. induction k as [|k IH]; intros s; cbn; [apply advances_refl|].
  pose proof (get_advances s) as H1. destruct (get s) as [v s1].
  specialize (IH s1). destruct (get_many cast k s1) as [vs s2].
  exact (advances_trans _ _ _ H1 IH).
Qed.

Lemma get16_many_advances cast k s : advances s (snd (get16_many cast k s)).
Proof.
  revert s. induction k as [|k IH]; intros s; cbn; [apply advances_refl|].
  pose proof (get16_advances s) as H1. destruct (get16 s) as [v s1].
  specialize (IH s1). destruct (get16_many cast k s1) as [vs s2].
  exact (advances_trans _ _ _ H1 IH).
Qed.

Lemma dhtOffsets_advances k total s : advances s (snd (dhtOffsets k total s)).
Proof.
  revert total s. induction k as [|k IH]; intros total s; cbn;
    [apply advances_refl|].
  pose proof (get_advances s) as H1. destruct (get s) as [v s1].
  specialize (IH (to_uint (total + v)) s1).
  destruct (dhtOffsets k (to_uint (total + v)) s1) as [[rest t'] s2].
  exact (advances_trans _ _ _ H1 IH).
Qed.

Lemma skip_advances n s : advances s (skip n s).
Proof.
  unfold skip. destruct s as [p f]. cbn [failbit pending].
  destruct f; [apply advances_refl|].
  destruct (n <=? 0); [apply advances_refl|].
  destruct (Z.leb_spec n (Z.of_nat (length p))).
  - split; cbn.
    + exists (take (Z.to_nat n) p). symmetry. apply take_drop.
    + rewrite length_drop. lia.
  - split; cbn; [exists p; symmetry; apply app_nil_r|lia].
Qed.

(** [advances s s'] from a chain of reads in the context. *)
Ltac chain :=
  solve [ apply advances_refl
        | eassumption
        | eapply advances_trans; [eassumption|chain] ].

(** One read or one branch of a reader. *)
Ltac reader_step :=
  match goal with
  | |- context [get_byte ?s] =>
      let H := fresh "Hadv" in
      pose proof (get_byte_advances s) as H;
      destruct (get_byte s) as [? ?]; cbn [fst snd] in H
  | |- context [get16_many ?c ?k ?s] =>
      let H := fresh "Hadv" in
      pose proof (get16_many_advances c k s) as H;
      destruct (get16_many c k s) as [? ?]; cbn [fst snd] in H
  | |- context [get_many ?c ?k ?s] =>
      let H := fresh "Hadv" in
      pose proof (get_many_advances c k s) as H;
      destruct (get_many c k s) as [? ?]; cbn [fst snd] in H
  | |- context [get16 ?s] =>
      let H := fresh "Hadv" in
      pose proof (get16_advances s) as H;
      destruct (get16 s) as [? ?]; cbn [fst snd] in H
  | |- context [dhtOffsets ?k ?t ?s] =>
      let H := fresh "Hadv" in
      pose proof (dhtOffsets_advances k t s) as H;
      destruct (dhtOffsets k t s) as [[? ?] ?]; cbn [fst snd] in H
  | |- context [if ?c then _ else _] => destruct c
  end.

Ltac keeps_done := split; cbn [fst snd]; [chain|reflexivity].

Lemma sofComponent_keeps s h :
  keeps s h (fst (sofComponent s h)).
Proof. unfold sofComponent. repeat reader_step; keeps_done. Qed.

Lemma keeps_trans s h s1 h1 res :
  keeps s h (s1, h1) -> keeps s1 h1 res -> keeps s h res.
Proof.
  intros [A1 D1] [A2 D2]. split; [exact (advances_trans _ _ _ A1 A2)|].
  cbn in D1. congruence.
Qed.

Lemma sofComponents_keeps n s h : keeps s h (fst (sofComponents n s h)).
Proof.
  revert s h. induction n as [|n IH]; intros s h; cbn;
    [split; [apply advances_refl|reflexivity]|].
  pose proof (sofComponent_keeps s h) as H1.
  destruct (sofComponent s h) as [[s1 h1] go]. cbn [fst] in H1.
  destruct go; [|exact H1].
  exact (keeps_trans _ _ _ _ _ H1 (IH s1 h1)).
Qed.

Lemma readStartOfFrame_keeps s h : keeps s h (readStartOfFrame s h).
Proof.
  unfold readStartOfFrame.
  repeat reader_step; try keeps_done.
  all: match goal with
       | |- context [sofComponents ?n ?s ?h] =>
           pose proof (sofComponents_keeps n s h) as Hc;
           destruct (sofComponents n s h) as [[s' h'] go]
       end.
  all: destruct Hc as [Hc1 Hc2]; cbn [fst snd] in Hc1, Hc2.
  all: repeat reader_step; split; cbn [fst snd]; try chain;
       rewrite ?Hc2; reflexivity.
Qed.

Lemma dqtLoop_keeps fuel : forall len s h, keeps s h (dqtLoop fuel len s h).
Proof.
  induction fuel as [|fuel IH]; intros len s h; cbn [dqtLoop].
  - repeat reader_step; keeps_done.
  - repeat reader_step; try keeps_done;
      (eapply keeps_trans; [|apply IH]; keeps_done).
Qed.

Lemma readQuantizationTable_keeps s h : keeps s h (readQuantizationTable s h).
Proof.
  unfold readQuantizationTable. reader_step.
  eapply keeps_trans; [|apply dqtLoop_keeps]. keeps_done.
Qed.

Lemma dhtLoop_keeps fuel : forall len s h, keeps s h (dhtLoop fuel len s h).
Proof.
  induction fuel as [|fuel IH]; intros len s h; cbn [dhtLoop].
  - repeat reader_step; keeps_done.
  - repeat reader_step; try keeps_done;
      (eapply keeps_trans; [|apply IH]; keeps_done).
Qed.

Lemma readHuffmanTable_keeps s h : keeps s h (readHuffmanTable s h).
Proof.
  unfold readHuffmanTable. reader_step.
  eapply keeps_trans; [|apply dhtLoop_keeps]. keeps_done.
Qed.

Lemma readRestartInterval_keeps s h : keeps s h (readRestartInterval s h).
Proof. unfold readRestartInterval. repeat reader_step; keeps_done. Qed.

Lemma readAPPN_keeps s h : keeps s h (readAPPN s h).
Proof.
  unfold readAPPN. reader_step. split; cbn [fst snd]; [|reflexivity].
  eapply advances_trans; [eassumption|apply skip_advances].
Qed.

Lemma readComment_keeps s h : keeps s h (readComment s h).
Proof.
  unfold readComment. reader_step. split; cbn [fst snd]; [|reflexivity].
  eapply advances_trans; [eassumption|apply skip_advances].
Qed.

Lemma clearUsed_data n : forall i h h',
  clearUsed n i h = InBounds h' -> huffmanData h' = huffmanData h.
Proof.
  induction n as [|n IH]; intros i h h'; cbn [clearUsed].
  - intros [= <-]. reflexivity.
  - destruct (3 <=? i)%nat; [discriminate|].
    intros H. apply IH in H. exact H.
Qed.

Lemma sosComponent_keeps s h s' h' go :
  sosComponent s h = InBounds (s', h', go) -> keeps s h (s', h').
Proof.
  unfold sosComponent.
  repeat reader_step; try discriminate; intros [= <- <- <-]; keeps_done.
Qed.

Lemma sosComponents_keeps n : forall s h s' h' go,
  sosComponents n s h = InBounds (s', h', go) -> keeps s h (s', h').
Proof.
  induction n as [|n IH]; intros s h s' h' go; cbn.
  - intros [= <- <- <-]. split; [apply advances_refl|reflexivity].
  - destruct (sosComponent s h) as [[[s1 h1] go1]|] eqn:Hone; [|discriminate].
    apply sosComponent_keeps in Hone.
    destruct go1.
    + intros Hrest. apply IH in Hrest. exact (keeps_trans _ _ _ _ _ Hone Hrest).
    + intros [= <- <- <-]. exact Hone.
Qed.

Lemma readStartOfScan_keeps s h s' h' :
  readStartOfScan s h = InBounds (s', h') -> keeps s h (s', h').
Proof.
  unfold readStartOfScan.
  destruct (numComponents h =? 0); [intros [= <- <-]; keeps_done|].
  reader_step.
  destruct (clearUsed _ 0 h) as [h1|] eqn:Hclear; [|discriminate].
  apply clearUsed_data in Hclear.
  reader_step.
  match goal with
  | |- context [sosComponents ?n ?s ?h] =>
      destruct (sosComponents n s h) as [[[s2 h2] go]|] eqn:Hcomp; [|discriminate]
  end.
  apply sosComponents_keeps in Hcomp. destruct Hcomp as [Hc1 Hc2].
  cbn [fst snd] in Hc1, Hc2.
  destruct go.
  - repeat reader_step; intros [= <- <-]; split; cbn [fst snd]; try chain;
      unfold invalid, set_valid, set_selection; cbn [huffmanData]; congruence.
  - intros [= <- <-]. split; cbn [fst snd]; [chain|congruence].
Qed.

Lemma nextMarker_spec s h res s' last' current' h' :
  failbit s = false -> keeps s h res ->
  nextMarker res = Again s' last' current' h' ->
  advances s s' /\ huffmanData h' = huffmanData h /\ (weight s' < weight s)%nat.
Proof.
  intros Hf [Hadv Hdata]. unfold nextMarker. destruct res as [s1 h1].
  cbn [fst snd] in Hadv, Hdata.
  pose proof (get_byte_advances s1) as H1.
  assert (Hw : (weight (snd (get_byte s1)) < weight s)%nat).
  { destruct (failbit s1) eqn:Hf1.
    - destruct H1 as [_ H1]. unfold weight in *. rewrite Hf1 in H1.
      rewrite Hf. lia.
    - pose proof (get_byte_weight s1 Hf1). destruct Hadv as [_ Hadv]. lia. }
  destruct (get_byte s1) as [l1 s2]. cbn [snd] in H1, Hw.
  pose proof (get_byte_advances s2) as H2.
  destruct (get_byte s2) as [c2 s3]. cbn [snd] in H2.
  intros [= <- _ _ <-].
  split; [chain|]. split; [exact Hdata|]. destruct H2 as [_ H2]. lia.
Qed.

(** A pass that is followed by another one has read at least one byte, or
    has met the end of the file. *)
Lemma markerStep_again s last current h s' last' current' h' :
  markerStep s last current h = Again s' last' current' h' ->
  advances s s' /\ huffmanData h' = huffmanData h /\ (weight s' < weight s)%nat.
Proof.
  unfold markerStep.
  destruct (negb (valid h)); [discriminate|].
  destruct (failbit s) eqn:Hf; [discriminate|].
  destruct (negb (last =? 255)); [discriminate|].
  destruct (current =? SOF0).
  { intros H.
    apply (nextMarker_spec s (set_frameType SOF0 h) _ _ _ _ _ Hf
             (readStartOfFrame_keeps _ _) H). }
  destruct (current =? DQT).
  { apply (nextMarker_spec s h _ _ _ _ _ Hf (readQuantizationTable_keeps _ _)). }
  destruct (current =? DHT).
  { apply (nextMarker_spec s h _ _ _ _ _ Hf (readHuffmanTable_keeps _ _)). }
  destruct (current =? SOS).
  { destruct (readStartOfScan s h) as [[s1 h1]|]; discriminate. }
  destruct (current =? DRI).
  { apply (nextMarker_spec s h _ _ _ _ _ Hf (readRestartInterval_keeps _ _)). }
  destruct (in_range APP0 APP15 current).
  { apply (nextMarker_spec s h _ _ _ _ _ Hf (readAPPN_keeps _ _)). }
  destruct (current =? COM).
  { apply (nextMarker_spec s h _ _ _ _ _ Hf (readComment_keeps _ _)). }
  destruct (_ || _).
  { apply (nextMarker_spec s h _ _ _ _ _ Hf (readComment_keeps _ _)). }
  destruct (current =? TEM).
  { apply (nextMarker_spec s h (s, h) _ _ _ _ Hf).
    split; [apply advances_refl|reflexivity]. }
  destruct (current =? 255).
  { pose proof (get_byte_advances s) as H1.
    pose proof (get_byte_weight s Hf) as H2.
    destruct (get_byte s) as [c1 s1]. cbn [snd] in H1, H2.
    intros [= <- _ _ <-]. auto. }
  repeat (match goal with |- context [if ?c then _ else _] => destruct c end);
    discriminate.
Qed.

Lemma markerStep_leave s last current h s' h' :
  markerStep s last current h = Stop (MLeave s' h') ->
  advances s s' /\ huffmanData h' = huffmanData h.
Proof.
  unfold markerStep, nextMarker.
  destruct (negb (valid h)).
  { intros [= <- <-]. split; [apply advances_refl|reflexivity]. }
  destruct (failbit s); [discriminate|].
  destruct (negb (last =? 255)); [discriminate|].
  repeat (match goal with
          | |- context [if ?c then _ else _] => destruct c
          | |- context [let '(_, _) := ?e in _] => destruct e as [? ?]
          end); try discriminate.
  destruct (readStartOfScan s h) as [[s1 h1]|] eqn:Hsos; [|discriminate].
  intros [= <- <-]. apply (readStartOfScan_keeps _ _ _ _ Hsos).
Qed.

Lemma markerStep_return s last current h h' :
  markerStep s last current h = Stop (MReturn h') -> valid h' = false.
Proof.
  unfold markerStep, nextMarker.
  repeat (match goal with
          | |- context [if ?c then _ else _] => destruct c
          | |- context [let '(_, _) := ?e in _] => destruct e as [? ?]
          | |- context [match ?e with InBounds _ => _ | OutOfBounds _ => _ end] =>
              destruct e as [[? ?]|]
          end); try discriminate; intros [= <-]; reflexivity.
Qed.

(** *** The passes of the loop, counted *)

Lemma markerPasses_spec n :
  forall s last current h s' last' current' h',
    markerPasses n s last current h = Some (s', last', current', h') ->
    advances s s' /\ huffmanData h' = huffmanData h
    /\ (n + weight s' <= weight s)%nat
    /\ forall fuel,
         readMarkers (n + fuel) s last current h
         = readMarkers fuel s' last' current' h'.
Proof.
  induction n as [|n IH]; intros s last current h s' last' current' h'; cbn.
  - intros [= <- <- <- <-].
    split; [apply advances_refl|]. split; [reflexivity|]. split; [lia|]. reflexivity.
  - destruct (markerStep s last current h) as [s1 l1 c1 h1|] eqn:Hstep;
      [|discriminate].
    apply markerStep_again in Hstep as (Ha & Hd & Hw).
    intros Hrest. apply IH in Hrest as (Ha' & Hd' & Hw' & Hrun).
    split; [exact (advances_trans _ _ _ Ha Ha')|].
    split; [congruence|]. split; [lia|exact Hrun].
Qed.

(** The loop ends within as many passes as the stream has weight. *)
Lemma readMarkers_total fuel :
  forall s last current h,
    (weight s <= fuel)%nat -> readMarkers fuel s last current h <> MOutOfFuel.
Proof.
  induction fuel as [|fuel IH]; intros s last current h Hw; cbn.
  - destruct (markerStep s last current h) as [s1 l1 c1 h1|res] eqn:Hstep.
    + apply markerStep_again in Hstep as (_ & _ & Hlt). lia.
    + unfold markerStep, nextMarker in Hstep.
      repeat (match type of Hstep with
              | context [if ?c then _ else _] => destruct c
              | context [let '(_, _) := ?e in _] => destruct e as [? ?]
              | context [match ?e with InBounds _ => _ | OutOfBounds _ => _ end] =>
                  destruct e as [[? ?]|]
              end); try discriminate; injection Hstep as <-; discriminate.
  - destruct (markerStep s last current h) as [s1 l1 c1 h1|res] eqn:Hstep.
    + apply markerStep_again in Hstep as (_ & _ & Hlt). apply IH. lia.
    + unfold markerStep, nextMarker in Hstep.
      repeat (match type of Hstep with
              | context [if ?c then _ else _] => destruct c
              | context [let '(_, _) := ?e in _] => destruct e as [? ?]
              | context [match ?e with InBounds _ => _ | OutOfBounds _ => _ end] =>
                  destruct e as [[? ?]|]
              end); try discriminate; injection Hstep as <-; discriminate.
Qed.

Lemma readMarkers_return fuel :
  forall s last current h h',
    readMarkers fuel s last current h = MReturn h' -> valid h' = false.
Proof.
  induction fuel as [|fuel IH]; intros s last current h h'; cbn;
    destruct (markerStep s last current h) as [s1 l1 c1 h1|res] eqn:Hstep;
    try discriminate.
  - intros ->. apply (markerStep_return _ _ _ _ _ Hstep).
  - apply IH.
  - intros ->. apply (markerStep_return _ _ _ _ _ Hstep).
Qed.

Lemma readMarkers_leave fuel :
  forall s last current h s' h',
    readMarkers fuel s last current h = MLeave s' h' ->
    advances s s' /\ huffmanData h' = huffmanData h.
Proof.
  induction fuel as [|fuel IH]; intros s last current h s' h'; cbn;
    destruct (markerStep s last current h) as [s1 l1 c1 h1|res] eqn:Hstep;
    try discriminate.
  - intros ->. apply (markerStep_leave _ _ _ _ _ _ Hstep).
  - intros Hrest. apply IH in Hrest as [Ha Hd].
    apply markerStep_again in Hstep as (Ha' & Hd' & _).
    split; [exact (advances_trans _ _ _ Ha' Ha)|congruence].
  - intros ->. apply (markerStep_leave _ _ _ _ _ _ Hstep).
Qed.

Lemma entryStream_advances rest : advances (mkStream rest false) (entryStream rest).
Proof.
  unfold entryStream.
  exact (advances_trans _ _ _ (get_byte_advances _) (get_byte_advances _)).
Qed.

Lemma readJPG_entry rest :
  readJPG (Some (xff :: xd8 :: rest)) true
  = readJPG_tail (readMarkers (S (S (length (pending (entryStream rest)))))
                    (entryStream rest) (entryLast rest) (entryCurrent rest)
                    newHeader).
Proof.
  unfold readJPG, entryStream, entryLast, entryCurrent. cbn [negb].
  rewrite !get_byte_cons.
  change (negb (byte_val xff =? 255) || negb (byte_val xd8 =? SOI)) with false.
  cbv iota.
  destruct (get_byte (mkStream rest false)) as [last s1]. cbn [fst snd].
  destruct (get_byte s1) as [current s2]. reflexivity.
Qed.

(** C10: for every file in which the marker loop of readJPG, after any
    number of passes, meets the marker SOF0 while the header is valid and
    holds a frame already ([numComponents] nonzero), readJPG returns the
    header with [valid] false, and [height], [width], [numComponents] and
    the colour components are those the header had before the second
    segment. *)
Theorem second_SOF_rejected (rest : list byte) (n : nat) (s : ifstream) (h : Header) :
  markerPasses n (entryStream rest) (entryLast rest) (entryCurrent rest) newHeader
  = Some (s, 255, SOF0, h) ->
  valid h = true -> failbit s = false -> numComponents h <> 0 ->
  exists h',
    readJPG (Some (xff :: xd8 :: rest)) true = Hdr h'
    /\ valid h' = false
    /\ height h' = height h
    /\ width h' = width h
    /\ numComponents h' = numComponents h
    /\ colorComponents h' = colorComponents h.
Proof.
  intros Hpasses Hvalid Hfail Hnc.
  apply markerPasses_spec in Hpasses as (_ & _ & Hw & Hrun).
  rewrite readJPG_entry.
  assert (Hs : (1 <= weight s)%nat) by (unfold weight; rewrite Hfail; lia).
  assert (Hw0 : (weight (entryStream rest)
                 <= S (length (pending (entryStream rest))))%nat).
  { unfold weight. destruct (failbit (entryStream rest)); lia. }
  replace (S (S (length (pending (entryStream rest)))))
    with (n + S (S (length (pending (entryStream rest))) - n))%nat by lia.
  rewrite Hrun.
  apply second_SOF_at_loop; assumption.
Qed.

Lemma second_SOF_rejected_witness :
  (height (snd two_sof_state) = 8 /\ width (snd two_sof_state) = 8
   /\ numComponents (snd two_sof_state) = 1)
  /\ exists h',
       readJPG (Some (xff :: xd8 :: two_sof_rest)) true = Hdr h'
       /\ valid h' = false
       /\ height h' = height (snd two_sof_state)
       /\ width h' = width (snd two_sof_state)
       /\ numComponents h' = numComponents (snd two_sof_state)
       /\ colorComponents h' = colorComponents (snd two_sof_state).
Proof.
  split; [vm_compute; auto|].
  apply (second_SOF_rejected two_sof_rest 4 (fst (fst (fst two_sof_state)))
           (snd two_sof_state)).
  - vm_compute. reflexivity.
  - vm_compute. reflexivity.
  - vm_compute. reflexivity.
  - vm_compute. discriminate.
Defined.

Lemma readScanData_total fuel :
  forall s current data,
    (weight s < fuel)%nat -> readScanData fuel s current data <> ScanOutOfFuel.
Proof.
  induction fuel as [|fuel IH]; intros s current data Hw; [lia|].
  cbn [readScanData].
  destruct (failbit s) eqn:Hf; [discriminate|].
  pose proof (get_byte_weight s Hf) as H1.
  destruct (get_byte s) as [c1 s1]. cbn [snd] in H1.
  pose proof (get_byte_advances s1) as [_ H2].
  destruct (get_byte s1) as [c2 s2]. cbn [snd] in H2.
  destruct (current =? 255).
  - destruct (c1 =? EOI); [discriminate|].
    destruct (c1 =? 0); [apply IH; lia|].
    destruct (in_range RST0 RST7 c1); [apply IH; lia|].
    destruct (c1 =? 255); [apply IH; lia|discriminate].
  - apply IH. lia.
Qed.

(** readJPG returns on every file: the passes allowed to its two loops are
    never used up. *)
Theorem readJPG_total file alloc : readJPG file alloc <> OutOfFuel.
Proof.
  unfold readJPG. destruct file as [bytes|]; [|discriminate].
  destruct (negb alloc); [discriminate|].
  destruct (get_byte (mkStream bytes false)) as [l0 s0].
  destruct (get_byte s0) as [c0 s1].
  destruct (_ || _); [discriminate|].
  destruct (get_byte s1) as [l1 s2].
  destruct (get_byte s2) as [c1 s3].
  pose proof (readMarkers_total (S (S (length (pending s3)))) s3 l1 c1 newHeader)
    as Hloop.
  destruct (readMarkers _ s3 l1 c1 newHeader) as [h|s h| |]; cbn [readJPG_tail];
    try discriminate.
  - destruct (valid h); [|discriminate].
    pose proof (get_byte_advances s) as [_ Hadv].
    destruct (get_byte s) as [c s']. cbn [snd] in Hadv.
    pose proof (readScanData_total (S (S (length (pending s')))) s' c
                  (huffmanData h)) as Hscan.
    destruct (readScanData _ s' c (huffmanData h)); try discriminate.
    exfalso. apply Hscan; [|reflexivity].
    unfold weight. destruct (failbit s'); lia.
  - exfalso. apply Hloop; [|reflexivity].
    unfold weight. destruct (failbit s3); lia.
Qed.

(** *** Readers look at the bytes they consume only

    When a reader has left [d] bytes or more pending without a failed
    read, it does the same, with the same header, on the file whose last
    [d] bytes are replaced by others. *)

Lemma advances_ok s s' : advances s s' -> failbit s' = false -> failbit s = false.
Proof.
  intros [_ Hw] Hok. unfold weight in Hw. rewrite Hok in Hw.
  destruct (failbit s); [lia|reflexivity].
Qed.

Lemma advances_reaches d s s' : advances s s' -> reaches d s' -> reaches d s.
Proof.
  intros [[pre Hpre] Hw] [Hok Hd]. split.
  - unfold weight in Hw. rewrite Hok in Hw.
    destruct (failbit s); [lia|reflexivity].
  - rewrite Hpre, length_app. lia.
Qed.

Lemma get_retailed d tail s :
  reaches d (snd (get s)) ->
  get (retailed d tail s) = (fst (get s), retailed d tail (snd (get s))).
Proof.
  unfold get, retailed, reaches. destruct s as [p f]. cbn [failbit pending].
  destruct f; [cbn; intros [? _]; discriminate|].
  destruct p as [|c p]; [cbn; intros [? _]; discriminate|].
  cbn [fst snd failbit pending length]. intros [_ Hd].
  replace (S (length p) - d)%nat with (S (length p - d)) by lia.
  reflexivity.
Qed.

Lemma get_byte_retailed d tail s :
  reaches d (snd (get_byte s)) ->
  get_byte (retailed d tail s)
  = (fst (get_byte s), retailed d tail (snd (get_byte s))).
Proof.
  unfold get_byte. pose proof (get_retailed d tail s) as E.
  destruct (get s) as [v s1]. cbn [fst snd] in *. intros Hok.
  rewrite (E Hok). reflexivity.
Qed.

Lemma get16_retailed d tail s :
  reaches d (snd (get16 s)) ->
  get16 (retailed d tail s) = (fst (get16 s), retailed d tail (snd (get16 s))).
Proof.
  unfold get16. pose proof (get_retailed d tail s) as E1.
  destruct (get s) as [hi s1]. pose proof (get_retailed d tail s1) as E2.
  pose proof (get_advances s1) as A2.
  destruct (get s1) as [lo s2]. cbn [fst snd] in *. intros Hok.
  rewrite (E1 (advances_reaches d _ _ A2 Hok)), (E2 Hok). reflexivity.
Qed.

Lemma get_many_retailed d tail cast k : forall s,
  reaches d (snd (get_many cast k s)) ->
  get_many cast k (retailed d tail s)
  = (fst (get_many cast k s), retailed d tail (snd (get_many cast k s))).
Proof.
  induction k as [|k IH]; intros s; cbn [get_many]; [reflexivity|].
  pose proof (get_retailed d tail s) as E1. destruct (get s) as [v s1].
  pose proof (IH s1) as E2. pose proof (get_many_advances cast k s1) as A2.
  destruct (get_many cast k s1) as [vs s2]. cbn [fst snd] in *. intros Hok.
  rewrite (E1 (advances_reaches d _ _ A2 Hok)), (E2 Hok). reflexivity.
Qed.

Lemma get16_many_retailed d tail cast k : forall s,
  reaches d (snd (get16_many cast k s)) ->
  get16_many cast k (retailed d tail s)
  = (fst (get16_many cast k s), retailed d tail (snd (get16_many cast k s))).
Proof.
  induction k as [|k IH]; intros s; cbn [get16_many]; [reflexivity|].
  pose proof (get16_retailed d tail s) as E1. destruct (get16 s) as [v s1].
  pose proof (IH s1) as E2. pose proof (get16_many_advances cast k s1) as A2.
  destruct (get16_many cast k s1) as [vs s2]. cbn [fst snd] in *. intros Hok.
  rewrite (E1 (advances_reaches d _ _ A2 Hok)), (E2 Hok). reflexivity.
Qed.

Lemma dhtOffsets_retailed d tail k : forall total s,
  reaches d (snd (dhtOffsets k total s)) ->
  dhtOffsets k total (retailed d tail s)
  = (fst (dhtOffsets k total s), retailed d tail (snd (dhtOffsets k total s))).
Proof.
  induction k as [|k IH]; intros total s; cbn [dhtOffsets]; [reflexivity|].
  pose proof (get_retailed d tail s) as E1. destruct (get s) as [v s1].
  pose proof (IH (to_uint (total + v)) s1) as E2.
  pose proof (dhtOffsets_advances k (to_uint (total + v)) s1) as A2.
  destruct (dhtOffsets k (to_uint (total + v)) s1) as [[offs tot] s2].
  cbn [fst snd] in *. intros Hok.
  rewrite (E1 (advances_reaches d _ _ A2 Hok)), (E2 Hok). reflexivity.
Qed.

Lemma skip_retailed d tail n s :
  reaches d (skip n s) -> skip n (retailed d tail s) = retailed d tail (skip n s).
Proof.
  unfold skip, retailed, reaches. destruct s as [p f]. cbn [failbit pending].
  destruct f; [intros [? _]; discriminate|].
  destruct (Z.leb_spec n 0) as [Hn0|Hn0]; [reflexivity|].
  destruct (Z.leb_spec n (Z.of_nat (length p))) as [Hn|Hn];
    [|intros [? _]; discriminate].
  cbn [failbit pending]. rewrite length_drop. intros [_ Hd].
  rewrite length_app, length_take.
  match goal with
  | |- context [n <=? ?x] =>
      destruct (Z.leb_spec n x) as [_|Hx]; [|exfalso; lia]
  end.
  f_equal. rewrite drop_app_le by (rewrite length_take; lia).
  f_equal. rewrite take_drop_commute. do 2 f_equal. lia.
Qed.

(** The stream behind a read is sound when the stream behind the whole
    reader is. *)
Ltac reader_step2 :=
  match goal with
  | |- context [sofComponents ?n ?s ?h] =>
      let H := fresh "Hadv" in
      pose proof (proj1 (sofComponents_keeps n s h)) as H;
      destruct (sofComponents n s h) as [[? ?] ?]; cbn [fst snd] in H
  | |- context [sofComponent ?s ?h] =>
      let H := fresh "Hadv" in
      pose proof (proj1 (sofComponent_keeps s h)) as H;
      destruct (sofComponent s h) as [[? ?] ?]; cbn [fst snd] in H
  | |- context [dqtLoop ?f ?l ?s ?h] =>
      let H := fresh "Hadv" in
      pose proof (proj1 (dqtLoop_keeps f l s h)) as H;
      destruct (dqtLoop f l s h) as [? ?]; cbn [fst snd] in H
  | |- context [dhtLoop ?f ?l ?s ?h] =>
      let H := fresh "Hadv" in
      pose proof (proj1 (dhtLoop_keeps f l s h)) as H;
      destruct (dhtLoop f l s h) as [? ?]; cbn [fst snd] in H
  | |- context [skip ?n ?s] =>
      let H := fresh "Hadv" in
      pose proof (skip_advances n s) as H;
      generalize dependent (skip n s); intros
  | _ => reader_step
  end.

(** [advances s s'] from the reads in the context, along any of them. *)
Ltac follow :=
  solve [ apply advances_refl
        | eassumption
        | match goal with
          | H : advances ?a ?b |- advances ?a _ =>
              eapply advances_trans; [exact H|follow]
          end ].

Ltac still_reaches Hok :=
  eapply advances_reaches; [|exact Hok];
  repeat reader_step2; cbn [fst snd]; follow.

Ltac retail_read d E t :=
  let Hok := fresh "Hok" in
  let Hs := fresh "Hs" in
  intros Hok;
  assert (Hs : reaches d (snd t)) by still_reaches Hok;
  rewrite (E Hs); revert Hok;
  destruct t as [? ?]; cbn [fst snd] in Hs |- *.

(** A call of a reader that returns the stream first. *)
Ltac retail_sub d E t :=
  let Hok := fresh "Hok" in
  let Hs := fresh "Hs" in
  intros Hok;
  assert (Hs : reaches d (fst t)) by still_reaches Hok;
  rewrite (E Hs); revert Hok;
  destruct t as [? ?]; cbn [fst snd] in Hs |- *.

Ltac retail_step :=
  match goal with
  | |- context [if ?c then _ else _] => destruct c
  | |- _ -> ?lhs = _ =>
      match lhs with
      | context [get_byte (retailed ?d ?t ?s)] =>
          retail_read d (get_byte_retailed d t s) (get_byte s)
      | context [get16_many ?c ?k (retailed ?d ?t ?s)] =>
          retail_read d (get16_many_retailed d t c k s) (get16_many c k s)
      | context [get_many ?c ?k (retailed ?d ?t ?s)] =>
          retail_read d (get_many_retailed d t c k s) (get_many c k s)
      | context [get16 (retailed ?d ?t ?s)] =>
          retail_read d (get16_retailed d t s) (get16 s)
      | context [dhtOffsets ?k ?a (retailed ?d ?t ?s)] =>
          let Hok := fresh "Hok" in
          let Hs := fresh "Hs" in
          intros Hok;
          assert (Hs : reaches d (snd (dhtOffsets k a s))) by still_reaches Hok;
          rewrite (dhtOffsets_retailed d t k a s Hs); revert Hok;
          destruct (dhtOffsets k a s) as [[? ?] ?]; cbn [fst snd] in Hs |- *
      | context [skip ?m (retailed ?d ?t ?s)] =>
          let Hok := fresh "Hok" in
          let Hs := fresh "Hs" in
          intros Hok;
          assert (Hs : reaches d (skip m s)) by still_reaches Hok;
          rewrite (skip_retailed d t m s Hs); revert Hok
      end
  end.

Ltac retail_done := intros _; reflexivity.

Lemma readRestartInterval_retailed d tail s h :
  reaches d (fst (readRestartInterval s h)) ->
  readRestartInterval (retailed d tail s) h
  = (retailed d tail (fst (readRestartInterval s h)),
     snd (readRestartInterval s h)).
Proof. unfold readRestartInterval. repeat retail_step; retail_done. Qed.

Lemma sofComponent_retailed d tail s h :
  reaches d (fst (fst (sofComponent s h))) ->
  sofComponent (retailed d tail s) h
  = (retailed d tail (fst (fst (sofComponent s h))),
     snd (fst (sofComponent s h)), snd (sofComponent s h)).
Proof. unfold sofComponent. repeat retail_step; retail_done. Qed.


Lemma sofComponents_retailed d tail n : forall s h,
  reaches d (fst (fst (sofComponents n s h))) ->
  sofComponents n (retailed d tail s) h
  = (retailed d tail (fst (fst (sofComponents n s h))),
     snd (fst (sofComponents n s h)), snd (sofComponents n s h)).
Proof.
  induction n as [|n IH]; intros s h; cbn [sofComponents]; [reflexivity|].
  intros Hok.
  assert (Hs : reaches d (fst (fst (sofComponent s h)))).
  { eapply advances_reaches; [|exact Hok].
    destruct (sofComponent s h) as [[s1 h1] go1]. cbn [fst snd].
    destruct go1; [apply (proj1 (sofComponents_keeps n s1 h1))|apply advances_refl]. }
  rewrite (sofComponent_retailed d tail s h Hs). revert Hok.
  destruct (sofComponent s h) as [[s1 h1] go1]. cbn [fst snd] in *.
  destruct go1; [apply IH|reflexivity].
Qed.

Lemma readStartOfFrame_retailed d tail s h :
  reaches d (fst (readStartOfFrame s h)) ->
  readStartOfFrame (retailed d tail s) h
  = (retailed d tail (fst (readStartOfFrame s h)), snd (readStartOfFrame s h)).
Proof.
  unfold readStartOfFrame. repeat retail_step; try retail_done.
  all: match goal with
       | |- _ -> ?lhs = _ =>
           match lhs with
           | context [sofComponents ?n (retailed ?d ?t ?s0) ?h0] =>
               let Hok := fresh "Hok" in
               let Hc := fresh "Hs" in
               intros Hok;
               assert (Hc : reaches d (fst (fst (sofComponents n s0 h0))))
                 by still_reaches Hok;
               rewrite (sofComponents_retailed d t n s0 h0 Hc); revert Hok;
               destruct (sofComponents n s0 h0) as [[? ?] ?];
               cbn [fst snd] in Hc |- *
           end
       end.
  all: repeat retail_step; retail_done.
Qed.

Lemma dqtLoop_retailed d tail fuel : forall len s h,
  reaches d (fst (dqtLoop fuel len s h)) ->
  dqtLoop fuel len (retailed d tail s) h
  = (retailed d tail (fst (dqtLoop fuel len s h)), snd (dqtLoop fuel len s h)).
Proof.
  induction fuel as [|fuel IH]; intros len s h; cbn [dqtLoop].
  - repeat retail_step; retail_done.
  - repeat retail_step; try retail_done.
    all: apply IH.
Qed.

Lemma readQuantizationTable_retailed d tail s h :
  reaches d (fst (readQuantizationTable s h)) ->
  readQuantizationTable (retailed d tail s) h
  = (retailed d tail (fst (readQuantizationTable s h)),
     snd (readQuantizationTable s h)).
Proof.
  unfold readQuantizationTable. retail_step. apply dqtLoop_retailed.
Qed.

Lemma dhtLoop_retailed d tail fuel : forall len s h,
  reaches d (fst (dhtLoop fuel len s h)) ->
  dhtLoop fuel len (retailed d tail s) h
  = (retailed d tail (fst (dhtLoop fuel len s h)), snd (dhtLoop fuel len s h)).
Proof.
  induction fuel as [|fuel IH]; intros len s h; cbn [dhtLoop].
  - repeat retail_step; retail_done.
  - cbv zeta. repeat retail_step; try retail_done.
    all: apply IH.
Qed.

Lemma readHuffmanTable_retailed d tail s h :
  reaches d (fst (readHuffmanTable s h)) ->
  readHuffmanTable (retailed d tail s) h
  = (retailed d tail (fst (readHuffmanTable s h)), snd (readHuffmanTable s h)).
Proof.
  unfold readHuffmanTable. retail_step. apply dhtLoop_retailed.
Qed.

Lemma readAPPN_retailed d tail s h :
  reaches d (fst (readAPPN s h)) ->
  readAPPN (retailed d tail s) h
  = (retailed d tail (fst (readAPPN s h)), snd (readAPPN s h)).
Proof. unfold readAPPN. repeat retail_step; retail_done. Qed.

Lemma readComment_retailed d tail s h :
  reaches d (fst (readComment s h)) ->
  readComment (retailed d tail s) h
  = (retailed d tail (fst (readComment s h)), snd (readComment s h)).
Proof. unfold readComment. repeat retail_step; retail_done. Qed.

(** The same for the readers of a scan header, which may leave
    [colorComponents]. *)
Ltac scan_ok H Hok :=
  eapply advances_reaches; [|exact Hok];
  revert H; repeat reader_step2;
  first [ discriminate
        | intros [= <- <- <-]; cbn [fst snd]; follow
        | intros [= <- <-]; cbn [fst snd]; follow ].

Ltac scan_step :=
  match goal with
  | |- context [if ?c then _ else _] => destruct c
  | |- _ -> _ -> ?lhs = _ =>
      match lhs with
      | context [get_byte (retailed ?d ?t ?s)] =>
          let H := fresh "H" in
          let Hok := fresh "Hok" in
          let Hs := fresh "Hs" in
          intros H Hok;
          assert (Hs : reaches d (snd (get_byte s))) by scan_ok H Hok;
          rewrite (get_byte_retailed d t s Hs); revert H Hok;
          destruct (get_byte s) as [? ?]; cbn [fst snd] in Hs |- *
      | context [get16 (retailed ?d ?t ?s)] =>
          let H := fresh "H" in
          let Hok := fresh "Hok" in
          let Hs := fresh "Hs" in
          intros H Hok;
          assert (Hs : reaches d (snd (get16 s))) by scan_ok H Hok;
          rewrite (get16_retailed d t s Hs); revert H Hok;
          destruct (get16 s) as [? ?]; cbn [fst snd] in Hs |- *
      end
  end.

Ltac scan_done :=
  first [ discriminate
        | intros [= <- <- <-] _; reflexivity
        | intros [= <- <-] _; reflexivity ].

Lemma sosComponent_retailed d tail s h s' h' go :
  sosComponent s h = InBounds (s', h', go) -> reaches d s' ->
  sosComponent (retailed d tail s) h = InBounds (retailed d tail s', h', go).
Proof. unfold sosComponent. repeat scan_step; scan_done. Qed.

Lemma sosComponents_retailed d tail n : forall s h s' h' go,
  sosComponents n s h = InBounds (s', h', go) -> reaches d s' ->
  sosComponents n (retailed d tail s) h = InBounds (retailed d tail s', h', go).
Proof.
  induction n as [|n IH]; intros s h s' h' go; cbn [sosComponents].
  - intros [= <- <- <-] _. reflexivity.
  - destruct (sosComponent s h) as [[[s1 h1] go1]|] eqn:Hone; [|discriminate].
    destruct go1.
    + intros Hrest Hok.
      pose proof (proj1 (sosComponents_keeps _ _ _ _ _ _ Hrest)) as Hadv.
      rewrite (sosComponent_retailed d tail _ _ _ _ _ Hone (advances_reaches d _ _ Hadv Hok)).
      exact (IH _ _ _ _ _ Hrest Hok).
    + intros [= <- <- <-] Hok.
      rewrite (sosComponent_retailed d tail _ _ _ _ _ Hone Hok). reflexivity.
Qed.

Ltac branches :=
  repeat match goal with
         | |- context [if ?c then _ else _] => destruct c
         end.

Lemma readStartOfScan_retailed d tail s h s' h' :
  readStartOfScan s h = InBounds (s', h') -> reaches d s' ->
  readStartOfScan (retailed d tail s) h = InBounds (retailed d tail s', h').
Proof.
  unfold readStartOfScan.
  destruct (numComponents h =? 0); [intros [= <- <-] _; reflexivity|].
  pose proof (get16_retailed d tail s) as E0. pose proof (get16_advances s) as A0.
  destruct (get16 s) as [len s0]. cbn [fst snd] in E0, A0.
  destruct (clearUsed _ 0 h) as [h1|] eqn:Hclear; [|discriminate].
  pose proof (get_byte_retailed d tail s0) as E1.
  pose proof (get_byte_advances s0) as A1.
  destruct (get_byte s0) as [nc s1]. cbn [fst snd] in E1, A1.
  destruct (sosComponents _ s1 h1) as [[[s2 h2] go]|] eqn:Hcomp; [|discriminate].
  pose proof (proj1 (sosComponents_keeps _ _ _ _ _ _ Hcomp)) as A2.
  pose proof (sosComponents_retailed d tail _ _ _ _ _ _ Hcomp) as E2.
  cbn [fst snd] in A2.
  destruct go.
  - pose proof (get_byte_retailed d tail s2) as E3.
    pose proof (get_byte_advances s2) as A3.
    destruct (get_byte s2) as [ss s3]. cbn [fst snd] in E3, A3.
    pose proof (get_byte_retailed d tail s3) as E4.
    pose proof (get_byte_advances s3) as A4.
    destruct (get_byte s3) as [se s4]. cbn [fst snd] in E4, A4.
    pose proof (get_byte_retailed d tail s4) as E5.
    pose proof (get_byte_advances s4) as A5.
    destruct (get_byte s4) as [sa s5]. cbn [fst snd] in E5, A5.
    intros H Hok.
    assert (Hs : s' = s5) by (revert H; branches; intros [= <- <-]; reflexivity).
    subst s'.
    assert (H4 : reaches d s4) by exact (advances_reaches d _ _ A5 Hok).
    assert (H3 : reaches d s3) by exact (advances_reaches d _ _ A4 H4).
    assert (H2 : reaches d s2) by exact (advances_reaches d _ _ A3 H3).
    assert (H1 : reaches d s1) by exact (advances_reaches d _ _ A2 H2).
    assert (H0 : reaches d s0) by exact (advances_reaches d _ _ A1 H1).
    rewrite (E0 H0), (E1 H1), (E2 H2), (E3 H3), (E4 H4), (E5 Hok).
    revert H. branches; intros [= <-]; reflexivity.
  - intros [= <- <-] Hok.
    assert (H1 : reaches d s1) by exact (advances_reaches d _ _ A2 Hok).
    assert (H0 : reaches d s0) by exact (advances_reaches d _ _ A1 H1).
    rewrite (E0 H0), (E1 H1), (E2 Hok). reflexivity.
Qed.

(** *** The marker loop *)

Lemma nextMarker_retailed d tail s h s' last current h' :
  nextMarker (s, h) = Again s' last current h' -> reaches d s' ->
  nextMarker (retailed d tail s, h) = Again (retailed d tail s') last current h'.
Proof.
  unfold nextMarker.
  pose proof (get_byte_retailed d tail s) as E0.
  pose proof (get_byte_advances s) as A0.
  destruct (get_byte s) as [l s0]. cbn [fst snd] in E0, A0.
  pose proof (get_byte_retailed d tail s0) as E1.
  pose proof (get_byte_advances s0) as A1.
  destruct (get_byte s0) as [c s1]. cbn [fst snd] in E1, A1.
  intros [= <- <- <- <-] Hok.
  rewrite (E0 (advances_reaches d _ _ A1 Hok)), (E1 Hok). reflexivity.
Qed.

Lemma nextMarker_from d tail (reader : ifstream -> Header -> ifstream * Header)
    s h s' last current h' :
  (reaches d (fst (reader s h)) ->
   reader (retailed d tail s) h
   = (retailed d tail (fst (reader s h)), snd (reader s h))) ->
  nextMarker (reader s h) = Again s' last current h' -> reaches d s' ->
  nextMarker (reader (retailed d tail s) h)
  = Again (retailed d tail s') last current h'.
Proof.
  intros E H Hok.
  assert (Hs : reaches d (fst (reader s h))).
  { revert H. unfold nextMarker. destruct (reader s h) as [s1 h1].
    pose proof (get_byte_advances s1) as A0.
    destruct (get_byte s1) as [l s2]. cbn [fst snd] in A0 |- *.
    pose proof (get_byte_advances s2) as A1.
    destruct (get_byte s2) as [c s3]. cbn [fst snd] in A1.
    intros [= <- <- <- <-].
    exact (advances_reaches d _ _ A0 (advances_reaches d _ _ A1 Hok)). }
  rewrite (E Hs). revert H. destruct (reader s h) as [s1 h1]. cbn [fst snd].
  intros H. exact (nextMarker_retailed d tail _ _ _ _ _ _ H Hok).
Qed.

Lemma failbit_retailed d tail s : failbit (retailed d tail s) = failbit s.
Proof. reflexivity. Qed.

Lemma markerStep_again_retailed d tail s last current h s' last' current' h' :
  markerStep s last current h = Again s' last' current' h' ->
  reaches d s' ->
  markerStep (retailed d tail s) last current h
  = Again (retailed d tail s') last' current' h'.
Proof.
  unfold markerStep. rewrite failbit_retailed.
  destruct (negb (valid h)); [discriminate|].
  destruct (failbit s) eqn:Hf; [discriminate|].
  destruct (negb (last =? 255)); [discriminate|].
  destruct (current =? SOF0).
  { apply nextMarker_from, readStartOfFrame_retailed. }
  destruct (current =? DQT).
  { apply nextMarker_from, readQuantizationTable_retailed. }
  destruct (current =? DHT).
  { apply nextMarker_from, readHuffmanTable_retailed. }
  destruct (current =? SOS).
  { destruct (readStartOfScan s h) as [[s1 h1]|]; discriminate. }
  destruct (current =? DRI).
  { apply nextMarker_from, readRestartInterval_retailed. }
  destruct (in_range APP0 APP15 current).
  { apply nextMarker_from, readAPPN_retailed. }
  destruct (current =? COM).
  { apply nextMarker_from, readComment_retailed. }
  destruct (_ || _).
  { apply nextMarker_from, readComment_retailed. }
  destruct (current =? TEM).
  { apply nextMarker_retailed. }
  destruct (current =? 255).
  { pose proof (get_byte_retailed d tail s) as E.
    destruct (get_byte s) as [c1 s1]. cbn [fst snd] in E.
    intros [= <- <- <- <-] Hok. rewrite (E Hok). reflexivity. }
  branches; discriminate.
Qed.

Lemma nextMarker_again sh : exists s l c h, nextMarker sh = Again s l c h.
Proof.
  unfold nextMarker. destruct sh as [s h].
  destruct (get_byte s) as [l s0]. destruct (get_byte s0) as [c s1].
  eauto.
Qed.

Lemma markerStep_leave_retailed d tail s last current h s' h' :
  markerStep s last current h = Stop (MLeave s' h') ->
  reaches d s' ->
  markerStep (retailed d tail s) last current h
  = Stop (MLeave (retailed d tail s') h').
Proof.
  unfold markerStep. rewrite failbit_retailed.
  destruct (negb (valid h)); [intros [= <- <-] _; reflexivity|].
  destruct (failbit s) eqn:Hf; [discriminate|].
  destruct (negb (last =? 255)); [discriminate|].
  repeat match goal with
         | |- context [nextMarker ?sh] =>
             let E := fresh "E" in
             destruct (nextMarker_again sh) as (? & ? & ? & ? & E);
             rewrite E; clear E
         end.
  destruct (current =? SOF0); [discriminate|].
  destruct (current =? DQT); [discriminate|].
  destruct (current =? DHT); [discriminate|].
  destruct (current =? SOS).
  { destruct (readStartOfScan s h) as [[s1 h1]|] eqn:Hsos; [|discriminate].
    intros [= <- <-] Hok.
    rewrite (readStartOfScan_retailed d tail _ _ _ _ Hsos Hok). reflexivity. }
  branches; try discriminate.
  all: destruct (get_byte s); discriminate.
Qed.

Lemma readMarkers_retailed d tail fuel : forall s last current h s' h',
  readMarkers fuel s last current h = MLeave s' h' -> reaches d s' ->
  readMarkers fuel (retailed d tail s) last current h
  = MLeave (retailed d tail s') h'.
Proof.
  induction fuel as [|fuel IH]; intros s last current h s' h'; cbn [readMarkers];
    destruct (markerStep s last current h) as [s1 l1 c1 h1|res] eqn:Hstep;
    try discriminate.
  - intros -> Hok. rewrite (markerStep_leave_retailed d tail _ _ _ _ _ _ Hstep Hok).
    reflexivity.
  - intros Hrest Hok.
    pose proof (proj1 (readMarkers_leave _ _ _ _ _ _ _ Hrest)) as Hadv.
    rewrite (markerStep_again_retailed d tail _ _ _ _ _ _ _ _ Hstep
               (advances_reaches d _ _ Hadv Hok)).
    exact (IH _ _ _ _ _ _ Hrest Hok).
  - intros -> Hok. rewrite (markerStep_leave_retailed d tail _ _ _ _ _ _ Hstep Hok).
    reflexivity.
Qed.

(** More passes than the loop makes change nothing. *)
Lemma readMarkers_more k fuel : forall s last current h,
  readMarkers fuel s last current h <> MOutOfFuel ->
  readMarkers (fuel + k) s last current h = readMarkers fuel s last current h.
Proof.
  induction fuel as [|fuel IH]; intros s last current h.
  - cbn [readMarkers Nat.add].
    destruct k; cbn [readMarkers];
      destruct (markerStep s last current h); congruence.
  - cbn [readMarkers Nat.add].
    destruct (markerStep s last current h); [apply IH|reflexivity].
Qed.

(** The number of passes allowed to the marker loop does not matter, as
    long as it suffices. *)
Lemma readMarkers_fuel fuel fuel' s last current h :
  readMarkers fuel s last current h <> MOutOfFuel ->
  readMarkers fuel' s last current h <> MOutOfFuel ->
  readMarkers fuel' s last current h = readMarkers fuel s last current h.
Proof.
  intros H H'. destruct (Nat.le_gt_cases fuel fuel') as [Hle|Hgt].
  - replace fuel' with (fuel + (fuel' - fuel))%nat by lia.
    apply readMarkers_more. exact H.
  - replace fuel with (fuel' + (fuel - fuel'))%nat by lia.
    symmetry. apply readMarkers_more. exact H'.
Qed.

(** *** Where the marker loop leaves the file *)

(** A read that leaves the fail bit clear has taken the first pending
    byte. *)
Lemma get_byte_good s :
  failbit (snd (get_byte s)) = false ->
  exists b, pending s = b :: pending (snd (get_byte s))
            /\ fst (get_byte s) = byte_val b.
Proof.
  unfold get_byte, get. destruct s as [p f]. cbn [failbit pending].
  destruct f; [cbn; discriminate|].
  destruct p as [|b tl]; [cbn; discriminate|].
  cbn [fst snd failbit pending]. intros _. exists b.
  split; [reflexivity|apply to_byte_val].
Qed.

(** The two bytes read at the end of a pass are the two bytes of the file in
    front of the stream. *)
Lemma nextMarker_bytes bytes s res s1 l1 c1 h1 :
  (exists pre, bytes = pre ++ pending s) -> advances s (fst res) ->
  nextMarker res = Again s1 l1 c1 h1 -> failbit s1 = false ->
  exists pre b1 b2,
    bytes = pre ++ b1 :: b2 :: pending s1
    /\ l1 = byte_val b1 /\ c1 = byte_val b2.
Proof.
  intros [pre Hpre] [[mid Hmid] _]. unfold nextMarker.
  destruct res as [sr hr]. cbn [fst] in Hmid.
  pose proof (get_byte_good sr) as G1.
  pose proof (get_byte_advances sr) as A1.
  destruct (get_byte sr) as [l sr1]. cbn [fst snd] in G1, A1.
  pose proof (get_byte_good sr1) as G2.
  pose proof (get_byte_advances sr1) as A2.
  destruct (get_byte sr1) as [c sr2]. cbn [fst snd] in G2, A2.
  intros [= <- <- <- <-] Hok.
  destruct (G2 Hok) as (b2 & Hp2 & ->).
  pose proof (advances_ok _ _ A2 Hok) as Hok1.
  destruct (G1 Hok1) as (b1 & Hp1 & ->).
  exists (pre ++ mid), b1, b2.
  rewrite Hpre, Hmid, Hp1, Hp2, <- app_assoc. auto.
Qed.

Lemma markerStep_again_bytes bytes s l c h s1 l1 c1 h1 :
  (exists pre b1 b2,
     bytes = pre ++ b1 :: b2 :: pending s /\ l = byte_val b1 /\ c = byte_val b2) ->
  markerStep s l c h = Again s1 l1 c1 h1 -> failbit s1 = false ->
  exists pre b1 b2,
    bytes = pre ++ b1 :: b2 :: pending s1
    /\ l1 = byte_val b1 /\ c1 = byte_val b2.
Proof.
  intros (pre & b1 & b2 & Hb & Hl & Hc).
  assert (Hpre : exists pre', bytes = pre' ++ pending s).
  { exists (pre ++ [b1; b2]). rewrite <- app_assoc. exact Hb. }
  unfold markerStep.
  destruct (negb (valid h)); [discriminate|].
  destruct (failbit s) eqn:Hf; [discriminate|].
  destruct (Z.eqb_spec l 255) as [Hl255|_]; [cbn [negb]|discriminate].
  destruct (c =? SOF0).
  { apply (nextMarker_bytes bytes s _ _ _ _ _ Hpre).
    apply (proj1 (readStartOfFrame_keeps _ _)). }
  destruct (c =? DQT).
  { apply (nextMarker_bytes bytes s _ _ _ _ _ Hpre).
    apply (proj1 (readQuantizationTable_keeps _ _)). }
  destruct (c =? DHT).
  { apply (nextMarker_bytes bytes s _ _ _ _ _ Hpre).
    apply (proj1 (readHuffmanTable_keeps _ _)). }
  destruct (c =? SOS).
  { destruct (readStartOfScan s h) as [[sr hr]|]; discriminate. }
  destruct (c =? DRI).
  { apply (nextMarker_bytes bytes s _ _ _ _ _ Hpre).
    apply (proj1 (readRestartInterval_keeps _ _)). }
  destruct (in_range APP0 APP15 c).
  { apply (nextMarker_bytes bytes s _ _ _ _ _ Hpre).
    apply (proj1 (readAPPN_keeps _ _)). }
  destruct (c =? COM).
  { apply (nextMarker_bytes bytes s _ _ _ _ _ Hpre).
    apply (proj1 (readComment_keeps _ _)). }
  destruct (_ || _).
  { apply (nextMarker_bytes bytes s _ _ _ _ _ Hpre).
    apply (proj1 (readComment_keeps _ _)). }
  destruct (c =? TEM).
  { apply (nextMarker_bytes bytes s (s, h) _ _ _ _ Hpre). apply advances_refl. }
  destruct (Z.eqb_spec c 255) as [Hff|_].
  { pose proof (get_byte_good s) as G.
    destruct (get_byte s) as [c2 s2]. cbn [fst snd] in G.
    intros [= <- <- <- <-] Hok. destruct (G Hok) as (b3 & Hp & ->).
    exists (pre ++ [b1]), b2, b3. rewrite <- app_assoc. cbn [app].
    rewrite Hb, Hp. split; [reflexivity|]. split; [|reflexivity].
    congruence. }
  branches; discriminate.
Qed.

(** A marker loop that leaves with a valid header has just read a scan
    header, which stands in the file behind the marker FF DA. *)
Lemma markerStep_leave_bytes bytes s l c h s' h' :
  (exists pre b1 b2,
     bytes = pre ++ b1 :: b2 :: pending s /\ l = byte_val b1 /\ c = byte_val b2) ->
  markerStep s l c h = Stop (MLeave s' h') -> valid h' = true ->
  exists pre,
    bytes = pre ++ xff :: xda :: pending s
    /\ readStartOfScan s h = InBounds (s', h').
Proof.
  intros (pre & b1 & b2 & Hb & Hl & Hc).
  unfold markerStep.
  destruct (negb (valid h)) eqn:Hv.
  { intros [= <- <-] Hv'. rewrite Hv' in Hv. discriminate. }
  destruct (failbit s) eqn:Hf; [discriminate|].
  destruct (Z.eqb_spec l 255) as [Hl255|_]; [cbn [negb]|discriminate].
  repeat match goal with
         | |- context [nextMarker ?sh] =>
             let E := fresh "E" in
             destruct (nextMarker_again sh) as (? & ? & ? & ? & E);
             rewrite E; clear E
         end.
  destruct (c =? SOF0); [discriminate|].
  destruct (c =? DQT); [discriminate|].
  destruct (c =? DHT); [discriminate|].
  destruct (Z.eqb_spec c SOS) as [Hsos|_].
  { destruct (readStartOfScan s h) as [[sr hr]|] eqn:Hread; [|discriminate].
    intros [= <- <-] _. exists pre. split; [|reflexivity].
    assert (b1 = xff) by (apply byte_val_inj; rewrite <- Hl; exact Hl255).
    assert (b2 = xda) by (apply byte_val_inj; rewrite <- Hc; exact Hsos).
    subst. reflexivity. }
  branches; try discriminate.
  all: destruct (get_byte s); discriminate.
Qed.

Lemma readMarkers_at_scan bytes fuel : forall s l c h s' h',
  (exists pre b1 b2,
     bytes = pre ++ b1 :: b2 :: pending s /\ l = byte_val b1 /\ c = byte_val b2) ->
  readMarkers fuel s l c h = MLeave s' h' -> valid h' = true ->
  failbit s' = false ->
  exists pre s0 h0,
    bytes = pre ++ xff :: xda :: pending s0
    /\ readStartOfScan s0 h0 = InBounds (s', h').
Proof.
  induction fuel as [|fuel IH]; intros s l c h s' h' Hb; cbn [readMarkers];
    destruct (markerStep s l c h) as [s1 l1 c1 h1|res] eqn:Hstep;
    try discriminate.
  - intros -> Hv _.
    destruct (markerStep_leave_bytes bytes _ _ _ _ _ _ Hb Hstep Hv) as (pre & H).
    exists pre, s, h. exact H.
  - intros Hrest Hv Hok.
    pose proof (proj1 (readMarkers_leave _ _ _ _ _ _ _ Hrest)) as Hadv.
    apply (IH s1 l1 c1 h1 s' h'); try assumption.
    apply (markerStep_again_bytes bytes _ _ _ _ _ _ _ _ Hb Hstep).
    exact (advances_ok _ _ Hadv Hok).
  - intros -> Hv _.
    destruct (markerStep_leave_bytes bytes _ _ _ _ _ _ Hb Hstep Hv) as (pre & H).
    exists pre, s, h. exact H.
Qed.


(** *** The headers of a file, whatever follows them *)

Lemma get_byte_eof s : failbit (snd (get_byte s)) = true -> fst (get_byte s) = 255.
Proof.
  unfold get_byte, get. destruct (failbit s); [reflexivity|].
  destruct (pending s); [reflexivity|discriminate].
Qed.

Lemma readScanData_done_failbit fuel : forall s current data s' data',
  readScanData fuel s current data = ScanDone s' data' -> failbit s' = false.
Proof.
  induction fuel as [|fuel IH]; intros s current data s' data';
    cbn [readScanData]; [discriminate|].
  destruct (failbit s) eqn:Hf; [discriminate|].
  pose proof (get_byte_eof s) as Z0.
  destruct (get_byte s) as [c1 s1]. cbn [fst snd] in Z0.
  destruct (current =? 255); [|apply IH].
  destruct (c1 =? EOI) eqn:Heoi.
  { intros [= <- <-]. destruct (failbit s1); [|reflexivity].
    rewrite (Z0 eq_refl) in Heoi. discriminate. }
  branches; try discriminate; try apply IH.
  all: destruct (get_byte s1) as [c2 s2]; apply IH.
Qed.

Lemma readScanData_advances fuel : forall s current data s' data',
  readScanData fuel s current data = ScanDone s' data' -> advances s s'.
Proof.
  induction fuel as [|fuel IH]; intros s current data s' data';
    cbn [readScanData]; [discriminate|].
  destruct (failbit s) eqn:Hf; [discriminate|].
  pose proof (get_byte_advances s) as A0.
  destruct (get_byte s) as [c1 s1]. cbn [fst snd] in A0.
  destruct (current =? 255).
  2:{ intros H. exact (advances_trans _ _ _ A0 (IH _ _ _ _ _ H)). }
  destruct (c1 =? EOI); [intros [= <- <-]; exact A0|].
  branches; try discriminate.
  3:{ intros H. exact (advances_trans _ _ _ A0 (IH _ _ _ _ _ H)). }
  all: pose proof (get_byte_advances s1) as A1;
    destruct (get_byte s1) as [c2 s2]; cbn [fst snd] in A1;
    intros H;
    exact (advances_trans _ _ _ A0 (advances_trans _ _ _ A1 (IH _ _ _ _ _ H))).
Qed.

Lemma validateHeader_data d h :
  validateHeader (set_huffmanData d h) = set_huffmanData d (validateHeader h).
Proof.
  assert (Hc : forall n i, checkTables n i (set_huffmanData d h)
                           = set_huffmanData d (checkTables n i h)).
  { induction n as [|n IH]; intros i; cbn [checkTables]; [reflexivity|].
    change (component_at (set_huffmanData d h) i) with (component_at h i).
    unfold qtable_at, dctable_at, actable_at. cbn [set_huffmanData
      quantizationTables huffmanDCTables huffmanACTables].
    branches; try reflexivity. apply IH. }
  unfold validateHeader.
  change (numComponents (set_huffmanData d h)) with (numComponents h).
  change (component_at (set_huffmanData d h)) with (component_at h).
  branches; try reflexivity. apply Hc.
Qed.

Lemma retailed_whole pre tail tail' :
  retailed (length tail) tail' (mkStream (pre ++ tail) false)
  = mkStream (pre ++ tail') false.
Proof.
  unfold retailed. cbn [pending failbit]. rewrite length_app.
  replace (length pre + length tail - length tail)%nat with (length pre) by lia.
  rewrite take_app_length. reflexivity.
Qed.

Lemma retailed_all tail tail' :
  retailed (length tail) tail' (mkStream tail false) = mkStream tail' false.
Proof. exact (retailed_whole [] tail tail'). Qed.

(** The run of readJPG on a file that it parses to a valid header: the
    marker loop ends behind a scan header that follows the marker FF DA,
    and on every file with the same bytes up to there it ends in the same
    way, leaving the bytes [tail'] that follow to the extraction loop. *)
Lemma readJPG_headers bytes alloc h' :
  readJPG (Some bytes) alloc = Hdr h' -> valid h' = true ->
  exists pre sos tail h0 h,
    bytes = pre ++ xff :: xda :: sos ++ tail
    /\ readStartOfScan (mkStream (sos ++ tail) false) h0
       = InBounds (mkStream tail false, h)
    /\ valid h = true /\ huffmanData h = []
    /\ readJPG_tail (MLeave (mkStream tail false) h) = Hdr h'
    /\ forall tail',
         readJPG (Some (pre ++ xff :: xda :: sos ++ tail')) alloc
         = readJPG_tail (MLeave (mkStream tail' false) h).
Proof.
  unfold readJPG at 1. destruct alloc; [cbn [negb]|discriminate].
  pose proof (get_byte_good (mkStream bytes false)) as G0.
  pose proof (get_byte_advances (mkStream bytes false)) as A0.
  destruct (get_byte (mkStream bytes false)) as [l0 s0] eqn:E0.
  cbn [fst snd] in G0, A0.
  pose proof (get_byte_good s0) as G1.
  pose proof (get_byte_advances s0) as A1.
  destruct (get_byte s0) as [c0 s1] eqn:E1. cbn [fst snd] in G1, A1.
  destruct (negb (l0 =? 255) || negb (c0 =? SOI)) eqn:Hsoi.
  { intros [= <-]. discriminate. }
  pose proof (get_byte_good s1) as G2.
  pose proof (get_byte_advances s1) as A2.
  destruct (get_byte s1) as [l1 s2] eqn:E2. cbn [fst snd] in G2, A2.
  pose proof (get_byte_good s2) as G3.
  pose proof (get_byte_advances s2) as A3.
  destruct (get_byte s2) as [c1 s3] eqn:E3. cbn [fst snd] in G3, A3.
  destruct (readMarkers _ s3 l1 c1 newHeader) as [hr|sm hm|i|] eqn:Hm;
    cbn [readJPG_tail]; try discriminate.
  { intros [= ->] Hv. apply readMarkers_return in Hm. congruence. }
  destruct (valid hm) eqn:Hvm.
  2:{ intros [= <-] Hv. rewrite (validateHeader_valid _ Hv) in Hv. congruence. }
  pose proof (get_byte_advances sm) as A4.
  destruct (get_byte sm) as [c5 s5] eqn:E4. cbn [fst snd] in A4.
  destruct (readScanData _ s5 c5 (huffmanData hm)) as [dt|s6 dt|] eqn:Hscan;
    try discriminate.
  { intros [= <-]. discriminate. }
  intros Hres Hv.
  pose proof (readScanData_done_failbit _ _ _ _ _ _ Hscan) as H6.
  pose proof (readScanData_advances _ _ _ _ _ _ Hscan) as A5.
  pose proof (readMarkers_leave _ _ _ _ _ _ _ Hm) as [Am Hdata].
  assert (Hokm : failbit sm = false)
    by exact (advances_ok _ _ A4 (advances_ok _ _ A5 H6)).
  assert (Hok3 : failbit s3 = false) by exact (advances_ok _ _ Am Hokm).
  assert (Hok2 : failbit s2 = false) by exact (advances_ok _ _ A3 Hok3).
  assert (Hok1 : failbit s1 = false) by exact (advances_ok _ _ A2 Hok2).
  assert (Hok0 : failbit s0 = false) by exact (advances_ok _ _ A1 Hok1).
  destruct (G0 Hok0) as (b0 & P0 & V0). destruct (G1 Hok1) as (b1 & P1 & V1).
  destruct (G2 Hok2) as (b2 & P2 & V2). destruct (G3 Hok3) as (b3 & P3 & V3).
  cbn [pending] in P0.
  assert (Hb : exists pre x y,
             bytes = pre ++ x :: y :: pending s3
             /\ l1 = byte_val x /\ c1 = byte_val y).
  { exists [b0; b1], b2, b3. cbn [app]. rewrite P0, P1, P2, P3. auto. }
  destruct (readMarkers_at_scan bytes _ _ _ _ _ _ _ Hb Hm Hvm Hokm)
    as (pre & sr & h0 & Hsplit & Hread).
  pose proof (readStartOfScan_keeps _ _ _ _ Hread) as [[[sos Hsos] _] _].
  cbn [fst] in Hsos.
  assert (Hokr : failbit sr = false).
  { apply (advances_ok sr sm); [|exact Hokm].
    exact (proj1 (readStartOfScan_keeps _ _ _ _ Hread)). }
  exists pre, sos, (pending sm), h0, hm.
  assert (Esm : sm = mkStream (pending sm) false)
    by (destruct sm as [p f]; cbn in Hokm |- *; congruence).
  assert (Esr : sr = mkStream (sos ++ pending sm) false)
    by (destruct sr as [p f]; cbn in Hokr, Hsos |- *; congruence).
  split; [rewrite Hsplit, Hsos; reflexivity|].
  split; [rewrite <- Esr, <- Esm; exact Hread|].
  split; [exact Hvm|]. split; [exact Hdata|].
  split.
  { rewrite <- Esm. cbn [readJPG_tail]. rewrite Hvm, E4, Hscan. exact Hres. }
  intros tail'.
  assert (Hbytes : bytes = (pre ++ xff :: xda :: sos) ++ pending sm).
  { rewrite Hsplit, Hsos, <- app_assoc. reflexivity. }
  set (d := length (pending sm)).
  assert (Rm : reaches d sm) by (split; [exact Hokm|unfold d; lia]).
  assert (R3 : reaches d s3) by exact (advances_reaches d _ _ Am Rm).
  assert (R2 : reaches d s2) by exact (advances_reaches d _ _ A3 R3).
  assert (R1 : reaches d s1) by exact (advances_reaches d _ _ A2 R2).
  assert (R0 : reaches d s0) by exact (advances_reaches d _ _ A1 R1).
  unfold readJPG. cbn [negb].
  replace (pre ++ xff :: xda :: sos ++ tail')
    with ((pre ++ xff :: xda :: sos) ++ tail')
    by (rewrite <- app_assoc; reflexivity).
  rewrite <- (retailed_whole _ (pending sm) tail'). fold d. rewrite <- Hbytes.
  pose proof (get_byte_retailed d tail' (mkStream bytes false)) as X0.
  rewrite E0 in X0. cbn [fst snd] in X0. rewrite (X0 R0).
  pose proof (get_byte_retailed d tail' s0) as X1.
  rewrite E1 in X1. cbn [fst snd] in X1. rewrite (X1 R1), Hsoi.
  pose proof (get_byte_retailed d tail' s1) as X2.
  rewrite E2 in X2. cbn [fst snd] in X2. rewrite (X2 R2).
  pose proof (get_byte_retailed d tail' s2) as X3.
  rewrite E3 in X3. cbn [fst snd] in X3. rewrite (X3 R3).
  pose proof (readMarkers_retailed d tail' _ _ _ _ _ _ _ Hm Rm) as Hm'.
  rewrite (readMarkers_fuel (S (S (length (pending s3))))).
  - rewrite Hm'. pose proof (retailed_all (pending sm) tail') as Er.
    rewrite <- Esm in Er. fold d in Er. rewrite Er. reflexivity.
  - rewrite Hm'. discriminate.
  - apply readMarkers_total. unfold weight.
    destruct (failbit (retailed d tail' s3)); lia.
Qed.

(** The extraction loop on a segment of the grammar, and on bytes that do
    not begin with one. *)
Lemma extraction_segment consumed out rest h :
  Scan consumed out -> valid h = true ->
  readJPG_tail (MLeave (mkStream (consumed ++ rest) false) h)
  = Hdr (validateHeader (set_huffmanData (huffmanData h ++ out) h)).
Proof.
  intros Hscan Hv. cbn [readJPG_tail]. rewrite Hv.
  destruct consumed as [|c tl]; [destruct (Scan_nonempty _ Hscan)|].
  cbn [app]. rewrite get_byte_cons. cbn [pending].
  rewrite (readScanData_complete _ _ Hscan c (tl ++ rest) rest)
    by (try reflexivity; lia).
  reflexivity.
Qed.

Lemma extraction_no_segment tail h :
  valid h = true ->
  (forall consumed rest out, tail = consumed ++ rest -> ~ Scan consumed out) ->
  exists h2,
    readJPG_tail (MLeave (mkStream tail false) h) = Hdr h2 /\ valid h2 = false.
Proof.
  intros Hv Hno. cbn [readJPG_tail]. rewrite Hv.
  destruct tail as [|c tl].
  - rewrite get_byte_nil. cbn. eexists. split; reflexivity.
  - rewrite get_byte_cons. cbn [pending].
    destruct (readScanData _ _ _ _) as [data|s' data|] eqn:Hrun.
    + eexists. split; reflexivity.
    + destruct (readScanData_sound _ _ _ _ _ _ Hrun)
        as (consumed & out & Hsplit & _ & Hscan & _).
      destruct (Hno consumed (pending s') out Hsplit Hscan).
    + exfalso. revert Hrun. apply readScanData_total.
      unfold weight. cbn [failbit pending]. lia.
Qed.


(** A marker other than EOI, the stuffed 0x00, a restart marker or a fill
    byte, met where the segment could have ended, leaves no segment to
    find. *)
Lemma Scan_other_marker m tl l out :
  Scan l out ->
  m <> xd9 -> m <> x00 -> is_rst m = false -> m <> xff ->
  forall body, l = body ++ [xff; xd9] ->
  forall consumed rest o,
    body ++ xff :: m :: tl = consumed ++ rest -> ~ Scan consumed o.
Proof.
  intros Hscan Hd9 H00 Hrst Hff.
  induction Hscan as [|c0 tl0 out Hc0 Hs IH|tl0 out Hs IH
                      |m0 tl0 out Hm0 Hs IH|tl0 out Hs IH];
    intros body Hl consumed rest o Hsplit Hc.
  - assert (body = []) by (apply (app_inv_tail [xff; xd9]); symmetry; exact Hl).
    subst body. cbn in Hsplit.
    inversion Hc; subst; cbn in Hsplit;
      injection Hsplit; intros; subst; try congruence.
  - destruct body as [|x body]; cbn in Hl.
    + injection Hl; intros; subst; congruence.
    + injection Hl as E1 E2. symmetry in E1. subst x tl0. cbn in Hsplit.
      inversion Hc; subst; cbn in Hsplit;
        injection Hsplit; intros; subst; try congruence.
      eapply IH; eauto.
  - destruct body as [|x [|y body]]; cbn in Hl.
    + discriminate.
    + discriminate.
    + injection Hl as E1 E2 E3. symmetry in E1, E2. subst x y tl0.
      cbn in Hsplit.
      inversion Hc; subst; cbn in Hsplit;
        injection Hsplit; intros; subst; try congruence; try discriminate.
      eapply IH; eauto.
  - destruct body as [|x [|y body]]; cbn in Hl.
    + injection Hl; intros; subst. discriminate.
    + injection Hl; intros; subst. discriminate.
    + injection Hl as E1 E2 E3. symmetry in E1, E2. subst x y tl0.
      cbn in Hsplit.
      inversion Hc; subst; cbn in Hsplit;
        injection Hsplit; intros; subst; try congruence; try discriminate.
      eapply IH; eauto.
  - destruct body as [|x body]; cbn in Hl.
    + discriminate.
    + injection Hl as E1 Hl. symmetry in E1. subst x. cbn in Hsplit.
      assert (Hnext : exists X, body ++ xff :: m :: tl = xff :: X).
      { destruct body as [|y body]; cbn in Hl |- *; [eauto|].
        injection Hl as E1 _. symmetry in E1. subst y. eauto. }
      destruct Hnext as [X HX]. rewrite HX in Hsplit.
      inversion Hc; subst; cbn in Hsplit;
        injection Hsplit; intros; subst; try congruence; try discriminate.
      eapply (IH body Hl); [|eassumption]. rewrite HX. cbn. reflexivity.
Qed.

(** C5: for every file that readJPG parses to a valid header, the
    entropy-coded segment stands in the file right behind the scan header
    that follows the marker FF DA, and [huffmanData] is its payload by the
    grammar [Scan]: a byte other than 0xFF is appended as it is, a byte
    0xFF is appended exactly for each pair FF 00, restart markers
    FF D0 .. FF D7 and fill bytes FF leave nothing, and the segment ends at
    FF D9; so the bytes 0xFF of [huffmanData] are as many as the pairs
    FF 00 of the segment.  The extraction loop does this whatever the
    segment: with the same bytes up to the scan header, every segment of
    the grammar gives the same header with the payload of that segment,
    whatever follows its EOI; bytes that begin with no segment of the
    grammar give an invalid header, and so does any other marker FF xx met
    where the segment could have ended. *)
Theorem payload_unstuffed (bytes : list byte) (alloc : bool) (h' : Header) :
  readJPG (Some bytes) alloc = Hdr h' -> valid h' = true ->
  exists pre sos consumed rest h0 h,
    bytes = pre ++ xff :: xda :: sos ++ consumed ++ rest
    /\ readStartOfScan (mkStream (sos ++ consumed ++ rest) false) h0
       = InBounds (mkStream (consumed ++ rest) false, h)
    /\ h' = set_huffmanData (huffmanData h') h
    /\ Scan consumed (huffmanData h')
    /\ count_occ Z.eq_dec (huffmanData h') 255 = stuffed_pairs consumed
    /\ (forall consumed2 out2 rest2,
          Scan consumed2 out2 ->
          readJPG (Some (pre ++ xff :: xda :: sos ++ consumed2 ++ rest2)) alloc
          = Hdr (set_huffmanData out2 h'))
    /\ (forall tail,
          (forall consumed2 rest2 out2,
             tail = consumed2 ++ rest2 -> ~ Scan consumed2 out2) ->
          exists h2,
            readJPG (Some (pre ++ xff :: xda :: sos ++ tail)) alloc = Hdr h2
            /\ valid h2 = false)
    /\ (forall body out m tl,
          Scan (body ++ [xff; xd9]) out ->
          m <> xd9 -> m <> x00 -> is_rst m = false -> m <> xff ->
          exists h2,
            readJPG (Some (pre ++ xff :: xda :: sos ++ body ++ xff :: m :: tl))
              alloc = Hdr h2
            /\ valid h2 = false).
Proof.
  intros Hres Hvalid.
  destruct (readJPG_headers bytes alloc h' Hres Hvalid)
    as (pre & sos & tail & h0 & h & Hsplit & Hread & Hv & Hdata & Htail & Hall).
  destruct (extraction_unstuffed _ h h' Htail Hvalid)
    as (consumed & rest & out & Hpend & Hscan & Hout & Hcount).
  cbn [pending] in Hpend. subst tail.
  rewrite Hdata in Hout. cbn [app] in Hout.
  rewrite (extraction_segment _ _ rest h Hscan Hv), Hdata in Htail.
  cbn [app] in Htail. injection Htail as Hh'.
  assert (Hkeep : validateHeader h = h).
  { apply validateHeader_valid.
    rewrite <- Hh', validateHeader_data in Hvalid. exact Hvalid. }
  rewrite validateHeader_data, Hkeep in Hh'.
  assert (Hfail : forall tail,
             (forall consumed2 rest2 out2,
                tail = consumed2 ++ rest2 -> ~ Scan consumed2 out2) ->
             exists h2,
               readJPG (Some (pre ++ xff :: xda :: sos ++ tail)) alloc = Hdr h2
               /\ valid h2 = false).
  { intros tail Hno. rewrite Hall. exact (extraction_no_segment tail h Hv Hno). }
  exists pre, sos, consumed, rest, h0, h.
  split; [exact Hsplit|]. split; [exact Hread|].
  split; [rewrite Hout, Hh'; reflexivity|].
  split; [rewrite Hout; exact Hscan|]. split; [rewrite Hout; exact Hcount|].
  split; [|split; [exact Hfail|]].
  - intros consumed2 out2 rest2 Hscan2.
    rewrite Hall, (extraction_segment _ _ rest2 h Hscan2 Hv), Hdata.
    cbn [app]. rewrite validateHeader_data, Hkeep, <- Hh'. reflexivity.
  - intros body out2 m tl Hbody Hd9 H00 Hrst Hff. apply Hfail.
    exact (Scan_other_marker m tl _ _ Hbody Hd9 H00 Hrst Hff body eq_refl).
Qed.

Lemma payload_unstuffed_witness :
  exists pre sos consumed rest h0 h,
    stuffed_jpg = pre ++ xff :: xda :: sos ++ consumed ++ rest
    /\ readStartOfScan (mkStream (sos ++ consumed ++ rest) false) h0
       = InBounds (mkStream (consumed ++ rest) false, h)
    /\ header_of (readJPG (Some stuffed_jpg) true)
       = set_huffmanData
           (huffmanData (header_of (readJPG (Some stuffed_jpg) true))) h
    /\ Scan consumed (huffmanData (header_of (readJPG (Some stuffed_jpg) true)))
    /\ count_occ Z.eq_dec
         (huffmanData (header_of (readJPG (Some stuffed_jpg) true))) 255
       = stuffed_pairs consumed
    /\ (forall consumed2 out2 rest2,
          Scan consumed2 out2 ->
          readJPG (Some (pre ++ xff :: xda :: sos ++ consumed2 ++ rest2)) true
          = Hdr (set_huffmanData out2
                   (header_of (readJPG (Some stuffed_jpg) true))))
    /\ (forall tail,
          (forall consumed2 rest2 out2,
             tail = consumed2 ++ rest2 -> ~ Scan consumed2 out2) ->
          exists h2,
            readJPG (Some (pre ++ xff :: xda :: sos ++ tail)) true = Hdr h2
            /\ valid h2 = false)
    /\ (forall body out m tl,
          Scan (body ++ [xff; xd9]) out ->
          m <> xd9 -> m <> x00 -> is_rst m = false -> m <> xff ->
          exists h2,
            readJPG (Some (pre ++ xff :: xda :: sos ++ body ++ xff :: m :: tl))
              true = Hdr h2
            /\ valid h2 = false).
Proof.
  apply (payload_unstuffed stuffed_jpg true
           (header_of (readJPG (Some stuffed_jpg) true))).
  - vm_compute. reflexivity.
  - vm_compute. reflexivity.
Defined.

(** ** The loops of the table readers end within their fuel *)

Ltac open_reads :=
  repeat match goal with
         | |- context [let '(_, _) := ?e in _] => destruct e as [? ?]
         | |- context [if ?c then _ else _] => destruct c
         end.

Lemma dqtLoop_fuel fuel :
  forall fuel' len s h,
    len <= Z.of_nat fuel -> (fuel <= fuel')%nat ->
    dqtLoop fuel' len s h = dqtLoop fuel len s h.
Proof.
  induction fuel as [|fuel IH]; intros fuel' len s h Hlen Hle.
  - destruct fuel'; cbn [dqtLoop]; destruct (Z.leb_spec len 0);
      try reflexivity; lia.
  - destruct fuel' as [|fuel']; [lia|]. cbn [dqtLoop].
    destruct (Z.leb_spec len 0); [reflexivity|].
    open_reads; try reflexivity; apply IH; lia.
Qed.

Lemma dhtOffsets_total k : forall total s,
  0 <= total -> 0 <= snd (fst (dhtOffsets k total s)).
Proof.
  induction k as [|k IH]; intros total s Ht; cbn; [exact Ht|].
  destruct (get s) as [v s1].
  specialize (IH (to_uint (total + v)) s1).
  destruct (dhtOffsets k (to_uint (total + v)) s1) as [[rest t'] s2].
  cbn in *. apply IH. unfold to_uint. apply Z.mod_pos_bound. lia.
Qed.

Lemma dhtLoop_fuel fuel :
  forall fuel' len s h,
    Z.of_nat fuel < 2147483648 ->
    len <= Z.of_nat fuel -> (fuel <= fuel')%nat ->
    dhtLoop fuel' len s h = dhtLoop fuel len s h.
Proof.
  induction fuel as [|fuel IH]; intros fuel' len s h Hsmall Hlen Hle.
  - destruct fuel'; cbn [dhtLoop]; destruct (Z.leb_spec len 0);
      try reflexivity; lia.
  - destruct fuel' as [|fuel']; [lia|]. cbn [dhtLoop].
    destruct (Z.leb_spec len 0); [reflexivity|].
    destruct (get_byte s) as [tableInfo s1].
    destruct (3 <? Z.land tableInfo 15); [reflexivity|].
    pose proof (dhtOffsets_total 16 0 s1 ltac:(lia)) as Htotal.
    destruct (dhtOffsets 16 0 s1) as [[offs allSymbols] s2]. cbn in Htotal.
    destruct (Z.ltb_spec 162 allSymbols); [reflexivity|].
    destruct (get_many to_byte (Z.to_nat allSymbols) s2) as [syms s3].
    apply IH; [lia| |lia].
    rewrite to_int_small; lia.
Qed.

Lemma get16_range s : -257 <= fst (get16 s) <= 65535.
Proof.
  assert (Hget : forall s0, -1 <= fst (get s0) <= 255).
  { intros s0. unfold get. destruct (failbit s0); [cbn; lia|].
    destruct (pending s0) as [|c p]; cbn; [lia|].
    pose proof (byte_val_range c). lia. }
  unfold get16. pose proof (Hget s) as H1. destruct (get s) as [hi s1].
  pose proof (Hget s1) as H2. destruct (get s1) as [lo s2].
  cbn in *. rewrite Z.shiftl_mul_pow2 by lia. change (2 ^ 8) with 256. lia.
Qed.

(** The fuel readQuantizationTable and readHuffmanTable give their loops is
    enough: more fuel gives the same result. *)
Lemma table_readers_fuel s h (k : nat) :
  readQuantizationTable s h
  = (let '(len, s) := get16 s in dqtLoop (Z.to_nat (len - 2) + k) (len - 2) s h)
  /\ readHuffmanTable s h
     = (let '(len, s) := get16 s in dhtLoop (Z.to_nat (len - 2) + k) (len - 2) s h).
Proof.
  unfold readQuantizationTable, readHuffmanTable.
  pose proof (get16_range s) as Hr. destruct (get16 s) as [len s1]. cbn in Hr.
  split; symmetry.
  - apply dqtLoop_fuel; lia.
  - apply dhtLoop_fuel; lia.
Qed.

(** * Further properties *)

(** ** Files that are refused at once *)

Lemma get_byte_range s : 0 <= fst (get_byte s) < 256.
Proof.
  unfold get_byte. destruct (get s) as [v s1]. cbn. unfold to_byte.
  apply Z.mod_pos_bound. lia.
Qed.

(** X1: a file that does not begin with the two bytes FF D8 (an empty file
    and a file of one byte among them) gives the fresh header with [valid]
    false; nothing of the file is parsed. *)
Theorem readJPG_requires_SOI (bytes : list byte) :
  (forall rest, bytes <> xff :: xd8 :: rest) ->
  readJPG (Some bytes) true = Hdr (invalid newHeader).
Proof.
  intros Hstart. unfold readJPG. cbn [negb].
  destruct bytes as [|c0 [|c1 rest]].
  - reflexivity.
  - rewrite get_byte_cons, get_byte_nil.
    change (255 =? SOI) with false. rewrite orb_true_r. reflexivity.
  - rewrite !get_byte_cons.
    destruct (Z.eqb_spec (byte_val c0) 255) as [E0|_]; [|reflexivity].
    destruct (Z.eqb_spec (byte_val c1) SOI) as [E1|_]; [|reflexivity].
    apply (byte_val_inj c0 xff) in E0. apply (byte_val_inj c1 xd8) in E1.
    subst. destruct (Hstart rest). reflexivity.
Qed.

Lemma readJPG_requires_SOI_witness :
  readJPG (Some [xff; xd9; x00]) true = Hdr (invalid newHeader).
Proof.
  apply (readJPG_requires_SOI [xff; xd9; x00]).
  intros rest H. discriminate H.
Defined.

Lemma unhandled_step s c h :
  valid h = true -> failbit s = false -> handled_marker c = false ->
  markerStep s 255 c h = Stop (MReturn (invalid h)).
Proof.
  intros Hv Hf Hm. unfold handled_marker in Hm.
  repeat (apply orb_false_iff in Hm as [Hm ?]).
  unfold markerStep. rewrite Hv, Hf. cbn [negb].
  change (255 =? 255) with true. cbn [negb].
  repeat match goal with
         | H : ?c = false |- context [if ?c then _ else _] => rewrite H
         | H : ?a = false |- context [?a || _] => rewrite H; cbn [orb]
         end.
  repeat (match goal with |- context [if ?c then _ else _] => destruct c end);
    reflexivity.
Qed.

(** readJPG seen from a pass of its marker loop: the passes left are at
    least one. *)
Lemma readJPG_from_pass rest n s last current h :
  markerPasses n (entryStream rest) (entryLast rest) (entryCurrent rest) newHeader
  = Some (s, last, current, h) ->
  failbit s = false ->
  exists fuel,
    readJPG (Some (xff :: xd8 :: rest)) true
    = readJPG_tail (readMarkers (S fuel) s last current h).
Proof.
  intros Hpasses Hfail.
  apply markerPasses_spec in Hpasses as (_ & _ & Hw & Hrun).
  rewrite readJPG_entry.
  assert (Hs : (1 <= weight s)%nat) by (unfold weight; rewrite Hfail; lia).
  assert (Hw0 : (weight (entryStream rest)
                 <= S (length (pending (entryStream rest))))%nat).
  { unfold weight. destruct (failbit (entryStream rest)); lia. }
  exists (S (length (pending (entryStream rest))) - n)%nat.
  replace (S (S (length (pending (entryStream rest)))))
    with (n + S (S (length (pending (entryStream rest))) - n))%nat by lia.
  rewrite Hrun. reflexivity.
Qed.

(** X2: when the marker loop of readJPG, after any number of passes, meets
    a marker it has no reader for (a second SOI, EOI, DAC, the frame
    markers SOF1 .. SOF15 other than DHT, a restart marker, or any other
    code), readJPG returns at once: the header is the one the loop had,
    with [valid] false. *)
Theorem unhandled_marker_fatal (rest : list byte) (n : nat) (s : ifstream)
    (c : Z) (h : Header) :
  markerPasses n (entryStream rest) (entryLast rest) (entryCurrent rest) newHeader
  = Some (s, 255, c, h) ->
  valid h = true -> failbit s = false -> handled_marker c = false ->
  readJPG (Some (xff :: xd8 :: rest)) true = Hdr (invalid h).
Proof.
  intros Hpasses Hv Hf Hm.
  destruct (readJPG_from_pass _ _ _ _ _ _ Hpasses Hf) as [fuel ->].
  cbn [readMarkers]. rewrite (unhandled_step s c h Hv Hf Hm). reflexivity.
Qed.

(** A progressive file: the first marker after SOI is SOF2. *)
Lemma unhandled_marker_fatal_witness :
  handled_marker 194 = false
  /\ handled_marker SOI = false /\ handled_marker EOI = false
  /\ handled_marker DAC = false /\ handled_marker RST0 = false
  /\ readJPG (Some (xff :: xd8 :: [xff; xc2; x00; x0b; x08])) true
     = Hdr (invalid newHeader).
Proof.
  repeat (split; [reflexivity|]).
  apply (unhandled_marker_fatal [xff; xc2; x00; x0b; x08] 0
           (entryStream [xff; xc2; x00; x0b; x08]) 194 newHeader);
    reflexivity.
Defined.

(** ** What the marker loop keeps true of the header *)

Ltac hsimpl :=
  cbn [alter_component invalid set_valid set_colorComponents set_zeroBased
       set_quantizationTables set_huffmanDCTables set_huffmanACTables
       set_frameType set_height set_width set_numComponents set_selection
       set_restartInterval set_huffmanData
       colorComponents numComponents frameType height width valid zeroBased
       startOfSelection endOfSelection successiveApproximationHigh
       successiveApproximationLow fst snd] in *.

Lemma frame_kept_refl h : frame_kept h h.
Proof. unfold frame_kept. tauto. Qed.

Lemma frame_kept_trans h1 h2 h3 :
  frame_kept h1 h2 -> frame_kept h2 h3 -> frame_kept h1 h3.
Proof.
  unfold frame_kept.
  intros (A1 & A2 & A3 & A4 & A5 & A6 & A7) (B1 & B2 & B3 & B4 & B5 & B6 & B7).
  repeat split; try congruence; intuition.
Qed.

Lemma frame_kept_inv h h' : header_inv h -> frame_kept h h' -> header_inv h'.
Proof.
  unfold frame_kept, header_inv.
  intros (I1 & I2 & I3 & I4) (A1 & A2 & A3 & A4 & A5 & A6 & A7).
  rewrite A1, A2, A3, A4, A5. repeat split; intuition.
Qed.

Lemma frame_kept_invalid h : frame_kept h (invalid h).
Proof. unfold frame_kept. hsimpl. repeat split; discriminate. Qed.

Ltac kept_done :=
  solve [ unfold frame_kept; hsimpl; repeat split; (discriminate || tauto) ].

Lemma dqtLoop_kept fuel : forall len s h, frame_kept h (snd (dqtLoop fuel len s h)).
Proof.
  induction fuel as [|fuel IH]; intros len s h; cbn [dqtLoop].
  - repeat reader_step; kept_done.
  - repeat reader_step; try kept_done;
      (eapply frame_kept_trans; [|apply IH]; kept_done).
Qed.

Lemma readQuantizationTable_kept s h :
  frame_kept h (snd (readQuantizationTable s h)).
Proof. unfold readQuantizationTable. reader_step. apply dqtLoop_kept. Qed.

Lemma dhtLoop_kept fuel : forall len s h, frame_kept h (snd (dhtLoop fuel len s h)).
Proof.
  induction fuel as [|fuel IH]; intros len s h; cbn [dhtLoop].
  - repeat reader_step; kept_done.
  - repeat reader_step; try kept_done;
      (eapply frame_kept_trans; [|apply IH]; kept_done).
Qed.

Lemma readHuffmanTable_kept s h : frame_kept h (snd (readHuffmanTable s h)).
Proof. unfold readHuffmanTable. reader_step. apply dhtLoop_kept. Qed.

Lemma readRestartInterval_kept s h :
  frame_kept h (snd (readRestartInterval s h)).
Proof. unfold readRestartInterval. repeat reader_step; kept_done. Qed.

Lemma readAPPN_kept s h : frame_kept h (snd (readAPPN s h)).
Proof. unfold readAPPN. reader_step. kept_done. Qed.

Lemma readComment_kept s h : frame_kept h (snd (readComment s h)).
Proof. unfold readComment. reader_step. kept_done. Qed.

Lemma count_used_le l : (count_used l <= length l)%nat.
Proof. unfold count_used. apply List.filter_length_le. Qed.

Lemma count_used_alter (f : ColorComponent -> ColorComponent) l :
  (forall c, used (f c) = true) ->
  forall idx, (idx < length l)%nat -> used (nth idx l newComponent) = false ->
  count_used (alter f idx l) = S (count_used l).
Proof.
  intros Hf. unfold count_used.
  induction l as [|a l IH]; intros idx Hlen Hu; [cbn in Hlen; lia|].
  destruct idx as [|idx]; cbn in Hu, Hlen |- *.
  - rewrite Hf, Hu. reflexivity.
  - destruct (used a); cbn; rewrite (IH idx) by (assumption || lia); reflexivity.
Qed.

Lemma sofComponent_inv s h s' h' go :
  sofComponent s h = (s', h', go) ->
  length (colorComponents h) = 3%nat ->
  length (colorComponents h') = 3%nat
  /\ numComponents h' = numComponents h /\ frameType h' = frameType h
  /\ height h' = height h /\ width h' = width h
  /\ (go = false -> valid h' = false)
  /\ (go = true ->
      valid h' = valid h
      /\ count_used (colorComponents h') = S (count_used (colorComponents h))
      /\ (Forall ids_ok (colorComponents h) ->
          Forall ids_ok (colorComponents h'))).
Proof.
  unfold sofComponent. intros Hrun Hlen.
  destruct (get_byte s) as [cid s1].
  set (h0 := if cid =? 0 then set_zeroBased true h else h) in Hrun.
  assert (H0 : colorComponents h0 = colorComponents h
               /\ numComponents h0 = numComponents h
               /\ frameType h0 = frameType h /\ height h0 = height h
               /\ width h0 = width h /\ valid h0 = valid h)
    by (subst h0; destruct (cid =? 0); repeat split).
  destruct H0 as (C0 & N0 & F0 & Hh0 & W0 & V0).
  rewrite <- C0, <- N0, <- F0, <- Hh0, <- W0, <- V0. rewrite <- C0 in Hlen.
  clearbody h0. clear C0 N0 F0 Hh0 W0 V0 h.
  set (id := if zeroBased h0 then to_byte (cid + 1) else cid) in Hrun.
  clearbody id.
  destruct ((id =? 4) || (id =? 5));
    [injection Hrun as <- <- <-; hsimpl; repeat split; (discriminate || assumption)|].
  destruct ((id =? 0) || (3 <? id)) eqn:Hid;
    [injection Hrun as <- <- <-; hsimpl; repeat split; (discriminate || assumption)|].
  apply orb_false_iff in Hid as [Hid0 Hid3].
  apply Z.eqb_neq in Hid0. apply Z.ltb_ge in Hid3.
  destruct (used (component_at h0 (Z.to_nat (id - 1)))) eqn:Hused;
    [injection Hrun as <- <- <-; hsimpl; repeat split; (discriminate || assumption)|].
  destruct (get_byte s1) as [sf s2].
  pose proof (get_byte_range s2) as Hq.
  destruct (get_byte s2) as [q s3]. cbn [fst] in Hq.
  destruct (3 <? q) eqn:Hq3; injection Hrun as <- <- <-; hsimpl;
    rewrite ?length_alter; repeat split;
    try (discriminate || assumption || reflexivity).
  all: apply Z.ltb_ge in Hq3; rewrite !list_alter_alter_eq.
  - apply count_used_alter; [reflexivity|lia|exact Hused].
  - intros F. apply Forall_alter; [exact F|].
    intros c _ (Hc1 & Hc2 & Hc3). unfold ids_ok. cbn. repeat split; lia.
Qed.

Lemma sofComponents_inv n : forall s h s' h' go,
  sofComponents n s h = (s', h', go) ->
  length (colorComponents h) = 3%nat ->
  length (colorComponents h') = 3%nat
  /\ numComponents h' = numComponents h /\ frameType h' = frameType h
  /\ height h' = height h /\ width h' = width h
  /\ (go = false -> valid h' = false)
  /\ (go = true ->
      valid h' = valid h
      /\ (count_used (colorComponents h') = n + count_used (colorComponents h))%nat
      /\ (Forall ids_ok (colorComponents h) ->
          Forall ids_ok (colorComponents h'))).
Proof.
  induction n as [|n IH]; intros s h s' h' go; cbn [sofComponents].
  - intros [= <- <- <-] Hlen.
    repeat split; (discriminate || assumption || reflexivity || tauto).
  - destruct (sofComponent s h) as [[s1 h1] go1] eqn:Hone. intros Hrun Hlen.
    destruct (sofComponent_inv _ _ _ _ _ Hone Hlen)
      as (L1 & N1 & F1 & H1 & W1 & Bad1 & Good1).
    destruct go1.
    + destruct (IH _ _ _ _ _ Hrun L1) as (L2 & N2 & F2 & H2 & W2 & Bad2 & Good2).
      destruct (Good1 eq_refl) as (V1 & C1 & I1).
      do 5 (split; [congruence|]). split; [exact Bad2|].
      intros G. destruct (Good2 G) as (V2 & C2 & I2).
      split; [congruence|]. split; [lia|]. intros F. apply I2, I1, F.
    + injection Hrun as <- <- <-.
      do 5 (split; [congruence|]). split; [exact Bad1|discriminate].
Qed.

Lemma get_failed s : failbit s = true -> get s = (-1, s).
Proof. intros H. unfold get. rewrite H. reflexivity. Qed.

(** A read that leaves the fail bit clear has returned a byte of the file,
    from a stream whose fail bit was clear. *)
Lemma get_good s :
  failbit (snd (get s)) = false ->
  0 <= fst (get s) <= 255 /\ failbit s = false.
Proof.
  unfold get. destruct (failbit s) eqn:Hf; cbn [fst snd]; [congruence|].
  destruct (pending s) as [|c tl]; cbn [fst snd failbit]; [discriminate|].
  intros _. pose proof (byte_val_range c). split; [lia|reflexivity].
Qed.

Lemma get_byte_failed s : failbit s = true -> fst (get_byte s) = 255.
Proof.
  intros H. unfold get_byte. rewrite (get_failed s H). reflexivity.
Qed.

Lemma get16_good s :
  failbit (snd (get16 s)) = false ->
  0 <= fst (get16 s) <= 65535 /\ failbit s = false.
Proof.
  unfold get16.
  pose proof (get_good s) as H1. destruct (get s) as [hi s1].
  pose proof (get_good s1) as H2. destruct (get s1) as [lo s2].
  cbn [fst snd] in *. intros Hf.
  destruct (H2 Hf) as [Hlo Hf1]. destruct (H1 Hf1) as [Hhi Hf0].
  rewrite Z.shiftl_mul_pow2 by lia. change (2 ^ 8) with 256.
  split; [lia|exact Hf0].
Qed.

Lemma readStartOfFrame_inv s h :
  header_inv h -> header_inv (snd (readStartOfFrame s (set_frameType SOF0 h))).
Proof.
  intros (L & N & D & V). unfold readStartOfFrame. hsimpl.
  destruct (Z.eqb_spec (numComponents h) 0) as [Hn0|Hn0]; cbn [negb].
  2:{ unfold header_inv. hsimpl. repeat split; try (discriminate || tauto). }
  destruct (get16 s) as [len s1]. destruct (get_byte s1) as [prec s2].
  destruct (negb (prec =? 8)).
  { unfold header_inv. hsimpl.
    repeat split; try (discriminate || tauto || lia). }
  pose proof (get16_good s2) as Hhh. destruct (get16 s2) as [hh s3].
  pose proof (get16_good s3) as Hww. destruct (get16 s3) as [ww s4].
  cbn [fst snd] in Hhh, Hww. hsimpl.
  destruct ((to_uint hh =? 0) || (to_uint ww =? 0)) eqn:Hdim.
  { unfold header_inv. hsimpl.
    repeat split; try (discriminate || tauto || lia). }
  apply orb_false_iff in Hdim as [Hh Hw].
  apply Z.eqb_neq in Hh, Hw.
  assert (Hhpos : 0 < to_uint hh)
    by (unfold to_uint in *; pose proof (Z.mod_pos_bound hh 4294967296); lia).
  assert (Hwpos : 0 < to_uint ww)
    by (unfold to_uint in *; pose proof (Z.mod_pos_bound ww 4294967296); lia).
  pose proof (get_byte_range s4) as Hnc.
  pose proof (get_byte_failed s4) as Hfail.
  destruct (get_byte s4) as [nc s5]. cbn [fst] in Hnc, Hfail.
  assert (Hsmall : nc <= 3 -> to_uint hh <= 65535 /\ to_uint ww <= 65535).
  { intros Hnc3. destruct (failbit s4) eqn:Hf4; [specialize (Hfail eq_refl); lia|].
    destruct (Hww eq_refl) as [Hwr Hf3]. destruct (Hhh Hf3) as [Hhr _].
    unfold to_uint. rewrite !Z.mod_small by lia. lia. }
  destruct (nc =? 4).
  { unfold header_inv. hsimpl. repeat split; try (discriminate || tauto || lia). }
  destruct (nc =? 0).
  { unfold header_inv. hsimpl. repeat split; try (discriminate || tauto || lia). }
  match goal with
  | |- context [sofComponents ?n ?s ?h] =>
      destruct (sofComponents n s h) as [[s6 h6] go] eqn:Hrun
  end.
  apply sofComponents_inv in Hrun; [|hsimpl; exact L]. hsimpl.
  destruct Hrun as (L6 & N6 & F6 & H6 & W6 & Bad & Good).
  assert (Hframe : numComponents h6 <> 0 ->
                   frameType h6 = SOF0 /\ 0 < height h6 /\ 0 < width h6)
    by (intros _; repeat split; congruence).
  destruct go; cbn [negb snd].
  - destruct (Good eq_refl) as (V6 & C6 & I6).
    pose proof (count_used_le (colorComponents h6)) as Hle.
    assert (Hvalid : valid h6 = true ->
                     numComponents h6 <= 3 /\ Forall ids_ok (colorComponents h6)
                     /\ (numComponents h6 <> 0 ->
                         height h6 <= 65535 /\ width h6 <= 65535)).
    { intros Hv. rewrite V6 in Hv.
      assert (Hn3 : nc <= 3) by lia.
      split; [lia|]. split; [apply I6, V, Hv|].
      intros _. rewrite H6, W6. apply Hsmall, Hn3. }
    destruct (negb _); unfold header_inv; hsimpl;
      repeat split; try (discriminate || tauto || lia).
  - unfold header_inv. rewrite (Bad eq_refl).
    repeat split; try (discriminate || tauto || lia).
Qed.

Lemma clearUsed_kept n : forall i h,
  (i + n <= length (colorComponents h))%nat -> length (colorComponents h) = 3%nat ->
  exists h', clearUsed n i h = InBounds h'
             /\ frame_kept h h' /\ valid h' = valid h.
Proof.
  induction n as [|n IH]; intros i h Hin Hlen; cbn [clearUsed].
  - exists h. split; [reflexivity|]. split; [apply frame_kept_refl|reflexivity].
  - destruct (Nat.leb_spec 3 i) as [Hi|Hi]; [lia|].
    destruct (IH (S i) (alter_component (with_used false) i h))
      as (h' & Hrun & K & Hv).
    + hsimpl. rewrite length_alter. lia.
    + hsimpl. rewrite length_alter. exact Hlen.
    + exists h'. split; [exact Hrun|]. split; [|exact Hv].
      eapply frame_kept_trans; [|exact K].
      unfold frame_kept. hsimpl. rewrite length_alter.
      repeat split; try tauto.
      intros F. apply Forall_alter; [exact F|]. intros c _ Hc. exact Hc.
Qed.

Lemma sosComponent_inv s h :
  length (colorComponents h) = 3%nat -> numComponents h <= 3 ->
  match sosComponent s h with
  | OutOfBounds idx => idx = -1
  | InBounds (s', h', go) =>
      frame_kept h h' /\ (go = false -> valid h' = false)
      /\ (go = true -> valid h' = valid h)
  end.
Proof.
  intros Hlen Hn. unfold sosComponent.
  pose proof (get_byte_range s) as Hc.
  destruct (get_byte s) as [cid s1]. cbn [fst] in Hc.
  set (id := if zeroBased h then to_byte (cid + 1) else cid).
  assert (Hid : 0 <= id).
  { subst id. destruct (zeroBased h); [|lia]. unfold to_byte.
    apply Z.mod_pos_bound. lia. }
  clearbody id.
  destruct (Z.ltb_spec (numComponents h) id) as [Hbig|Hsmall].
  { split; [apply frame_kept_invalid|]. split; [reflexivity|discriminate]. }
  destruct ((id - 1 <? 0) || (3 <=? id - 1)) eqn:Hidx.
  { apply orb_true_iff in Hidx as [H|H]; [apply Z.ltb_lt in H|apply Z.leb_le in H]; lia. }
  destruct (used (component_at h (Z.to_nat (id - 1)))).
  { split; [apply frame_kept_invalid|]. split; [reflexivity|discriminate]. }
  pose proof (get_byte_range s1) as Ht.
  destruct (get_byte s1) as [t s2]. cbn [fst] in Ht.
  assert (Hdc : 0 <= Z.shiftr t 4) by (apply Z.shiftr_nonneg; lia).
  assert (Hac : 0 <= Z.land t 15) by (apply Z.land_nonneg; lia).
  destruct (Z.ltb_spec 3 (Z.shiftr t 4)) as [Hd|Hd].
  { split; [|split; [reflexivity|discriminate]].
    unfold frame_kept. hsimpl. rewrite !length_alter.
    repeat split; discriminate. }
  destruct (Z.ltb_spec 3 (Z.land t 15)) as [Ha|Ha].
  { split; [|split; [reflexivity|discriminate]].
    unfold frame_kept. hsimpl. rewrite !length_alter.
    repeat split; discriminate. }
  split; [|split; [discriminate|reflexivity]].
  unfold frame_kept. hsimpl. rewrite !length_alter.
  repeat split; try tauto.
  intros F. rewrite list_alter_alter_eq.
  apply Forall_alter; [exact F|].
  intros c _ (Hc1 & Hc2 & Hc3). unfold ids_ok. cbn. repeat split; lia.
Qed.

Lemma sosComponents_inv n : forall s h,
  length (colorComponents h) = 3%nat -> numComponents h <= 3 ->
  match sosComponents n s h with
  | OutOfBounds idx => idx = -1
  | InBounds (s', h', go) =>
      frame_kept h h' /\ (go = false -> valid h' = false)
      /\ (go = true -> valid h' = valid h)
  end.
Proof.
  induction n as [|n IH]; intros s h Hlen Hn; cbn [sosComponents].
  - split; [apply frame_kept_refl|]. split; [discriminate|reflexivity].
  - pose proof (sosComponent_inv s h Hlen Hn) as Hone.
    destruct (sosComponent s h) as [[[s1 h1] go1]|idx]; [|exact Hone].
    destruct Hone as (K1 & Bad1 & Good1).
    destruct go1; [|split; [exact K1|split; [exact Bad1|discriminate]]].
    assert (Hlen1 : length (colorComponents h1) = 3%nat)
      by (destruct K1 as (-> & _); exact Hlen).
    assert (Hn1 : numComponents h1 <= 3)
      by (destruct K1 as (_ & -> & _); exact Hn).
    specialize (IH s1 h1 Hlen1 Hn1).
    destruct (sosComponents n s1 h1) as [[[s2 h2] go2]|idx]; [|exact IH].
    destruct IH as (K2 & Bad2 & Good2).
    split; [exact (frame_kept_trans _ _ _ K1 K2)|].
    split; [exact Bad2|]. intros G. rewrite (Good2 G). apply Good1. reflexivity.
Qed.

Lemma readStartOfScan_inv s h :
  header_inv h -> valid h = true ->
  match readStartOfScan s h with
  | OutOfBounds idx => idx = -1
  | InBounds (s', h') =>
      frame_kept h h'
      /\ (valid h' = true ->
          numComponents h <> 0
          /\ startOfSelection h' = 0 /\ endOfSelection h' = 63
          /\ successiveApproximationHigh h' = 0
          /\ successiveApproximationLow h' = 0)
  end.
Proof.
  intros (L & N & D & V) Hv. destruct (V Hv) as [N3 _].
  unfold readStartOfScan.
  destruct (Z.eqb_spec (numComponents h) 0) as [Hn0|Hn0].
  { split; [apply frame_kept_invalid|hsimpl; discriminate]. }
  destruct (get16 s) as [len s1].
  destruct (clearUsed_kept (Z.to_nat (numComponents h)) 0 h)
    as (h1 & -> & K1 & V1); [lia|exact L|].
  destruct (get_byte s1) as [n s2].
  assert (L1 : length (colorComponents h1) = 3%nat)
    by (destruct K1 as (-> & _); exact L).
  assert (N1 : numComponents h1 <= 3)
    by (destruct K1 as (_ & -> & _); exact N3).
  pose proof (sosComponents_inv (Z.to_nat n) s2 h1 L1 N1) as Hc.
  destruct (sosComponents (Z.to_nat n) s2 h1) as [[[s3 h3] go]|idx]; [|exact Hc].
  destruct Hc as (K3 & Bad & Good).
  pose proof (frame_kept_trans _ _ _ K1 K3) as K.
  destruct go.
  2:{ split; [exact K|]. rewrite (Bad eq_refl). discriminate. }
  destruct (get_byte s3) as [ss s4]. destruct (get_byte s4) as [se s5].
  destruct (get_byte s5) as [sa s6]. hsimpl.
  assert (Ksel : forall a b c d, frame_kept h (set_selection a b c d h3)).
  { intros a b c d. eapply frame_kept_trans; [exact K|]. kept_done. }
  assert (Kinv : forall a b c d, frame_kept h (invalid (set_selection a b c d h3))).
  { intros a b c d. eapply frame_kept_trans; [exact K|]. kept_done. }
  destruct (Z.eqb_spec ss 0) as [Hss|Hss]; cbn [negb orb];
    [|split; [apply Kinv|hsimpl; discriminate]].
  destruct (Z.eqb_spec se 63) as [Hse|Hse]; cbn [negb orb];
    [|split; [apply Kinv|hsimpl; discriminate]].
  destruct (Z.eqb_spec (Z.shiftr sa 4) 0) as [Hah|Hah]; cbn [negb orb];
    [|split; [apply Kinv|hsimpl; discriminate]].
  destruct (Z.eqb_spec (Z.land sa 15) 0) as [Hal|Hal]; cbn [negb orb];
    [|split; [apply Kinv|hsimpl; discriminate]].
  destruct (negb _); [split; [apply Kinv|hsimpl; discriminate]|].
  split; [apply Ksel|]. intros _. hsimpl. tauto.
Qed.

Lemma nextMarker_header sh : exists s last current,
  nextMarker sh = Again s last current (snd sh).
Proof.
  destruct sh as [s h]. unfold nextMarker.
  destruct (get_byte s) as [l s1]. destruct (get_byte s1) as [c s2].
  exists s2, l, c. reflexivity.
Qed.

(** A pass of the marker loop keeps [header_inv]; the header it leaves the
    loop with after SOS has the selection the decoder supports, and the
    only index outside [colorComponents] it can address is -1. *)
Lemma markerStep_inv s last current h :
  header_inv h ->
  match markerStep s last current h with
  | Again _ _ _ h' => header_inv h'
  | Stop (MLeave _ h') =>
      header_inv h'
      /\ (valid h' = true ->
          numComponents h' <> 0
          /\ startOfSelection h' = 0 /\ endOfSelection h' = 63
          /\ successiveApproximationHigh h' = 0
          /\ successiveApproximationLow h' = 0)
  | Stop (MFault idx) => idx = -1
  | Stop _ => True
  end.
Proof.
  intros I. unfold markerStep.
  assert (Hnext : forall sh, frame_kept h (snd sh) ->
            match nextMarker sh with
            | Again _ _ _ h' => header_inv h'
            | Stop (MLeave _ h') =>
                header_inv h'
                /\ (valid h' = true ->
                    numComponents h' <> 0
                    /\ startOfSelection h' = 0 /\ endOfSelection h' = 63
                    /\ successiveApproximationHigh h' = 0
                    /\ successiveApproximationLow h' = 0)
            | Stop (MFault idx) => idx = -1
            | Stop _ => True
            end).
  { intros sh K. destruct (nextMarker_header sh) as (s' & l & c & ->).
    exact (frame_kept_inv _ _ I K). }
  destruct (valid h) eqn:Hv; cbn [negb];
    [|split; [exact I|intros Hv'; congruence]].
  destruct (failbit s); [exact Logic.I|].
  destruct (negb (last =? 255)); [exact Logic.I|].
  destruct (current =? SOF0).
  { destruct (nextMarker_header (readStartOfFrame s (set_frameType SOF0 h)))
      as (s' & l & c & ->). apply readStartOfFrame_inv, I. }
  destruct (current =? DQT); [apply Hnext, readQuantizationTable_kept|].
  destruct (current =? DHT); [apply Hnext, readHuffmanTable_kept|].
  destruct (current =? SOS).
  { pose proof (readStartOfScan_inv s h I Hv) as Hsos.
    destruct (readStartOfScan s h) as [[s' h']|idx]; [|exact Hsos].
    destruct Hsos as [K Hsel]. split; [exact (frame_kept_inv _ _ I K)|].
    intros Hv'. destruct K as (_ & -> & _). apply Hsel, Hv'. }
  destruct (current =? DRI); [apply Hnext, readRestartInterval_kept|].
  destruct (in_range APP0 APP15 current); [apply Hnext, readAPPN_kept|].
  destruct (current =? COM); [apply Hnext, readComment_kept|].
  destruct (_ || _); [apply Hnext, readComment_kept|].
  destruct (current =? TEM); [apply Hnext, frame_kept_refl|].
  destruct (current =? 255); [destruct (get_byte s); exact I|].
  repeat (match goal with |- context [if ?c then _ else _] => destruct c end);
    exact Logic.I.
Qed.

Lemma readMarkers_inv fuel : forall s last current h,
  header_inv h ->
  match readMarkers fuel s last current h with
  | MLeave _ h' =>
      header_inv h'
      /\ (valid h' = true ->
          numComponents h' <> 0
          /\ startOfSelection h' = 0 /\ endOfSelection h' = 63
          /\ successiveApproximationHigh h' = 0
          /\ successiveApproximationLow h' = 0)
  | MFault idx => idx = -1
  | _ => True
  end.
Proof.
  induction fuel as [|fuel IH]; intros s last current h I; cbn [readMarkers];
    pose proof (markerStep_inv s last current h I) as Hstep;
    destruct (markerStep s last current h) as [s' l' c' h'|res];
    try exact Hstep; [exact Logic.I|apply IH, Hstep].
Qed.

Lemma header_inv_new : header_inv newHeader.
Proof.
  unfold header_inv.
  split; [reflexivity|]. split; [cbn; lia|].
  split; [intros H; cbn in H; contradiction|]. intros _.
  split; [cbn; lia|].
  split; [|intros H; cbn in H; contradiction].
  cbn. repeat (apply Forall_cons; split; [unfold ids_ok; cbn; lia|]).
  apply Forall_nil. exact Logic.I.
Qed.

Lemma checkTables_ready n : forall i h,
  valid (checkTables n i h) = true ->
  forall k, (i <= k < i + n)%nat ->
    let c := component_at h k in
    q_set (qtable_at h (quantizationTableID c)) = true
    /\ h_set (dctable_at h (huffmanDCTableID c)) = true
    /\ h_set (actable_at h (huffmanACTableID c)) = true.
Proof.
  induction n as [|n IH]; intros i h Hv k Hk; [lia|].
  cbn [checkTables] in Hv.
  destruct (q_set _) eqn:Hq; cbn [negb] in Hv; [|discriminate Hv].
  destruct (h_set (dctable_at _ _)) eqn:Hd; cbn [negb] in Hv; [|discriminate Hv].
  destruct (h_set (actable_at _ _)) eqn:Ha; cbn [negb] in Hv; [|discriminate Hv].
  destruct (Nat.eq_dec k i) as [->|Hne]; [cbn; tauto|].
  apply (IH (S i) h Hv). lia.
Qed.

Lemma validateHeader_ready h :
  valid (validateHeader h) = true ->
  (numComponents h = 1 \/ numComponents h = 3)
  /\ forall i, (i < Z.to_nat (numComponents h))%nat -> component_ready h i.
Proof.
  unfold validateHeader, bad_sampling.
  destruct (Z.eqb_spec (numComponents h) 1) as [H1|H1];
    destruct (Z.eqb_spec (numComponents h) 3) as [H3|H3];
    cbn [negb andb]; try discriminate; try lia.
  - destruct (Z.eqb_spec (horizontalSamplingFactor (component_at h 0)) 1);
      destruct (Z.eqb_spec (verticalSamplingFactor (component_at h 0)) 1);
      cbn [negb orb]; try discriminate.
    intros Hv. split; [left; exact H1|]. intros i Hi.
    rewrite H1 in Hi. assert (i = 0%nat) as -> by lia.
    pose proof (checkTables_ready _ _ _ Hv 0%nat) as Ht. rewrite H1 in Ht.
    unfold component_ready. cbn zeta in Ht |- *.
    split; [assumption|]. split; [assumption|]. apply Ht. cbn. lia.
  - destruct (Z.eqb_spec (horizontalSamplingFactor (component_at h 0)) 1);
      destruct (Z.eqb_spec (verticalSamplingFactor (component_at h 0)) 1);
      cbn [negb orb]; try discriminate.
    destruct (Z.eqb_spec (horizontalSamplingFactor (component_at h 1)) 1);
      destruct (Z.eqb_spec (verticalSamplingFactor (component_at h 1)) 1);
      cbn [negb orb]; try discriminate.
    destruct (Z.eqb_spec (horizontalSamplingFactor (component_at h 2)) 1);
      destruct (Z.eqb_spec (verticalSamplingFactor (component_at h 2)) 1);
      cbn [negb orb]; try discriminate.
    intros Hv. split; [right; exact H3|]. intros i Hi.
    rewrite H3 in Hi.
    pose proof (checkTables_ready _ _ _ Hv i) as Ht. rewrite H3 in Ht.
    unfold component_ready. cbn zeta in Ht |- *.
    assert (Hi3 : (i < 3)%nat) by (cbn in Hi; lia).
    destruct i as [|[|[|i]]]; try lia;
      (split; [assumption|]; split; [assumption|]; apply Ht; cbn; lia).
Qed.

(** X3: whatever the file, readJPG addresses [colorComponents] outside
    the array at one index only, -1: the frame reader admits the component
    IDs 1 to 3, a valid header has at most three components, and the scan
    reader rejects an ID above their number, so that only the ID 0 leaves
    the array. *)
Theorem readJPG_fault_index file alloc idx :
  readJPG file alloc = Fault idx -> idx = -1.
Proof.
  unfold readJPG. destruct file as [bytes|]; [|discriminate].
  destruct (negb alloc); [discriminate|].
  destruct (get_byte (mkStream bytes false)) as [l0 s0].
  destruct (get_byte s0) as [c0 s1].
  destruct (_ || _); [discriminate|].
  destruct (get_byte s1) as [l1 s2].
  destruct (get_byte s2) as [c1 s3].
  pose proof (readMarkers_inv (S (S (length (pending s3)))) s3 l1 c1 newHeader
                header_inv_new) as Hloop.
  destruct (readMarkers _ s3 l1 c1 newHeader) as [h|s h|i|]; cbn [readJPG_tail];
    try discriminate.
  - destruct (valid h); [|discriminate].
    destruct (get_byte s) as [c s'].
    destruct (readScanData _ s' c (huffmanData h)); discriminate.
  - intros [= <-]. exact Hloop.
Qed.

(** The headers readJPG returns valid are baseline headers. *)
Lemma valid_header_is_baseline file alloc h :
  readJPG file alloc = Hdr h -> valid h = true -> baseline_header h.
Proof.
  unfold readJPG. destruct file as [bytes|]; [|discriminate].
  destruct (negb alloc); [discriminate|].
  destruct (get_byte (mkStream bytes false)) as [l0 s0].
  destruct (get_byte s0) as [c0 s1].
  destruct (_ || _); [intros [= <-]; discriminate|].
  destruct (get_byte s1) as [l1 s2].
  destruct (get_byte s2) as [c1 s3].
  pose proof (readMarkers_inv (S (S (length (pending s3)))) s3 l1 c1 newHeader
                header_inv_new) as Hloop.
  destruct (readMarkers _ s3 l1 c1 newHeader) as [h0|s h0|i|] eqn:Hrun;
    cbn [readJPG_tail]; try discriminate.
  - apply readMarkers_return in Hrun. intros [= <-] Hv. congruence.
  - destruct Hloop as [(L & N & D & V) Hsel].
    destruct (valid h0) eqn:Hv0.
    2:{ intros [= <-] Hv.
        destruct (validateHeader_cases h0) as [E|E]; rewrite E in Hv;
          [congruence|discriminate Hv]. }
    destruct (get_byte s) as [c s'].
    destruct (readScanData _ s' c (huffmanData h0)) as [data|s'' data|];
      [intros [= <-]; discriminate| |discriminate].
    intros [= <-] Hv.
    pose proof (validateHeader_ready _ Hv) as [Hn Hready].
    rewrite (validateHeader_valid _ Hv) in *. hsimpl.
    destruct (Hsel eq_refl) as (Hn0 & Hss & Hse & Hah & Hal).
    destruct (D Hn0) as (Hf & Hh & Hw).
    destruct (V eq_refl) as (_ & Hids & Hdim). destruct (Hdim Hn0) as [Hh' Hw'].
    unfold baseline_header. hsimpl.
    repeat (split; [assumption || lia|]). exact Hready.
Qed.


Lemma readJPG_fault_index_witness :
  readJPG (Some id0_jpg) true = Fault (-1) /\ -1 = -1.
Proof.
  split; [vm_compute; reflexivity|].
  apply (readJPG_fault_index (Some id0_jpg) true (-1)).
  vm_compute. reflexivity.
Defined.


(** ** The bit reader *)

Lemma readBit_cases data b :
  (Z.of_nat (length data) <= nextByte b /\ readBit data b = (-1, b))
  \/ (nextByte b < Z.of_nat (length data)
      /\ (fst (readBit data b) = 0 \/ fst (readBit data b) = 1)).
Proof.
  unfold readBit.
  destruct (Z.leb_spec (Z.of_nat (length data)) (nextByte b)) as [H|H];
    [left; split; [exact H|reflexivity]|right; split; [exact H|]].
  assert (Hbit : forall v, Z.land v 1 = 0 \/ Z.land v 1 = 1).
  { intros v.
    assert (E : Z.land v 1 = v mod 2) by exact (Z.land_ones v 1 ltac:(lia)).
    pose proof (Z.mod_pos_bound v 2 ltac:(lia)). lia. }
  destruct (_ =? 8); cbn [fst]; apply Hbit.
Qed.

Lemma readBit_position data b :
  reader_in data b -> nextByte b < Z.of_nat (length data) ->
  reader_in data (snd (readBit data b))
  /\ bit_position (snd (readBit data b)) = bit_position b + 1.
Proof.
  unfold reader_in, bit_position, readBit. intros (Hb & Hn & Hp) Hlt.
  destruct (Z.leb_spec (Z.of_nat (length data)) (nextByte b)); [lia|].
  destruct (Z.eqb_spec (nextBit b + 1) 8); cbn [snd nextByte nextBit]; lia.
Qed.

Lemma lor_bit a bit :
  0 <= a -> bit = 0 \/ bit = 1 -> Z.lor (Z.shiftl a 1) bit = 2 * a + bit.
Proof.
  intros Ha [->| ->].
  - rewrite Z.lor_0_r, Z.shiftl_mul_pow2 by lia. change (2 ^ 1) with 2. lia.
  - destruct a as [|p|p]; [reflexivity|reflexivity|lia].
Qed.

Lemma to_int_id z : -2147483648 <= z < 2147483648 -> to_int z = z.
Proof.
  intros H. unfold to_int. rewrite Z.mod_small by lia. lia.
Qed.

(** The loop of readBits with the bits read so far in [acc]: it fails when
    the loop started at 0 fails, and otherwise shifts [acc] past the bits
    it reads. *)
Lemma readBits_from_acc data n : forall acc b,
  0 <= acc -> (acc + 1) * 2 ^ Z.of_nat n <= 2147483648 ->
  let r := readBits_from data n 0 b in
  (fst r = -1 /\ readBits_from data n acc b = (-1, snd r))
  \/ (0 <= fst r < 2 ^ Z.of_nat n
      /\ readBits_from data n acc b = (acc * 2 ^ Z.of_nat n + fst r, snd r)).
Proof.
  induction n as [|n IH]; intros acc b Hacc Hfit.
  - right. cbn. split; [lia|]. f_equal. lia.
  - cbn zeta. cbn [readBits_from].
    rewrite Nat2Z.inj_succ, Z.pow_succ_r in * by lia.
    destruct (readBit_cases data b) as [[_ ->]|[_ Hbit]].
    { left. cbn. split; reflexivity. }
    destruct (readBit data b) as [bit b1]. cbn [fst] in Hbit.
    destruct (Z.eqb_spec bit (-1)) as [E|_]; [lia|].
    assert (Hpow : 0 < 2 ^ Z.of_nat n) by (apply Z.pow_pos_nonneg; lia).
    rewrite Z.shiftl_0_l, Z.lor_0_l.
    rewrite (lor_bit acc bit Hacc Hbit).
    rewrite !to_int_id by nia.
    destruct (IH bit b1 ltac:(lia) ltac:(nia)) as [[E1 E2]|[R1 R2]];
      destruct (IH (2 * acc + bit) b1 ltac:(lia) ltac:(nia)) as [[F1 F2]|[G1 G2]];
      try lia.
    + left. rewrite E2, F2. split; reflexivity.
    + right. rewrite R2, G2. cbn [fst snd]. split; [nia|]. f_equal. lia.
Qed.

Lemma readBits_from_app data n m : forall acc b v1 b1,
  0 <= acc -> (acc + 1) * 2 ^ Z.of_nat m <= 2147483648 ->
  readBits_from data m acc b = (v1, b1) -> v1 <> -1 ->
  readBits_from data (m + n) acc b = readBits_from data n v1 b1.
Proof.
  induction m as [|m IH]; intros acc b v1 b1 Hacc Hfit.
  - cbn. intros [= <- <-] _. reflexivity.
  - cbn [readBits_from Nat.add].
    rewrite Nat2Z.inj_succ, Z.pow_succ_r in Hfit by lia.
    destruct (readBit_cases data b) as [[_ ->]|[_ Hbit]].
    { cbn. intros [= <- <-] H. contradiction. }
    destruct (readBit data b) as [bit b']. cbn [fst] in Hbit.
    destruct (Z.eqb_spec bit (-1)) as [E|_]; [lia|].
    assert (Hpow : 0 < 2 ^ Z.of_nat m) by (apply Z.pow_pos_nonneg; lia).
    rewrite (lor_bit acc bit Hacc Hbit), to_int_id by nia.
    apply IH; [lia|nia].
Qed.

(** X5: reads compose.  When [readBits m] and then [readBits n] succeed
    and [m + n <= 31], one [readBits (m + n)] from the same position
    returns the first value shifted left by [n] plus the second (the first
    bit read is the most significant) and leaves the reader where the two
    reads leave it. *)
Theorem readBits_compose data (m n : Z) b v1 b1 v2 b2 :
  0 <= m -> 0 <= n -> m + n <= 31 ->
  readBits data m b = (v1, b1) -> v1 <> -1 ->
  readBits data n b1 = (v2, b2) -> v2 <> -1 ->
  readBits data (m + n) b = (v1 * 2 ^ n + v2, b2).
Proof.
  unfold readBits. intros Hm Hn Hmn H1 Hv1 H2 Hv2.
  assert (P31 : 2 ^ 31 = 2147483648) by reflexivity.
  assert (Hpm : 2 ^ m <= 2 ^ 31) by (apply Z.pow_le_mono_r; lia).
  assert (Hpm' : (0 + 1) * 2 ^ Z.of_nat (Z.to_nat m) <= 2147483648)
    by (rewrite Z2Nat.id by lia; lia).
  rewrite Z2Nat.inj_add by lia.
  rewrite (readBits_from_app data _ _ _ _ _ _ (Z.le_refl 0) Hpm' H1 Hv1).
  destruct (readBits_from_acc data (Z.to_nat m) 0 b (Z.le_refl 0) Hpm')
    as [[E _]|[R _]];
    rewrite H1 in *; cbn [fst] in *; [contradiction|].
  rewrite Z2Nat.id in R by lia.
  assert (Hfit : (v1 + 1) * 2 ^ Z.of_nat (Z.to_nat n) <= 2147483648).
  { rewrite Z2Nat.id by lia.
    rewrite <- P31. replace 31 with (m + n + (31 - m - n)) by lia.
    rewrite !Z.pow_add_r by lia.
    assert (0 < 2 ^ (31 - m - n)) by (apply Z.pow_pos_nonneg; lia).
    assert (0 < 2 ^ n) by (apply Z.pow_pos_nonneg; lia).
    assert (0 < 2 ^ m) by (apply Z.pow_pos_nonneg; lia).
    assert ((v1 + 1) * 2 ^ n <= 2 ^ m * 2 ^ n)
      by (apply Z.mul_le_mono_nonneg_r; lia).
    assert (2 ^ m * 2 ^ n * 1 <= 2 ^ m * 2 ^ n * 2 ^ (31 - m - n))
      by (apply Z.mul_le_mono_nonneg_l; nia).
    lia. }
  destruct (readBits_from_acc data (Z.to_nat n) v1 b1 ltac:(lia) Hfit)
    as [[E _]|[_ G]];
    rewrite H2 in *; cbn [fst snd] in *; [contradiction|].
  rewrite Z2Nat.id in G by lia. exact G.
Qed.

Lemma readBits_from_position data n : forall acc b,
  reader_in data b -> 0 <= acc -> (acc + 1) * 2 ^ Z.of_nat n <= 2147483648 ->
  let r := readBits_from data n acc b in
  (8 * Z.of_nat (length data) < bit_position b + Z.of_nat n -> fst r = -1)
  /\ (bit_position b + Z.of_nat n <= 8 * Z.of_nat (length data) ->
      acc * 2 ^ Z.of_nat n <= fst r < (acc + 1) * 2 ^ Z.of_nat n
      /\ reader_in data (snd r)
      /\ bit_position (snd r) = bit_position b + Z.of_nat n).
Proof.
  induction n as [|n IH]; intros acc b Hin Hacc Hfit.
  - cbn. destruct Hin as (? & ? & ?).
    repeat split; try lia; unfold bit_position in *; lia.
  - cbn zeta. cbn [readBits_from].
    rewrite Nat2Z.inj_succ, Z.pow_succ_r in * by lia.
    destruct (readBit_cases data b) as [[Heof ->]|[Hlt Hbit]].
    { cbn [fst snd]. destruct Hin as (? & ? & Hp). unfold bit_position in *.
      split; [reflexivity|lia]. }
    destruct (readBit_position data b Hin Hlt) as [Hin1 Hpos1].
    destruct (readBit data b) as [bit b1]. cbn [fst snd] in Hbit, Hin1, Hpos1.
    destruct (Z.eqb_spec bit (-1)) as [E|_]; [lia|].
    assert (Hpow : 0 < 2 ^ Z.of_nat n) by (apply Z.pow_pos_nonneg; lia).
    rewrite (lor_bit acc bit Hacc Hbit), to_int_id by nia.
    destruct (IH (2 * acc + bit) b1 Hin1 ltac:(lia) ltac:(nia)) as [Hout Hok].
    rewrite Hpos1 in Hout, Hok.
    split; [intros H; apply Hout; lia|].
    intros H. destruct (Hok ltac:(lia)) as (Hv & Hr & Hp).
    split; [nia|]. split; [exact Hr|lia].
Qed.

(** X6: for a reader inside the data and [n <= 31], [readBits n] returns
    -1 exactly when fewer than [n] bits are left; otherwise its value is
    below [2^n] and the reader has advanced by exactly [n] bits, across
    byte boundaries. *)
Theorem readBits_runs_out data (n : Z) b :
  reader_in data b -> 0 <= n <= 31 ->
  let r := readBits data n b in
  (fst r = -1 <-> 8 * Z.of_nat (length data) < bit_position b + n)
  /\ (fst r <> -1 ->
      0 <= fst r < 2 ^ n /\ reader_in data (snd r)
      /\ bit_position (snd r) = bit_position b + n).
Proof.
  intros Hin Hn. unfold readBits. cbn zeta.
  assert (Hpn : 2 ^ n <= 2 ^ 31) by (apply Z.pow_le_mono_r; lia).
  assert (P31 : 2 ^ 31 = 2147483648) by reflexivity.
  assert (Hfit : (0 + 1) * 2 ^ Z.of_nat (Z.to_nat n) <= 2147483648)
    by (rewrite Z2Nat.id by lia; lia).
  destruct (readBits_from_position data (Z.to_nat n) 0 b Hin (Z.le_refl 0) Hfit)
    as [Hout Hok].
  rewrite Z2Nat.id in Hout, Hok by lia.
  destruct (Z.lt_ge_cases (8 * Z.of_nat (length data)) (bit_position b + n))
    as [Hshort|Hlong].
  - specialize (Hout Hshort). split; [tauto|]. intros H. contradiction.
  - destruct (Hok Hlong) as (Hv & Hr & Hp).
    split; [split; intros; lia|]. intros _.
    split; [lia|]. split; assumption.
Qed.

Lemma readBit_at data k j :
  0 <= k < Z.of_nat (length data) ->
  readBit data (mkReader k j)
  = (Z.land (Z.shiftr (nth (Z.to_nat k) data 0) (7 - j)) 1,
     if j + 1 =? 8 then mkReader (k + 1) 0 else mkReader k (j + 1)).
Proof.
  intros Hk. unfold readBit. cbn [nextByte nextBit].
  destruct (Z.leb_spec (Z.of_nat (length data)) k); [lia|].
  destruct (j + 1 =? 8); reflexivity.
Qed.

Lemma land1_not_eof v : (Z.land v 1 =? -1) = false.
Proof.
  assert (E : Z.land v 1 = v mod 2) by exact (Z.land_ones v 1 ltac:(lia)).
  pose proof (Z.mod_pos_bound v 2 ltac:(lia)). apply Z.eqb_neq. lia.
Qed.

Lemma bits_of_byte v :
  0 <= v < 256 ->
  fold_left (fun acc j => to_int (Z.lor (Z.shiftl acc 1)
                                        (Z.land (Z.shiftr v (7 - j)) 1)))
            (map Z.of_nat (seq 0 8)) 0 = v.
Proof.
  intros Hv.
  assert (Hall : forallb
            (fun v => fold_left
                        (fun acc j => to_int (Z.lor (Z.shiftl acc 1)
                                                (Z.land (Z.shiftr v (7 - j)) 1)))
                        (map Z.of_nat (seq 0 8)) 0 =? v)
            (map Z.of_nat (seq 0 256)) = true) by (vm_compute; reflexivity).
  rewrite forallb_forall in Hall. apply Z.eqb_eq, Hall.
  apply in_map_iff. exists (Z.to_nat v). split; [lia|]. apply in_seq. lia.
Qed.

(** The bits of one byte: [n] reads from the bit [j] of the byte [k] fold
    its bits [j], [j+1], ... into the accumulator. *)
Lemma readBits_from_byte data k n : forall j acc,
  0 <= k < Z.of_nat (length data) -> (j < 8)%nat -> (j + n <= 8)%nat ->
  readBits_from data n acc (mkReader k (Z.of_nat j))
  = (fold_left (fun acc i =>
                  to_int (Z.lor (Z.shiftl acc 1)
                            (Z.land (Z.shiftr (nth (Z.to_nat k) data 0) (7 - i)) 1)))
               (map Z.of_nat (seq j n)) acc,
     if (j + n =? 8)%nat then mkReader (k + 1) 0
     else mkReader k (Z.of_nat (j + n))).
Proof.
  induction n as [|n IH]; intros j acc Hk Hj8 Hj.
  - cbn [readBits_from seq map fold_left]. rewrite Nat.add_0_r.
    destruct (Nat.eqb_spec j 8) as [E|_]; [lia|reflexivity].
  - cbn [readBits_from seq map fold_left].
    rewrite (readBit_at data k) by exact Hk. rewrite land1_not_eof.
    destruct (Z.eqb_spec (Z.of_nat j + 1) 8) as [E|E].
    + assert (n = 0%nat) as -> by lia. cbn [readBits_from seq map fold_left].
      destruct (Nat.eqb_spec (j + 1) 8) as [_|N]; [reflexivity|lia].
    + replace (Z.of_nat j + 1) with (Z.of_nat (S j)) by lia.
      rewrite IH by (assumption || lia).
      replace (S j + n)%nat with (j + S n)%nat by lia. reflexivity.
Qed.

(** X7: at a byte boundary, [readBits 8] returns the byte the reader
    stands on and moves the reader to the next byte. *)
Theorem readBits_whole_byte data b :
  nextBit b = 0 -> 0 <= nextByte b < Z.of_nat (length data) ->
  0 <= nth (Z.to_nat (nextByte b)) data 0 < 256 ->
  readBits data 8 b
  = (nth (Z.to_nat (nextByte b)) data 0, mkReader (nextByte b + 1) 0).
Proof.
  destruct b as [k j]. cbn [nextByte nextBit]. intros -> Hk Hv.
  unfold readBits. change (Z.to_nat 8) with 8%nat.
  change 0 with (Z.of_nat 0) at 2.
  rewrite (readBits_from_byte data k 8 0 0 Hk ltac:(lia)
             (Nat.le_refl 8)).
  rewrite (bits_of_byte _ Hv). reflexivity.
Qed.

(** ** One block *)

Lemma zz_not_dc k : 1 <= k < 64 -> zz k <> 0%nat.
Proof.
  intros Hk E. change 0%nat with (zz 0) in E.
  apply zz_inj in E; lia.
Qed.

(** A zero run from the position [i] on leaves alone what lies outside
    the zigzag positions [i .. 63]. *)
Lemma zeroRun_outside n : forall i c p,
  (forall k, i <= k < 64 -> zz k <> p) ->
  nth p (snd (zeroRun n i c)) 0 = nth p c 0.
Proof.
  induction n as [|n IH]; intros i c p Hp; cbn [zeroRun]; [reflexivity|].
  destruct (Z.ltb_spec i 64) as [Hi|Hi]; [|reflexivity].
  rewrite IH by (intros k Hk; apply Hp; lia).
  apply nth_insert_ne. intros E. apply (Hp i); [lia|]. symmetry. exact E.
Qed.

Lemma zeroRun_le64 n : forall i c, i <= 64 -> fst (zeroRun n i c) <= 64.
Proof.
  induction n as [|n IH]; intros i c Hi; cbn [zeroRun]; [exact Hi|].
  destruct (Z.ltb_spec i 64) as [H|H]; [apply IH; lia|exact Hi].
Qed.

Lemma acBody_outside data acCodes acTable i b c p :
  i <= 64 -> (forall k, i <= k < 64 -> zz k <> p) ->
  match acBody data acCodes acTable i b c with
  | AcFail c' _ | AcReturn c' _ => nth p c' 0 = nth p c 0
  | AcNext i' c' _ => nth p c' 0 = nth p c 0 /\ i <= i'
  end.
Proof.
  intros Hi Hp. unfold acBody.
  destruct (getNextSymbol data b acCodes acTable) as [symbol b1].
  destruct (symbol =? -1); [reflexivity|].
  destruct (symbol =? 0); [apply zeroRun_outside, Hp|].
  pose proof (zeroRun_outside (Z.to_nat (Z.shiftr symbol 4)) i c p Hp) as Hrun.
  pose proof (zeroRun_ge (Z.to_nat (Z.shiftr symbol 4)) i c) as Hge.
  pose proof (zeroRun_le64 (Z.to_nat (Z.shiftr symbol 4)) i c Hi) as Hle.
  destruct (zeroRun _ i c) as [i1 c1]. cbn [fst snd] in Hrun, Hge, Hle.
  destruct (10 <? Z.land symbol 15); [exact Hrun|].
  destruct (negb (Z.land symbol 15 =? 0)).
  - destruct (Z.eqb_spec i1 64) as [E|E]; [exact Hrun|].
    destruct (readBits data (Z.land symbol 15) b1) as [coeff b2].
    destruct (coeff =? -1); [exact Hrun|].
    split; [|lia]. rewrite nth_insert_ne; [exact Hrun|].
    intros E'. apply (Hp i1); [lia|]. symmetry. exact E'.
  - split; [exact Hrun|exact Hge].
Qed.

(** The AC loop at the position [i] leaves alone what lies outside the
    zigzag positions [i .. 63]. *)
Lemma acLoop_outside data acCodes acTable p fuel : forall i b c,
  (forall k, i <= k < 64 -> zz k <> p) ->
  nth p (snd (fst (acLoop data fuel acCodes acTable i b c))) 0 = nth p c 0.
Proof.
  induction fuel as [|fuel IH]; intros i b c Hp; cbn [acLoop];
    destruct (Z.leb_spec 64 i) as [Hi|Hi]; try reflexivity.
  pose proof (acBody_outside data acCodes acTable i b c p ltac:(lia) Hp) as Hb.
  destruct (acBody data acCodes acTable i b c) as [c' b'|c' b'|i' c' b'];
    cbn [fst snd]; try exact Hb.
  destruct Hb as [Hb Hge]. rewrite IH; [exact Hb|].
  intros k Hk. apply Hp. lia.
Qed.

(** X8: when the DC symbol, a size of at most 31 bits, and its bits are
    read, the element 0 of the block is the predictor plus the sign-extended
    difference, whatever the AC symbols that follow do: the AC loop writes
    at the zigzag positions 1 .. 63 only, also in a block that fails later.
    Up to the size 31 the shifts [1 << (length - 1)] and [1 << length] of
    the source stay within the width of an [int]. *)
Theorem dc_is_predicted data b component previousDC dcCodes dcTable
    acCodes acTable len b1 coeff b2 :
  getNextSymbol data b dcCodes dcTable = (len, b1) -> len <= 31 ->
  readBits data len b1 = (coeff, b2) -> coeff <> -1 ->
  (0 < length component)%nat ->
  nth 0 (snd (fst (decodeMCUComponent data b component previousDC
                     dcCodes dcTable acCodes acTable))) 0
  = to_int (extendDC len coeff + previousDC).
Proof.
  intros Hsym Hlen Hbits Hcoeff Hc. unfold decodeMCUComponent.
  rewrite Hsym. change (to_byte (-1)) with 255.
  destruct (Z.eqb_spec len 255) as [E|_]; [lia|].
  rewrite Hbits. destruct (Z.eqb_spec coeff (-1)) as [E|_]; [contradiction|].
  rewrite acLoop_outside by (intros k Hk; apply zz_not_dc; lia).
  apply nth_insert_eq. exact Hc.
Qed.

(** X9: the end-of-block symbol 0, read at the position [i], ends the
    block with success: the zigzag positions [i .. 63] hold zero and the
    positions before [i] are as they were. *)
Theorem end_of_block_zeroes_rest data acCodes acTable fuel i b b' component :
  getNextSymbol data b acCodes acTable = (0, b') ->
  1 <= i < 64 -> length component = 64%nat ->
  exists c',
    acLoop data (S fuel) acCodes acTable i b component = (true, c', b')
    /\ (forall k, i <= k < 64 -> nth (zz k) c' 0 = 0)
    /\ (forall k, 0 <= k < i -> nth (zz k) c' 0 = nth (zz k) component 0).
Proof.
  intros Hsym Hi Hlen. cbn [acLoop].
  destruct (Z.leb_spec 64 i) as [H|_]; [lia|].
  unfold acBody. rewrite Hsym. cbn [Z.eqb].
  exists (snd (zeroRun 64 i component)). split; [reflexivity|].
  assert (Hrun : zeroRun 64 i component = zeroRun (Z.to_nat (64 - i)) i component).
  { apply zeroRun_stops; [lia|]. rewrite zeroRun_fst; lia. }
  split.
  - intros k Hk. rewrite Hrun. apply zeroRun_zero; lia.
  - intros k Hk. apply zeroRun_outside. intros j Hj E.
    apply zz_inj in E; lia.
Qed.

Lemma nth_insert_range (P : Z -> Prop) (c : list Z) (p k : nat) (v : Z) :
  P v -> P (nth k c 0) -> P (nth k (<[p := v]> c) 0).
Proof.
  intros Hv Hc. destruct (decide (k = p)) as [->|Hne].
  - destruct (decide (p < length c)%nat) as [Hlt|Hge].
    + rewrite nth_insert_eq by exact Hlt. exact Hv.
    + rewrite list_insert_ge by lia. exact Hc.
  - rewrite nth_insert_ne by exact Hne. exact Hc.
Qed.

Lemma zeroRun_range (P : Z -> Prop) n : forall i c k,
  P 0 -> P (nth k c 0) -> P (nth k (snd (zeroRun n i c)) 0).
Proof.
  induction n as [|n IH]; intros i c k H0 Hc; cbn [zeroRun]; [exact Hc|].
  destruct (i <? 64); [|exact Hc].
  apply IH; [exact H0|]. apply nth_insert_range; assumption.
Qed.

Lemma readBits_range data n b :
  0 <= n <= 31 ->
  fst (readBits data n b) = -1 \/ 0 <= fst (readBits data n b) < 2 ^ n.
Proof.
  intros Hn. unfold readBits.
  assert (Hpn : 2 ^ n <= 2 ^ 31) by (apply Z.pow_le_mono_r; lia).
  assert (P31 : 2 ^ 31 = 2147483648) by reflexivity.
  assert (Hfit : (0 + 1) * 2 ^ Z.of_nat (Z.to_nat n) <= 2147483648)
    by (rewrite Z2Nat.id by lia; lia).
  destruct (readBits_from_acc data (Z.to_nat n) 0 b (Z.le_refl 0) Hfit)
    as [[E _]|[R _]]; [left; exact E|right].
  rewrite Z2Nat.id in R by lia. exact R.
Qed.

Lemma extendAC_small (L V : Z) :
  1 <= L <= 10 -> 0 <= V < 2 ^ L -> -1023 <= extendAC L V <= 1023.
Proof.
  intros HL HV.
  assert (H10 : 2 ^ L <= 2 ^ 10) by (apply Z.pow_le_mono_r; lia).
  assert (P10 : 2 ^ 10 = 1024) by reflexivity.
  assert (0 < 2 ^ (L - 1)) by (apply Z.pow_pos_nonneg; lia).
  assert (HL' : 1 <= L <= 11) by lia.
  destruct (extendAC_range L V HL' HV); lia.
Qed.

Lemma acBody_range data acCodes acTable i b c k :
  -1023 <= nth k c 0 <= 1023 ->
  match acBody data acCodes acTable i b c with
  | AcFail c' _ | AcReturn c' _ | AcNext _ c' _ => -1023 <= nth k c' 0 <= 1023
  end.
Proof.
  intros Hc. unfold acBody.
  destruct (getNextSymbol data b acCodes acTable) as [symbol b1].
  destruct (symbol =? -1); [exact Hc|].
  destruct (symbol =? 0);
    [apply (zeroRun_range (fun v => -1023 <= v <= 1023)); [lia|exact Hc]|].
  assert (H0 : (fun v => -1023 <= v <= 1023) 0) by (cbv beta; lia).
  pose proof (zeroRun_range (fun v => -1023 <= v <= 1023)
                (Z.to_nat (Z.shiftr symbol 4)) i c k H0 Hc) as Hrun.
  destruct (zeroRun _ i c) as [i1 c1]. cbn [snd] in Hrun.
  destruct (Z.ltb_spec 10 (Z.land symbol 15)) as [Hbig|Hsmall]; [exact Hrun|].
  destruct (Z.eqb_spec (Z.land symbol 15) 0) as [E0|E0]; cbn [negb];
    [exact Hrun|].
  destruct (i1 =? 64); [exact Hrun|].
  assert (Hpos : 0 <= Z.land symbol 15).
  { assert (E : Z.land symbol 15 = symbol mod 16)
      by exact (Z.land_ones symbol 4 ltac:(lia)).
    pose proof (Z.mod_pos_bound symbol 16 ltac:(lia)). lia. }
  pose proof (readBits_range data (Z.land symbol 15) b1 ltac:(lia)) as Hbits.
  destruct (readBits data (Z.land symbol 15) b1) as [coeff b2]. cbn [fst] in Hbits.
  destruct (Z.eqb_spec coeff (-1)) as [E|E]; [exact Hrun|].
  apply (nth_insert_range (fun v => -1023 <= v <= 1023)); [|exact Hrun].
  apply extendAC_small; lia.
Qed.

Lemma acLoop_range data acCodes acTable k fuel : forall i b c,
  -1023 <= nth k c 0 <= 1023 ->
  -1023 <= nth k (snd (fst (acLoop data fuel acCodes acTable i b c))) 0 <= 1023.
Proof.
  induction fuel as [|fuel IH]; intros i b c Hc; cbn [acLoop];
    destruct (64 <=? i); try exact Hc.
  pose proof (acBody_range data acCodes acTable i b c k Hc) as Hb.
  destruct (acBody data acCodes acTable i b c) as [c' b'|c' b'|i' c' b'];
    cbn [fst snd]; try exact Hb.
  apply IH, Hb.
Qed.

(** X10: decodeMCUComponent writes no AC coefficient outside
    -1023 .. 1023: an element other than the DC coefficient that was within
    that range before the call is within it afterwards, whether the call
    succeeds or fails. *)
Theorem ac_coefficients_bounded data b component previousDC dcCodes dcTable
    acCodes acTable (k : nat) :
  k <> 0%nat -> -1023 <= nth k component 0 <= 1023 ->
  -1023 <= nth k (snd (fst (decodeMCUComponent data b component previousDC
                              dcCodes dcTable acCodes acTable))) 0 <= 1023.
Proof.
  intros Hk Hc. unfold decodeMCUComponent.
  destruct (getNextSymbol data b dcCodes dcTable) as [len b1].
  destruct (len =? to_byte (-1)); [exact Hc|].
  destruct (readBits data len b1) as [coeff b2].
  destruct (coeff =? -1); [exact Hc|].
  apply acLoop_range. rewrite nth_insert_ne by exact Hk. exact Hc.
Qed.

Lemma readBits_compose_witness :
  readBits [165; 60] (3 + 5) (mkReader 0 0) = (5 * 2 ^ 5 + 5, mkReader 1 0).
Proof.
  apply (readBits_compose [165; 60] 3 5 (mkReader 0 0) 5 (mkReader 0 3));
    try lia; reflexivity.
Defined.

Lemma readBits_runs_out_witness :
  let r := readBits [165] 5 (mkReader 0 4) in
  (fst r = -1 <-> 8 * Z.of_nat (length [165]) < bit_position (mkReader 0 4) + 5)
  /\ (fst r <> -1 ->
      0 <= fst r < 2 ^ 5 /\ reader_in [165] (snd r)
      /\ bit_position (snd r) = bit_position (mkReader 0 4) + 5).
Proof.
  apply (readBits_runs_out [165] 5 (mkReader 0 4)); [|lia].
  unfold reader_in, bit_position. cbn. lia.
Defined.

Lemma readBits_whole_byte_witness :
  readBits [165; 60] 8 (mkReader 1 0) = (60, mkReader 2 0).
Proof.
  apply (readBits_whole_byte [165; 60] (mkReader 1 0));
    [reflexivity|simpl; lia|simpl; lia].
Defined.

Lemma dc_is_predicted_witness :
  nth 0 (snd (fst (decodeMCUComponent [32] (mkReader 0 0) (replicate 64 5) 7
                     (generateCodes
                        (mkHTable (0 :: replicate 16 1) (3 :: replicate 161 0) true)
                        noCodes)
                     (mkHTable (0 :: replicate 16 1) (3 :: replicate 161 0) true)
                     acCodes0 acTable0))) 0
  = to_int (extendDC 3 2 + 7).
Proof.
  apply (dc_is_predicted [32] (mkReader 0 0) (replicate 64 5) 7
           (generateCodes
              (mkHTable (0 :: replicate 16 1) (3 :: replicate 161 0) true)
              noCodes)
           (mkHTable (0 :: replicate 16 1) (3 :: replicate 161 0) true)
           acCodes0 acTable0 3 (mkReader 0 1) 2 (mkReader 0 4)).
  - vm_compute. reflexivity.
  - lia.
  - vm_compute. reflexivity.
  - lia.
  - cbn. lia.
Defined.

Lemma end_of_block_zeroes_rest_witness :
  exists c',
    acLoop [0] 1 acCodes0 acTable0 5 (mkReader 0 0) (replicate 64 5)
    = (true, c', mkReader 0 1)
    /\ (forall k, 5 <= k < 64 -> nth (zz k) c' 0 = 0)
    /\ (forall k, 0 <= k < 5 ->
        nth (zz k) c' 0 = nth (zz k) (replicate 64 5) 0).
Proof.
  apply (end_of_block_zeroes_rest [0] acCodes0 acTable0 0 5 (mkReader 0 0)
           (mkReader 0 1) (replicate 64 5)).
  - vm_compute. reflexivity.
  - lia.
  - reflexivity.
Defined.

Lemma ac_coefficients_bounded_witness :
  -1023 <= nth 1 (snd (fst (decodeMCUComponent [0] (mkReader 0 0)
                              (replicate 64 5) 7
                              dcCodes0 dcTable0 acCodes0 acTable0))) 0 <= 1023.
Proof.
  apply (ac_coefficients_bounded [0] (mkReader 0 0) (replicate 64 5) 7
           dcCodes0 dcTable0 acCodes0 acTable0 1).
  - discriminate.
  - cbn. lia.
Defined.

(** ** Dequantization *)

Lemma dequantize_from (qt : list Z) n : forall a c,
  (a + n <= 64)%nat -> length c = 64%nat ->
  forall i, (i < 64)%nat ->
    nth (zz (Z.of_nat i))
        (fold_left
           (fun c i => <[zz (Z.of_nat i) :=
                          to_int (nth (zz (Z.of_nat i)) c 0 * nth i qt 0)]> c)
           (seq a n) c) 0
    = if (a <=? i)%nat && (i <? a + n)%nat
      then to_int (nth (zz (Z.of_nat i)) c 0 * nth i qt 0)
      else nth (zz (Z.of_nat i)) c 0.
Proof.
  induction n as [|n IH]; intros a c Han Hlen i Hi.
  - cbn [seq fold_left].
    destruct (Nat.leb_spec a i); destruct (Nat.ltb_spec i (a + 0)); cbn [andb];
      try reflexivity; lia.
  - cbn [seq fold_left].
    rewrite IH by (rewrite ?length_insert; (assumption || lia)).
    assert (Hza : (zz (Z.of_nat a) < 64)%nat) by (apply zz_lt; lia).
    destruct (Nat.eq_dec i a) as [->|Hne].
    + rewrite nth_insert_eq by lia.
      destruct (Nat.leb_spec (S a) a); [lia|].
      destruct (Nat.leb_spec a a); [|lia].
      destruct (Nat.ltb_spec a (a + S n)); [|lia]. reflexivity.
    + assert (Hz : zz (Z.of_nat i) <> zz (Z.of_nat a)).
      { intros E. apply zz_inj in E; lia. }
      rewrite nth_insert_ne by exact Hz.
      destruct (Nat.leb_spec (S a) i); destruct (Nat.leb_spec a i);
        destruct (Nat.ltb_spec i (S a + n)); destruct (Nat.ltb_spec i (a + S n));
        cbn [andb]; try reflexivity; lia.
Qed.

(** X11: dequantizeMCUComponent multiplies every coefficient exactly
    once: the element at the zigzag position [i] of a block of 64 becomes
    its product (as an [int]) with the entry [i] of the table, which is
    stored in zigzag order.  For a coefficient of sixteen bits and a table
    entry of sixteen bits the product is exact. *)
Theorem dequantize_pointwise q c (i : nat) :
  length c = 64%nat -> (i < 64)%nat ->
  nth (zz (Z.of_nat i)) (dequantizeMCUComponent q c) 0
  = to_int (nth (zz (Z.of_nat i)) c 0 * nth i (q_table q) 0)
  /\ (-32768 <= nth (zz (Z.of_nat i)) c 0 <= 32767 ->
      0 <= nth i (q_table q) 0 <= 65535 ->
      nth (zz (Z.of_nat i)) (dequantizeMCUComponent q c) 0
      = nth (zz (Z.of_nat i)) c 0 * nth i (q_table q) 0).
Proof.
  intros Hlen Hi.
  assert (Hmul : nth (zz (Z.of_nat i)) (dequantizeMCUComponent q c) 0
                 = to_int (nth (zz (Z.of_nat i)) c 0 * nth i (q_table q) 0)).
  { unfold dequantizeMCUComponent.
    rewrite (dequantize_from (q_table q) 64 0 c (Nat.le_refl 64) Hlen i Hi).
    destruct (Nat.leb_spec 0 i); [|lia].
    destruct (Nat.ltb_spec i (0 + 64)); [reflexivity|lia]. }
  split; [exact Hmul|]. intros Hc Hq. rewrite Hmul. apply to_int_id. nia.
Qed.

(** ** Colour conversion *)

Lemma clamp255_range v : 0 <= clamp255 v <= 255.
Proof.
  unfold clamp255. destruct (Z.ltb_spec v 0); [lia|].
  destruct (Z.ltb_spec 255 v); lia.
Qed.

Lemma YCbCrToRGBPixel_range yv cbv crv :
  let '(rv, gv, bv) := YCbCrToRGBPixel yv cbv crv in
  0 <= rv <= 255 /\ 0 <= gv <= 255 /\ 0 <= bv <= 255.
Proof.
  unfold YCbCrToRGBPixel. cbv zeta.
  split; [apply clamp255_range|]. split; apply clamp255_range.
Qed.

(** X12: after the colour conversion of an MCU, each of the 64 samples of
    the three planes is within 0 .. 255. *)
Theorem rgb_in_range m (j : nat) :
  length (y m) = 64%nat -> length (cb m) = 64%nat -> length (cr m) = 64%nat ->
  (j < 64)%nat ->
  0 <= nth j (r (YCbCrToRGB_MCU m)) 0 <= 255
  /\ 0 <= nth j (g (YCbCrToRGB_MCU m)) 0 <= 255
  /\ 0 <= nth j (b (YCbCrToRGB_MCU m)) 0 <= 255.
Proof.
  intros Hy Hcb Hcr Hj.
  pose proof (YCbCrToRGB_MCU_pixel m j Hy Hcb Hcr Hj) as Hp.
  pose proof (YCbCrToRGBPixel_range (nth j (y m) 0) (nth j (cb m) 0)
                (nth j (cr m) 0)) as Hr.
  unfold pixel_of in Hp.
  destruct (YCbCrToRGBPixel _ _ _) as [[rv gv] bv].
  apply pair_equal_spec in Hp as [Hp Hbv].
  apply pair_equal_spec in Hp as [Hrv Hgv].
  rewrite Hrv, Hgv, Hbv. exact Hr.
Qed.

(** ** The BMP file *)

Lemma length_flat_map_const {A} (f : A -> list Z) (n : nat) (l : list A) :
  (forall x, In x l -> length (f x) = n) ->
  length (flat_map f l) = (length l * n)%nat.
Proof.
  induction l as [|x l IH]; intros Hf; cbn [flat_map length]; [reflexivity|].
  rewrite length_app, Hf by (left; reflexivity).
  rewrite IH by (intros z Hz; apply Hf; right; exact Hz). lia.
Qed.

Lemma nth_flat_map_const {A} (f : A -> list Z) (n : nat) (dx : A) (l : list A) :
  (forall x, In x l -> length (f x) = n) ->
  forall i k, (i < length l)%nat -> (k < n)%nat ->
    nth (i * n + k) (flat_map f l) 0 = nth k (f (nth i l dx)) 0.
Proof.
  induction l as [|x l IH]; intros Hf i k Hi Hk; [cbn in Hi; lia|].
  cbn [flat_map]. destruct i as [|i].
  - cbn [nth Nat.mul Nat.add]. apply app_nth1.
    rewrite Hf by (left; reflexivity). exact Hk.
  - rewrite app_nth2 by (rewrite Hf by (left; reflexivity); lia).
    rewrite Hf by (left; reflexivity).
    replace (S i * n + k - n)%nat with (i * n + k)%nat by lia.
    cbn [nth]. apply IH; [|cbn in Hi; lia|exact Hk].
    intros z Hz. apply Hf. right. exact Hz.
Qed.

Lemma flat_map_ext_in {A} (f g : A -> list Z) (l : list A) :
  (forall x, In x l -> f x = g x) -> flat_map f l = flat_map g l.
Proof.
  induction l as [|x l IH]; intros H; cbn [flat_map]; [reflexivity|].
  rewrite H by (left; reflexivity).
  rewrite IH by (intros z Hz; apply H; right; exact Hz). reflexivity.
Qed.

Lemma padding_stride w :
  0 < w <= 65535 ->
  3 * w + to_uint (4 - to_uint (w * 3) mod 4) mod 4 = bmp_stride w.
Proof.
  intros Hw. unfold to_uint, bmp_stride.
  rewrite (Z.mod_small (w * 3)) by lia.
  assert (H4 : 0 <= (w * 3) mod 4 < 4) by (apply Z.mod_pos_bound; lia).
  rewrite (Z.mod_small (4 - _)) by lia.
  Z.to_euclidean_division_equations. lia.
Qed.

Lemma bmpRow_length freshMCU header ms i :
  0 < width header <= 65535 ->
  length (bmpRow freshMCU header ms i) = Z.to_nat (bmp_stride (width header)).
Proof.
  intros Hw. unfold bmpRow. cbv zeta.
  rewrite length_app.
  rewrite (length_flat_map_const _ 3) by (intros; reflexivity).
  rewrite (length_flat_map_const _ 1) by (intros; reflexivity).
  rewrite !length_seq. rewrite <- (padding_stride _ Hw).
  assert (0 <= to_uint (4 - to_uint (width header * 3) mod 4) mod 4)
    by (apply Z.mod_pos_bound; lia).
  lia.
Qed.

Lemma putInt_bytes v :
  0 <= v < 4294967296 ->
  putInt v = [v mod 256; (v / 256) mod 256; (v / 65536) mod 256; v / 16777216].
Proof.
  intros Hv. unfold putInt, put, to_byte. cbn [app].
  assert (Hland : forall x, Z.land x 255 = x mod 256)
    by (intros x; exact (Z.land_ones x 8 ltac:(lia))).
  rewrite !Hland, !Z.shiftr_div_pow2 by lia.
  change (2 ^ 0) with 1. change (2 ^ 8) with 256.
  change (2 ^ 16) with 65536. change (2 ^ 24) with 16777216.
  rewrite Z.div_1_r, !Z.mod_mod by lia.
  rewrite (Z.mod_small (v / 16777216)); [reflexivity|].
  Z.to_euclidean_division_equations. lia.
Qed.

Lemma putShort_bytes v :
  0 <= v <= 65535 -> putShort v = [v mod 256; v / 256].
Proof.
  intros Hv. unfold putShort, put, to_byte. cbn [app].
  assert (Hland : forall x, Z.land x 255 = x mod 256)
    by (intros x; exact (Z.land_ones x 8 ltac:(lia))).
  rewrite !Hland, !Z.shiftr_div_pow2 by lia.
  change (2 ^ 0) with 1. change (2 ^ 8) with 256.
  rewrite Z.div_1_r, !Z.mod_mod by lia.
  rewrite (Z.mod_small (v / 256)); [reflexivity|].
  Z.to_euclidean_division_equations. lia.
Qed.

(** The file is the header of 26 bytes followed by the rows, the last row
    of the image first. *)
Lemma writeBMP_shape freshMCU header ms :
  0 < width header <= 65535 -> 0 < height header <= 65535 ->
  let size := (26 + height header * bmp_stride (width header)) mod 4294967296 in
  writeBMP freshMCU header ms true
  = Some ([66; 77; size mod 256; (size / 256) mod 256; (size / 65536) mod 256;
           size / 16777216; 0; 0; 0; 0; 26; 0; 0; 0; 12; 0; 0; 0;
           width header mod 256; width header / 256;
           height header mod 256; height header / 256; 1; 0; 24; 0]
          ++ flat_map (fun k => bmpRow freshMCU header ms (Z.of_nat k))
                      (rev (seq 0 (Z.to_nat (height header))))).
Proof.
  intros Hw Hh size. unfold writeBMP. cbn [negb]. cbv zeta.
  assert (Hsize : to_uint (14 + 12 + height header * width header * 3
                           + height header
                             * (to_uint (4 - to_uint (width header * 3) mod 4) mod 4))
                  = size).
  { subst size. unfold to_uint at 1. f_equal.
    rewrite <- (padding_stride _ Hw). lia. }
  rewrite Hsize.
  rewrite (putInt_bytes size) by (subst size; apply Z.mod_pos_bound; lia).
  rewrite (putShort_bytes (width header)), (putShort_bytes (height header)) by lia.
  reflexivity.
Qed.

Lemma writeBMP_length freshMCU header ms bytes :
  0 < width header <= 65535 -> 0 < height header <= 65535 ->
  writeBMP freshMCU header ms true = Some bytes ->
  Z.of_nat (length bytes) = 26 + height header * bmp_stride (width header).
Proof.
  intros Hw Hh. rewrite (writeBMP_shape freshMCU header ms Hw Hh). cbv zeta.
  intros [= <-].
  assert (Hstride : 0 <= bmp_stride (width header))
    by (unfold bmp_stride; Z.to_euclidean_division_equations; lia).
  cbn [app length].
  rewrite (length_flat_map_const _ (Z.to_nat (bmp_stride (width header))))
    by (intros; apply bmpRow_length, Hw).
  rewrite length_rev, length_seq. nia.
Qed.

(** X13: for a width and a height within 1 .. 65535, the file writeBMP
    writes has 26 + height * stride bytes, where the stride is three bytes
    per pixel rounded up to a multiple of four; it starts with 'B' 'M', and
    its header holds the file size (modulo 2^32), the pixel offset 26, the
    width and the height, all little-endian. *)
Theorem writeBMP_size freshMCU header ms bytes :
  0 < width header <= 65535 -> 0 < height header <= 65535 ->
  writeBMP freshMCU header ms true = Some bytes ->
  Z.of_nat (length bytes) = 26 + height header * bmp_stride (width header)
  /\ bmp_stride (width header) mod 4 = 0
  /\ nth 0 bytes 0 = 66 /\ nth 1 bytes 0 = 77
  /\ le32 bytes 2 = Z.of_nat (length bytes) mod 4294967296
  /\ le32 bytes 10 = 26
  /\ nth 18 bytes 0 + 256 * nth 19 bytes 0 = width header
  /\ nth 20 bytes 0 + 256 * nth 21 bytes 0 = height header.
Proof.
  intros Hw Hh Hrun.
  rewrite (writeBMP_length _ _ _ _ Hw Hh Hrun).
  rewrite (writeBMP_shape freshMCU header ms Hw Hh) in Hrun. cbv zeta in Hrun.
  injection Hrun as <-.
  set (size := (26 + height header * bmp_stride (width header)) mod 4294967296).
  assert (Hs : 0 <= size < 4294967296) by (apply Z.mod_pos_bound; lia).
  unfold le32. cbn [app nth Nat.add].
  split; [reflexivity|].
  split; [unfold bmp_stride; Z.to_euclidean_division_equations; lia|].
  split; [reflexivity|]. split; [reflexivity|].
  split; [Z.to_euclidean_division_equations; lia|].
  split; [reflexivity|].
  split; Z.to_euclidean_division_equations; lia.
Qed.

Lemma mcu_index_small header (i j : Z) :
  0 < width header <= 65535 -> 0 < height header <= 65535 ->
  0 <= i < height header -> 0 <= j < width header ->
  to_uint (i / 8 * (to_uint (width header + 7) / 8) + j / 8)
  = i / 8 * ((width header + 7) / 8) + j / 8
  /\ 0 <= i / 8 * ((width header + 7) / 8) + j / 8 < mcuCount header.
Proof.
  intros Hw Hh Hi Hj. unfold mcuCount, to_uint.
  rewrite (Z.mod_small (width header + 7)), (Z.mod_small (height header + 7))
    by lia.
  assert (Hi8 : 0 <= i / 8 < (height header + 7) / 8)
    by (Z.to_euclidean_division_equations; lia).
  assert (Hj8 : 0 <= j / 8 < (width header + 7) / 8)
    by (Z.to_euclidean_division_equations; lia).
  assert (Hmh : (height header + 7) / 8 <= 8192)
    by (Z.to_euclidean_division_equations; lia).
  assert (Hmw : (width header + 7) / 8 <= 8192)
    by (Z.to_euclidean_division_equations; lia).
  revert Hi8 Hj8 Hmh Hmw.
  generalize (i / 8) (j / 8) ((height header + 7) / 8) ((width header + 7) / 8).
  intros a c mh mw Ha Hc Hmh Hmw.
  assert (Hidx : 0 <= a * mw + c < mh * mw) by nia.
  assert (Hcount : mh * mw <= 67108864) by nia.
  rewrite !Z.mod_small by nia. split; [reflexivity|exact Hidx].
Qed.

(** The three bytes of the pixel [jn] of the row [i]. *)
Lemma bmpRow_pixel freshMCU header ms (i : Z) (jn c : nat) :
  0 < width header <= 65535 -> 0 < height header <= 65535 ->
  0 <= i < height header -> (jn < Z.to_nat (width header))%nat -> (c < 3)%nat ->
  let j := Z.of_nat jn in
  let m := mcu_at freshMCU ms
             (Z.to_nat (i / 8 * ((width header + 7) / 8) + j / 8)) in
  let p := Z.to_nat (i mod 8 * 8 + j mod 8) in
  nth (jn * 3 + c) (bmpRow freshMCU header ms i) 0
  = nth c [to_byte (nth p (b m) 0); to_byte (nth p (g m) 0);
           to_byte (nth p (r m) 0)] 0.
Proof.
  intros Hw Hh Hi Hj Hc. cbv zeta. unfold bmpRow. cbv zeta.
  rewrite app_nth1.
  2:{ rewrite (length_flat_map_const _ 3) by (intros; reflexivity).
      rewrite length_seq. lia. }
  rewrite (nth_flat_map_const _ 3 0%nat) by
    ((intros; reflexivity) || (rewrite ?length_seq; lia)).
  rewrite seq_nth by exact Hj. cbn [Nat.add].
  destruct (mcu_index_small header i (Z.of_nat jn) Hw Hh Hi ltac:(lia)) as [-> _].
  reflexivity.
Qed.

(** X14: the layout of the pixels.  The rows are written bottom-up, each
    [stride] bytes long; the pixel of the row [i] and the column [j] is the
    sample [(i mod 8) * 8 + j mod 8] of the MCU
    [(i / 8) * mcuWidth + j / 8], written as the bytes B, G, R. *)
Theorem writeBMP_pixel freshMCU header ms bytes (i j : Z) :
  0 < width header <= 65535 -> 0 < height header <= 65535 ->
  writeBMP freshMCU header ms true = Some bytes ->
  0 <= i < height header -> 0 <= j < width header ->
  let m := mcu_at freshMCU ms
             (Z.to_nat (i / 8 * ((width header + 7) / 8) + j / 8)) in
  let p := Z.to_nat (i mod 8 * 8 + j mod 8) in
  let o := Z.to_nat (26 + (height header - 1 - i) * bmp_stride (width header)
                     + 3 * j) in
  nth o bytes 0 = to_byte (nth p (b m) 0)
  /\ nth (o + 1) bytes 0 = to_byte (nth p (g m) 0)
  /\ nth (o + 2) bytes 0 = to_byte (nth p (r m) 0).
Proof.
  intros Hw Hh Hrun Hi Hj. cbv zeta.
  rewrite (writeBMP_shape freshMCU header ms Hw Hh) in Hrun. cbv zeta in Hrun.
  apply (f_equal (fun o => match o with Some l => l | None => [] end)) in Hrun.
  cbv beta iota in Hrun. subst bytes.
  assert (Hstride : 3 * width header <= bmp_stride (width header))
    by (unfold bmp_stride; Z.to_euclidean_division_equations; lia).
  assert (Hbyte : forall c, (c < 3)%nat ->
    nth (Z.to_nat (26 + (height header - 1 - i) * bmp_stride (width header)
                   + 3 * j) + c)
        ([66; 77;
          ((26 + height header * bmp_stride (width header)) mod 4294967296) mod 256;
          ((26 + height header * bmp_stride (width header)) mod 4294967296 / 256)
            mod 256;
          ((26 + height header * bmp_stride (width header)) mod 4294967296 / 65536)
            mod 256;
          (26 + height header * bmp_stride (width header)) mod 4294967296
            / 16777216;
          0; 0; 0; 0; 26; 0; 0; 0; 12; 0; 0; 0;
          width header mod 256; width header / 256;
          height header mod 256; height header / 256; 1; 0; 24; 0]
         ++ flat_map (fun k => bmpRow freshMCU header ms (Z.of_nat k))
                     (rev (seq 0 (Z.to_nat (height header))))) 0
    = nth c [to_byte (nth (Z.to_nat (i mod 8 * 8 + j mod 8))
                        (b (mcu_at freshMCU ms
                              (Z.to_nat (i / 8 * ((width header + 7) / 8) + j / 8))))
                        0);
             to_byte (nth (Z.to_nat (i mod 8 * 8 + j mod 8))
                        (g (mcu_at freshMCU ms
                              (Z.to_nat (i / 8 * ((width header + 7) / 8) + j / 8))))
                        0);
             to_byte (nth (Z.to_nat (i mod 8 * 8 + j mod 8))
                        (r (mcu_at freshMCU ms
                              (Z.to_nat (i / 8 * ((width header + 7) / 8) + j / 8))))
                        0)] 0).
  { intros c Hc.
    replace (Z.to_nat (26 + (height header - 1 - i) * bmp_stride (width header)
                       + 3 * j) + c)%nat
      with (26 + (Z.to_nat (height header - 1 - i)
                  * Z.to_nat (bmp_stride (width header))
                  + (Z.to_nat j * 3 + c)))%nat by nia.
    match goal with
    | |- nth (26 + ?k) (?hdr ++ ?rows) 0 = ?rhs =>
        change (nth (length hdr + k) (hdr ++ rows) 0 = rhs)
    end.
    rewrite app_nth2_plus.
    rewrite (nth_flat_map_const _ (Z.to_nat (bmp_stride (width header))) 0%nat)
      by ((intros; apply bmpRow_length, Hw)
          || (rewrite ?length_rev, ?length_seq; lia)).
    rewrite rev_nth by (rewrite length_seq; lia).
    rewrite length_seq, seq_nth by lia.
    replace (Z.of_nat (0 + (Z.to_nat (height header)
                            - S (Z.to_nat (height header - 1 - i)))))
      with i by lia.
    rewrite (bmpRow_pixel freshMCU header ms i (Z.to_nat j) c Hw Hh Hi)
      by lia.
    cbv zeta. rewrite Z2Nat.id by lia. reflexivity. }
  pose proof (Hbyte 0%nat ltac:(lia)) as H0. rewrite Nat.add_0_r in H0.
  split; [exact H0|].
  split; [exact (Hbyte 1%nat ltac:(lia))|exact (Hbyte 2%nat ltac:(lia))].
Qed.

(** X15: for a width and a height within 1 .. 65535, writeBMP reads
    only MCUs of the array of [mcuCount] elements: what lies outside the
    array has no influence on the file. *)
Theorem writeBMP_reads_in_bounds fresh1 fresh2 header ms opens :
  0 < width header <= 65535 -> 0 < height header <= 65535 ->
  length ms = Z.to_nat (mcuCount header) ->
  writeBMP fresh1 header ms opens = writeBMP fresh2 header ms opens.
Proof.
  intros Hw Hh Hlen. unfold writeBMP. destruct opens; [|reflexivity].
  cbn [negb]. cbv zeta. do 11 f_equal.
  apply flat_map_ext_in. intros k Hk.
  apply in_rev, in_seq in Hk. unfold bmpRow. cbv zeta. f_equal.
  apply flat_map_ext_in. intros jn Hjn. apply in_seq in Hjn.
  destruct (mcu_index_small header (Z.of_nat k) (Z.of_nat jn) Hw Hh
              ltac:(lia) ltac:(lia)) as [-> Hidx].
  unfold mcu_at.
  rewrite (nth_indep ms fresh1 fresh2) by lia. reflexivity.
Qed.

(** ** The whole program *)

Lemma finishMCU_mcus header processed rd ms pY pCb pCr :
  mcus (finishMCU header processed rd ms pY pCb pCr) = ms.
Proof. unfold finishMCU. destruct (_ && _); reflexivity. Qed.

Lemma decodeMCU_count freshMCU header dcCodes acCodes i st st' :
  decodeMCU freshMCU header dcCodes acCodes i st = Some st' ->
  length (mcus st') = length (mcus st).
Proof.
  unfold decodeMCU. cbv zeta.
  destruct (decodeComponent _ _ _ (component_at header 0) _ _ _)
    as [[[|] yv] rd]; [|discriminate].
  destruct (numComponents header =? 3).
  - destruct (decodeComponent _ _ _ (component_at header 1) _ _ _)
      as [[[|] cbv'] rd1]; [|discriminate].
    destruct (decodeComponent _ _ _ (component_at header 2) _ _ _)
      as [[[|] crv] rd2]; [|discriminate].
    intros [= <-]. rewrite finishMCU_mcus. apply length_insert.
  - intros [= <-]. rewrite finishMCU_mcus. apply length_insert.
Qed.

Lemma decodeMCUs_count freshMCU header dcCodes acCodes n : forall i st st',
  decodeMCUs freshMCU header dcCodes acCodes n i st = Some st' ->
  length (mcus st') = length (mcus st).
Proof.
  induction n as [|n IH]; intros i st st'; cbn [decodeMCUs].
  - intros [= <-]. reflexivity.
  - destruct (decodeMCU freshMCU header dcCodes acCodes i st) as [st1|] eqn:H1;
      [|discriminate].
    intros H. rewrite (IH _ _ _ H). exact (decodeMCU_count _ _ _ _ _ _ _ H1).
Qed.

Lemma decodeHuffmanData_count freshMCU header alloc ms :
  decodeHuffmanData freshMCU header alloc = Some ms ->
  length ms = Z.to_nat (mcuCount header).
Proof.
  unfold decodeHuffmanData. destruct (negb alloc); [discriminate|]. cbv zeta.
  destruct (decodeMCUs _ _ _ _ _ _ _) as [st|] eqn:H; [|discriminate].
  intros [= <-]. rewrite (decodeMCUs_count _ _ _ _ _ _ _ _ H).
  unfold initialState. cbn [mcus]. apply length_replicate.
Qed.

(** X16: the outcomes of main.  The exit code is 1, and then no BMP is
    written, or it is 0: then there were two arguments, readJPG returned a
    baseline header, the whole scan was decoded into [mcuCount] MCUs, and
    the BMP, written only if the output file opens, has
    26 + height * stride bytes. *)
Theorem main_outcome freshMCU idctMap e code bmp :
  main freshMCU idctMap e = Some (code, bmp) ->
  (code = 1 /\ bmp = None)
  \/ (code = 0 /\ argc e = 2
      /\ exists header ms,
           readJPG (input e) (header_alloc e) = Hdr header
           /\ baseline_header header
           /\ decodeHuffmanData freshMCU header (mcus_alloc e) = Some ms
           /\ length ms = Z.to_nat (mcuCount header)
           /\ (output_opens e = false -> bmp = None)
           /\ (output_opens e = true ->
               exists bytes,
                 bmp = Some bytes
                 /\ Z.of_nat (length bytes)
                    = 26 + height header * bmp_stride (width header))).
Proof.
  unfold main.
  destruct (Z.eqb_spec (argc e) 2) as [Hargc|_]; cbn [negb];
    [|intros [= <- <-]; left; split; reflexivity].
  destruct (readJPG (input e) (header_alloc e)) as [|header|idx|] eqn:Hread;
    try discriminate; [intros [= <- <-]; left; split; reflexivity|].
  destruct (valid header) eqn:Hvalid; cbn [negb];
    [|intros [= <- <-]; left; split; reflexivity].
  destruct (decodeHuffmanData freshMCU header (mcus_alloc e)) as [ms|] eqn:Hdec;
    [|intros [= <- <-]; left; split; reflexivity].
  cbv zeta. intros [= <- <-]. right.
  pose proof (valid_header_is_baseline _ _ _ Hread Hvalid) as Hbase.
  split; [reflexivity|]. split; [exact Hargc|].
  exists header, ms. split; [reflexivity|]. split; [exact Hbase|].
  split; [exact Hdec|].
  split; [exact (decodeHuffmanData_count _ _ _ _ Hdec)|].
  destruct Hbase as (_ & Hh & Hw & _).
  split.
  - intros ->. reflexivity.
  - intros ->.
    destruct (writeBMP freshMCU header
                (YCbCrToRGB header
                   (inverseDCT idctMap header (dequantize header ms))) true)
      as [bytes|] eqn:Hout; [|discriminate Hout].
    exists bytes. split; [reflexivity|].
    exact (writeBMP_length _ _ _ _ Hw Hh Hout).
Qed.

Lemma dequantize_pointwise_witness :
  nth (zz (Z.of_nat 3))
      (dequantizeMCUComponent (mkQTable (replicate 64 2) true) (replicate 64 5)) 0
  = to_int (nth (zz (Z.of_nat 3)) (replicate 64 5) 0
            * nth 3 (q_table (mkQTable (replicate 64 2) true)) 0)
  /\ (-32768 <= nth (zz (Z.of_nat 3)) (replicate 64 5) 0 <= 32767 ->
      0 <= nth 3 (q_table (mkQTable (replicate 64 2) true)) 0 <= 65535 ->
      nth (zz (Z.of_nat 3))
          (dequantizeMCUComponent (mkQTable (replicate 64 2) true)
             (replicate 64 5)) 0
      = nth (zz (Z.of_nat 3)) (replicate 64 5) 0
        * nth 3 (q_table (mkQTable (replicate 64 2) true)) 0).
Proof.
  apply (dequantize_pointwise (mkQTable (replicate 64 2) true) (replicate 64 5) 3);
    [reflexivity|lia].
Defined.

Lemma rgb_in_range_witness :
  0 <= nth 0 (r (YCbCrToRGB_MCU zeroMCU)) 0 <= 255
  /\ 0 <= nth 0 (g (YCbCrToRGB_MCU zeroMCU)) 0 <= 255
  /\ 0 <= nth 0 (b (YCbCrToRGB_MCU zeroMCU)) 0 <= 255.
Proof.
  apply (rgb_in_range zeroMCU 0); (reflexivity || lia).
Defined.

Lemma writeBMP_size_witness :
  Z.of_nat (length tiny_bmp) = 26 + height tiny_header * bmp_stride (width tiny_header)
  /\ bmp_stride (width tiny_header) mod 4 = 0
  /\ nth 0 tiny_bmp 0 = 66 /\ nth 1 tiny_bmp 0 = 77
  /\ le32 tiny_bmp 2 = Z.of_nat (length tiny_bmp) mod 4294967296
  /\ le32 tiny_bmp 10 = 26
  /\ nth 18 tiny_bmp 0 + 256 * nth 19 tiny_bmp 0 = width tiny_header
  /\ nth 20 tiny_bmp 0 + 256 * nth 21 tiny_bmp 0 = height tiny_header.
Proof.
  apply (writeBMP_size zeroMCU tiny_header [zeroMCU] tiny_bmp);
    vm_compute; (reflexivity || (split; (discriminate || reflexivity))).
Defined.

Lemma writeBMP_pixel_witness :
  let m := mcu_at zeroMCU [zeroMCU]
             (Z.to_nat (1 / 8 * ((width tiny_header + 7) / 8) + 2 / 8)) in
  let p := Z.to_nat (1 mod 8 * 8 + 2 mod 8) in
  let o := Z.to_nat (26 + (height tiny_header - 1 - 1)
                          * bmp_stride (width tiny_header) + 3 * 2) in
  nth o tiny_bmp 0 = to_byte (nth p (b m) 0)
  /\ nth (o + 1) tiny_bmp 0 = to_byte (nth p (g m) 0)
  /\ nth (o + 2) tiny_bmp 0 = to_byte (nth p (r m) 0).
Proof.
  apply (writeBMP_pixel zeroMCU tiny_header [zeroMCU] tiny_bmp 1 2);
    vm_compute; (reflexivity || (split; (discriminate || reflexivity))).
Defined.

Lemma writeBMP_reads_in_bounds_witness :
  writeBMP zeroMCU tiny_header [zeroMCU] true
  = writeBMP (mkMCU [] [] []) tiny_header [zeroMCU] true.
Proof.
  apply (writeBMP_reads_in_bounds zeroMCU (mkMCU [] [] []) tiny_header
           [zeroMCU] true);
    vm_compute; (reflexivity || (split; (discriminate || reflexivity))).
Defined.

Lemma main_outcome_witness :
  (0 = 1 /\ @None (list Z) = None)
  \/ (0 = 0 /\ argc (mkEnv 2 (Some tiny_jpg) true true false) = 2
      /\ exists header ms,
           readJPG (Some tiny_jpg) true = Hdr header
           /\ baseline_header header
           /\ decodeHuffmanData zeroMCU header true = Some ms
           /\ length ms = Z.to_nat (mcuCount header)
           /\ (false = false -> @None (list Z) = None)
           /\ (false = true ->
               exists bytes,
                 @None (list Z) = Some bytes
                 /\ Z.of_nat (length bytes)
                    = 26 + height header * bmp_stride (width header))).
Proof.
  apply (main_outcome zeroMCU idctMap_ref
           (mkEnv 2 (Some tiny_jpg) true true false) 0 None).
  vm_compute. reflexivity.
Defined.

(** ** Segments *)

Lemma get_cons c tl : get (mkStream (c :: tl) false) = (byte_val c, mkStream tl false).
Proof. reflexivity. Qed.

Lemma get16_cons hi lo tl :
  get16 (mkStream (hi :: lo :: tl) false)
  = (256 * byte_val hi + byte_val lo, mkStream tl false).
Proof.
  unfold get16. rewrite !get_cons.
  pose proof (byte_val_range hi).
  rewrite Z.shiftl_mul_pow2 by lia. change (2 ^ 8) with 256.
  f_equal. lia.
Qed.

Lemma skip_exact payload rest :
  Z.of_nat (length payload) < 4294967296 ->
  skip (to_uint (Z.of_nat (length payload))) (mkStream (payload ++ rest) false)
  = mkStream rest false.
Proof.
  intros Hlen. unfold skip, to_uint. cbn [failbit pending].
  rewrite Z.mod_small by lia.
  destruct (Z.leb_spec (Z.of_nat (length payload)) 0) as [H0|Hpos].
  - destruct payload; [reflexivity|cbn in H0; lia].
  - rewrite length_app.
    destruct (Z.leb_spec (Z.of_nat (length payload))
                (Z.of_nat (length payload + length rest))); [|lia].
    rewrite Nat2Z.id, drop_app_length. reflexivity.
Qed.

(** X17: readAPPN and readComment skip exactly the segment: after the two
    length bytes they consume the [length - 2] bytes of the payload and
    leave the header as it is. *)
Theorem segment_skipped hi lo payload rest h :
  Z.of_nat (length payload) = 256 * byte_val hi + byte_val lo - 2 ->
  readAPPN (mkStream (hi :: lo :: payload ++ rest) false) h
  = (mkStream rest false, h)
  /\ readComment (mkStream (hi :: lo :: payload ++ rest) false) h
     = (mkStream rest false, h).
Proof.
  intros Hlen. unfold readAPPN, readComment. rewrite get16_cons.
  pose proof (byte_val_range hi). pose proof (byte_val_range lo).
  assert (E : to_uint (256 * byte_val hi + byte_val lo) - 2
              = Z.of_nat (length payload)).
  { unfold to_uint. rewrite Z.mod_small by lia. lia. }
  rewrite E, skip_exact by lia. split; reflexivity.
Qed.

Lemma skip_short hi lo tl h :
  256 * byte_val hi + byte_val lo < 2 ->
  Z.of_nat (length tl) < 4294967294 ->
  readAPPN (mkStream (hi :: lo :: tl) false) h = (mkStream [] true, h)
  /\ readComment (mkStream (hi :: lo :: tl) false) h = (mkStream [] true, h).
Proof.
  intros Hshort Hlen. unfold readAPPN, readComment. rewrite get16_cons.
  pose proof (byte_val_range hi). pose proof (byte_val_range lo).
  assert (E : to_uint (to_uint (256 * byte_val hi + byte_val lo) - 2)
              = 4294967294 + (256 * byte_val hi + byte_val lo)).
  { unfold to_uint. rewrite (Z.mod_small (256 * _ + _)) by lia.
    assert (Hc : 256 * byte_val hi + byte_val lo = 0
                 \/ 256 * byte_val hi + byte_val lo = 1) by lia.
    destruct Hc as [-> | ->]; reflexivity. }
  rewrite E. unfold skip. cbn [failbit pending].
  destruct (Z.leb_spec (4294967294 + (256 * byte_val hi + byte_val lo)) 0); [lia|].
  destruct (Z.leb_spec (4294967294 + (256 * byte_val hi + byte_val lo))
              (Z.of_nat (length tl))); [lia|].
  split; reflexivity.
Qed.

Lemma skipped_step s c h :
  valid h = true -> failbit s = false -> skipped_marker c = true ->
  markerStep s 255 c h = nextMarker (readAPPN s h).
Proof.
  intros Hv Hf Hm. unfold markerStep. rewrite Hv, Hf. cbn [negb].
  change (255 =? 255) with true. cbn [negb].
  assert (Hsame : readComment s h = readAPPN s h) by reflexivity.
  unfold skipped_marker, in_range in Hm.
  unfold in_range.
  destruct (Z.eqb_spec c SOF0); [subst; discriminate Hm|].
  destruct (Z.eqb_spec c DQT); [subst; discriminate Hm|].
  destruct (Z.eqb_spec c DHT); [subst; discriminate Hm|].
  destruct (Z.eqb_spec c SOS); [subst; discriminate Hm|].
  destruct (Z.eqb_spec c DRI); [subst; discriminate Hm|].
  destruct ((APP0 <=? c) && (c <=? APP15)); [reflexivity|].
  destruct (c =? COM); [rewrite Hsame; reflexivity|].
  cbn [orb] in Hm. rewrite Hm, Hsame. reflexivity.
Qed.

(** X18: a skipped segment (APPn, COM, JPGn, DNL, DHP, EXP) whose length
    field is 0 or 1 makes readJPG reject the file, whatever follows: the
    unsigned [length - 2] wraps, the skip runs to the end of the file, and
    the next pass of the marker loop returns the header with [valid]
    false.  (The file is shorter than 4 GiB.) *)
Theorem short_segment_rejected (rest : list byte) (n : nat) (c : Z) (h : Header)
    (hi lo : byte) (tl : list byte) :
  markerPasses n (entryStream rest) (entryLast rest) (entryCurrent rest) newHeader
  = Some (mkStream (hi :: lo :: tl) false, 255, c, h) ->
  valid h = true -> skipped_marker c = true ->
  256 * byte_val hi + byte_val lo < 2 ->
  Z.of_nat (length tl) < 4294967294 ->
  readJPG (Some (xff :: xd8 :: rest)) true = Hdr (invalid h).
Proof.
  intros Hpasses Hv Hm Hshort Hlen.
  destruct (readJPG_from_pass _ _ _ _ _ _ Hpasses eq_refl) as [fuel ->].
  cbn [readMarkers].
  rewrite (skipped_step (mkStream (hi :: lo :: tl) false) c h Hv eq_refl Hm).
  rewrite (proj1 (skip_short hi lo tl h Hshort Hlen)).
  unfold nextMarker. cbn [get_byte get failbit fst snd].
  destruct fuel; cbn [readMarkers]; unfold markerStep; rewrite Hv; reflexivity.
Qed.

Lemma get_many_bytes cast vals rest :
  get_many cast (length vals) (mkStream (vals ++ rest) false)
  = (map (fun c => cast (byte_val c)) vals, mkStream rest false).
Proof.
  induction vals as [|c vals IH]; [reflexivity|].
  cbn [length app get_many map]. rewrite get_cons, IH. reflexivity.
Qed.

Lemma dqtLoop_done fuel s h : dqtLoop fuel 0 s h = (s, h).
Proof. destruct fuel; reflexivity. Qed.

Lemma table_info_small t :
  0 <= t <= 3 -> Z.land t 15 = t /\ Z.shiftr t 4 = 0.
Proof.
  intros Ht.
  assert (Hc : t = 0 \/ t = 1 \/ t = 2 \/ t = 3) by lia.
  destruct Hc as [-> | [-> | [-> | ->]]]; split; reflexivity.
Qed.

(** X19: readQuantizationTable on a DQT segment that holds one table of
    8-bit entries (length 67, table ID up to 3) stores the 64 bytes in file
    order in that table, marks it set, leaves the other tables and
    [valid] alone and consumes exactly the segment. *)
Theorem dqt_round_trip (info : byte) (vals rest : list byte) (h : Header) :
  0 <= byte_val info <= 3 -> length vals = 64%nat ->
  readQuantizationTable
    (mkStream (x00 :: x43 :: info :: vals ++ rest) false) h
  = (mkStream rest false,
     set_quantizationTables
       (alter (fun _ => mkQTable (map byte_val vals) true)
              (Z.to_nat (byte_val info)) (quantizationTables h)) h).
Proof.
  intros Hinfo Hlen. unfold readQuantizationTable. rewrite get16_cons.
  change (256 * byte_val x00 + byte_val x43 - 2) with 65.
  change (Z.to_nat 65) with (S (Z.to_nat 64)). cbn [dqtLoop].
  change (65 <=? 0) with false. cbv iota.
  unfold get_byte at 1. rewrite get_cons.
  destruct (table_info_small _ Hinfo) as [Hid Hprec].
  assert (Hb : to_byte (byte_val info) = byte_val info)
    by (unfold to_byte; apply Z.mod_small; lia).
  rewrite Hb, Hid, Hprec. change (0 =? 0) with true. cbn [negb].
  destruct (Z.ltb_spec 3 (byte_val info)) as [H|_]; [lia|].
  rewrite <- Hlen, get_many_bytes.
  change (65 - 1 - 64) with 0. rewrite dqtLoop_done.
  f_equal. unfold set_quantizationTables. cbn [quantizationTables].
  rewrite list_alter_alter_eq. f_equal.
  assert (Hm : map (fun c => to_u16 (byte_val c)) vals = map byte_val vals).
  { apply map_ext. intros c. pose proof (byte_val_range c).
    unfold to_u16. apply Z.mod_small. lia. }
  rewrite Hm. reflexivity.
Qed.

Lemma dhtOffsets_bytes counts rest : forall acc,
  dhtOffsets (length counts) acc (mkStream (counts ++ rest) false)
  = (running_sums acc (map byte_val counts),
     fold_left (fun a v => to_uint (a + v)) (map byte_val counts) acc,
     mkStream rest false).
Proof.
  induction counts as [|c counts IH]; intros acc; [reflexivity|].
  cbn [length app dhtOffsets map running_sums fold_left].
  rewrite get_cons, IH. reflexivity.
Qed.

Lemma fold_sum_bytes (l : list byte) : forall acc,
  0 <= acc -> acc + 255 * Z.of_nat (length l) < 4294967296 ->
  fold_left (fun a v => to_uint (a + v)) (map byte_val l) acc
  = fold_left Z.add (map byte_val l) acc
  /\ acc <= fold_left Z.add (map byte_val l) acc
     <= acc + 255 * Z.of_nat (length l).
Proof.
  induction l as [|c l IH]; intros acc Hacc Hfit; cbn [map fold_left length].
  - split; [reflexivity|lia].
  - pose proof (byte_val_range c) as Hc.
    cbn [length] in Hfit. rewrite Nat2Z.inj_succ in Hfit.
    unfold to_uint at 2. rewrite Z.mod_small by lia.
    destruct (IH (acc + byte_val c) ltac:(lia) ltac:(lia)) as [IH1 IH2].
    split; [exact IH1|]. rewrite Nat2Z.inj_succ. lia.
Qed.

Lemma dhtLoop_done fuel s h : dhtLoop fuel 0 s h = (s, h).
Proof. destruct fuel; reflexivity. Qed.

(** X20: readHuffmanTable on a DHT segment that holds one table (class
    0 or 1, ID up to 3, sixteen counts whose sum [total] is at most 162,
    [total] symbols, length [19 + total]) stores in the DC or AC table of
    that ID the offsets 0 and the running sums of the counts, and the
    symbols in file order, marks it set and consumes exactly the
    segment. *)
Theorem dht_round_trip (hi lo info : byte) (counts syms rest : list byte)
    (h : Header) (cls t : Z) :
  let total := fold_left Z.add (map byte_val counts) 0 in
  let tables := if cls =? 1 then huffmanACTables h else huffmanDCTables h in
  let store ts :=
    if cls =? 1 then set_huffmanACTables ts h else set_huffmanDCTables ts h in
  length counts = 16%nat -> total <= 162 -> Z.of_nat (length syms) = total ->
  256 * byte_val hi + byte_val lo = 19 + total ->
  (cls = 0 \/ cls = 1) -> 0 <= t <= 3 -> byte_val info = 16 * cls + t ->
  readHuffmanTable
    (mkStream (hi :: lo :: info :: counts ++ syms ++ rest) false) h
  = (mkStream rest false,
     store (<[Z.to_nat t :=
               mkHTable (0 :: running_sums 0 (map byte_val counts))
                        (map byte_val syms
                         ++ drop (length syms)
                              (symbols (nth (Z.to_nat t) tables newHTable)))
                        true]> tables)).
Proof.
  intros total tables store Hcounts Htotal Hsyms Hlen Hcls Ht Hinfo.
  destruct (fold_sum_bytes counts 0 (Z.le_refl 0)
              ltac:(rewrite Hcounts; cbn; lia)) as [Hsum Hrange].
  fold total in Hsum, Hrange.
  unfold readHuffmanTable. rewrite get16_cons, Hlen.
  replace (19 + total - 2) with (17 + total) by lia.
  replace (Z.to_nat (17 + total)) with (S (Z.to_nat (16 + total))) by lia.
  cbn [dhtLoop].
  destruct (Z.leb_spec (17 + total) 0) as [H|_]; [lia|].
  unfold get_byte at 1. rewrite get_cons.
  assert (Hb : to_byte (byte_val info) = 16 * cls + t).
  { pose proof (byte_val_range info). unfold to_byte.
    rewrite Z.mod_small by lia. exact Hinfo. }
  rewrite Hb.
  assert (Hid : Z.land (16 * cls + t) 15 = t
                /\ negb (Z.shiftr (16 * cls + t) 4 =? 0) = (cls =? 1)).
  { assert (Hc : t = 0 \/ t = 1 \/ t = 2 \/ t = 3) by lia.
    destruct Hcls as [-> | ->]; destruct Hc as [-> | [-> | [-> | ->]]];
      split; reflexivity. }
  destruct Hid as [-> ->].
  destruct (Z.ltb_spec 3 t) as [H|_]; [lia|].
  rewrite <- Hcounts, dhtOffsets_bytes, Hsum.
  destruct (Z.ltb_spec 162 total) as [H|_]; [lia|].
  cbn [symbols offsets].
  replace (Z.to_nat total) with (length syms) by lia.
  rewrite get_many_bytes.
  replace (to_int (17 + total - (17 + total))) with 0
    by (replace (17 + total - (17 + total)) with 0 by lia; reflexivity).
  rewrite dhtLoop_done.
  assert (Hm : map (fun c => to_byte (byte_val c)) syms = map byte_val syms).
  { apply map_ext. intros c. pose proof (byte_val_range c).
    unfold to_byte. apply Z.mod_small. lia. }
  rewrite Hm. subst store tables. reflexivity.
Qed.

(** ** Huffman codes *)

Lemma first_code_nonneg t j :
  canonical_table t -> (j <= 16)%nat -> 0 <= first_code t j.
Proof.
  intros (_ & _ & Hc) Hj. induction j as [|j IH]; cbn [first_code]; [lia|].
  destruct (Hc j ltac:(lia)). specialize (IH ltac:(lia)). lia.
Qed.

Lemma offsets_mono t (j j' : nat) :
  canonical_table t -> (j <= j')%nat -> (j' <= 16)%nat ->
  offset_at t (Z.of_nat j) <= offset_at t (Z.of_nat j').
Proof.
  intros (_ & _ & Hc) Hjj Hj'. induction j' as [|j' IH].
  - assert (j = 0)%nat as -> by lia. lia.
  - destruct (Nat.eq_dec j (S j')) as [->|Hne]; [lia|].
    specialize (IH ltac:(lia) ltac:(lia)).
    destruct (Hc j' ltac:(lia)) as [Hcount _]. unfold code_count in Hcount. lia.
Qed.

Lemma offsets_range t (j : nat) :
  canonical_table t -> (j <= 16)%nat ->
  0 <= offset_at t (Z.of_nat j) <= 162.
Proof.
  intros Hcan Hj.
  pose proof (offsets_mono t 0 j Hcan ltac:(lia) Hj) as H0.
  pose proof (offsets_mono t j 16 Hcan Hj ltac:(lia)) as H16.
  destruct Hcan as (Hlo & Hhi & _).
  change (Z.of_nat 0) with 0 in H0. change (Z.of_nat 16) with 16 in H16. lia.
Qed.

Lemma assignCodes_spec n : forall k code codes,
  0 <= k -> k + Z.of_nat n <= Z.of_nat (length codes) ->
  0 <= code -> code + Z.of_nat n < 2147483648 ->
  fst (assignCodes n k code codes) = code + Z.of_nat n
  /\ length (snd (assignCodes n k code codes)) = length codes
  /\ forall i, 0 <= i ->
       nth (Z.to_nat i) (snd (assignCodes n k code codes)) 0
       = if (k <=? i) && (i <? k + Z.of_nat n) then code + (i - k)
         else nth (Z.to_nat i) codes 0.
Proof.
  induction n as [|n IH]; intros k code codes Hk Hfit Hcode Hsmall;
    cbn [assignCodes fst snd].
  - split; [lia|]. split; [reflexivity|]. intros i Hi.
    destruct (Z.leb_spec k i); destruct (Z.ltb_spec i (k + Z.of_nat 0));
      cbn [andb]; try reflexivity; lia.
  - rewrite Nat2Z.inj_succ in *.
    rewrite to_int_id by lia.
    destruct (IH (k + 1) (code + 1) (<[Z.to_nat k := code]> codes))
      as (Hfst & Hlen & Hnth); rewrite ?length_insert; try lia.
    split; [lia|]. split; [rewrite Hlen; apply length_insert|]. intros i Hi.
    rewrite (Hnth i Hi).
    destruct (Z.leb_spec (k + 1) i); destruct (Z.ltb_spec i (k + 1 + Z.of_nat n));
      destruct (Z.leb_spec k i); destruct (Z.ltb_spec i (k + Z.succ (Z.of_nat n)));
      cbn [andb]; try lia;
      try (rewrite nth_insert_ne by lia; reflexivity).
    assert (i = k) as -> by lia. rewrite nth_insert_eq by lia. lia.
Qed.

Lemma generateCodes_from_spec t m : forall (j : nat) codes,
  canonical_table t -> (j + m = 16)%nat -> length codes = 162%nat ->
  let res := generateCodes_from m (Z.of_nat j) t (first_code t j) codes in
  length res = 162%nat
  /\ (forall i, 0 <= i < offset_at t (Z.of_nat j) ->
        nth (Z.to_nat i) res 0 = nth (Z.to_nat i) codes 0)
  /\ (forall (j' : nat) i, (j <= j' < 16)%nat ->
        offset_at t (Z.of_nat j') <= i < offset_at t (Z.of_nat (S j')) ->
        nth (Z.to_nat i) res 0
        = first_code t j' + (i - offset_at t (Z.of_nat j'))).
Proof.
  induction m as [|m IH]; intros j codes Hcan Hjm Hlen; cbn zeta;
    cbn [generateCodes_from].
  - split; [exact Hlen|]. split; [reflexivity|]. intros j' i Hj'. lia.
  - pose proof (offsets_range t j Hcan ltac:(lia)) as Hoj.
    pose proof (offsets_range t (S j) Hcan ltac:(lia)) as Hoj1.
    pose proof (first_code_nonneg t j Hcan ltac:(lia)) as Hfirst.
    destruct Hcan as (Hlo & Hhi & Hc) eqn:Hcan_eq.
    destruct (Hc j ltac:(lia)) as [Hcount Hfits]. unfold code_count in Hcount, Hfits.
    assert (Hpow : 2 ^ Z.of_nat (S j) <= 2 ^ 16)
      by (apply Z.pow_le_mono_r; lia).
    change (2 ^ 16) with 65536 in Hpow.
    replace (Z.of_nat j + 1) with (Z.of_nat (S j)) by lia.
    destruct (assignCodes_spec
                (Z.to_nat (offset_at t (Z.of_nat (S j)) - offset_at t (Z.of_nat j)))
                (offset_at t (Z.of_nat j)) (first_code t j) codes)
      as (Hfst & Hlen1 & Hnth); try lia.
    destruct (assignCodes _ _ _ codes) as [code1 codes1]. cbn [fst snd] in *.
    rewrite Z2Nat.id in Hfst, Hnth by lia.
    assert (Hnext : to_int (Z.shiftl code1 1) = first_code t (S j)).
    { rewrite Z.shiftl_mul_pow2 by lia. change (2 ^ 1) with 2.
      rewrite to_int_id by lia. cbn [first_code]. unfold code_count. lia. }
    rewrite Hnext.
    destruct (IH (S j) codes1 (conj Hlo (conj Hhi Hc)) ltac:(lia)
                ltac:(congruence)) as (Hl & Ha & Hb).
    split; [exact Hl|]. split.
    + intros i Hi. rewrite Ha by lia. rewrite Hnth by lia.
      destruct (Z.leb_spec (offset_at t (Z.of_nat j)) i); [lia|reflexivity].
    + intros j' i Hj' Hi.
      destruct (Nat.eq_dec j' j) as [->|Hne].
      * rewrite Ha by lia. rewrite Hnth by lia.
        destruct (Z.leb_spec (offset_at t (Z.of_nat j)) i); [|lia].
        destruct (Z.ltb_spec i (offset_at t (Z.of_nat j)
                                + (offset_at t (Z.of_nat (S j))
                                   - offset_at t (Z.of_nat j)))); [|lia].
        reflexivity.
      * apply Hb; [lia|exact Hi].
Qed.

Lemma generateCodes_closed t codes (j : nat) (k : Z) :
  canonical_table t -> length codes = 162%nat -> (j < 16)%nat ->
  offset_at t (Z.of_nat j) <= k < offset_at t (Z.of_nat (S j)) ->
  nth (Z.to_nat k) (generateCodes t codes) 0
  = first_code t j + (k - offset_at t (Z.of_nat j)).
Proof.
  intros Hcan Hlen Hj Hk. unfold generateCodes.
  destruct (generateCodes_from_spec t 16 0 codes Hcan eq_refl Hlen)
    as (_ & _ & Hb).
  apply (Hb j k); [lia|exact Hk].
Qed.

(** X21: generateCodes assigns the canonical code.  For a table whose
    offsets grow within the 162 entries and whose codes fit their lengths,
    the code at the index [k] among the codes of [j + 1] bits is the first
    code of that length plus the distance of [k] from the first index,
    where the first code is 0 for one bit and otherwise twice the code
    after the last one of the length before. *)
Theorem generateCodes_canonical t codes (j : nat) (k : Z) :
  canonical_table t -> length codes = 162%nat -> (j < 16)%nat ->
  offset_at t (Z.of_nat j) <= k < offset_at t (Z.of_nat (S j)) ->
  nth (Z.to_nat k) (generateCodes t codes) 0
  = first_code t j + (k - offset_at t (Z.of_nat j)).
Proof. exact (generateCodes_closed t codes j k). Qed.

Lemma first_code_grows t (j' d : nat) :
  canonical_table t -> (j' + S d <= 16)%nat ->
  2 ^ Z.of_nat (S d) * (first_code t j' + code_count t j')
  <= first_code t (j' + S d).
Proof.
  intros Hcan. induction d as [|d IH]; intros Hj.
  - replace (j' + 1)%nat with (S j') by lia. cbn [first_code].
    change (2 ^ Z.of_nat 1) with 2. lia.
  - replace (j' + S (S d))%nat with (S (j' + S d)) by lia. cbn [first_code].
    specialize (IH ltac:(lia)).
    destruct Hcan as (_ & _ & Hc). destruct (Hc (j' + S d)%nat ltac:(lia)) as [Hn _].
    rewrite (Nat2Z.inj_succ (S d)), Z.pow_succ_r by lia. lia.
Qed.

Lemma findCode_miss cc codes t n : forall k,
  0 <= k ->
  (forall i, k <= i < k + Z.of_nat n -> nth (Z.to_nat i) codes 0 <> cc) ->
  findCode n k cc codes t = None.
Proof.
  induction n as [|n IH]; intros k Hk Hne; cbn [findCode]; [reflexivity|].
  destruct (Z.eqb_spec cc (nth (Z.to_nat k) codes 0)) as [E|_].
  - exfalso. apply (Hne k); [lia|]. symmetry. exact E.
  - apply IH; [lia|]. intros i Hi. apply Hne. lia.
Qed.

Lemma findCode_hit cc codes t n : forall k k0,
  0 <= k -> k <= k0 < k + Z.of_nat n ->
  nth (Z.to_nat k0) codes 0 = cc ->
  (forall i, k <= i < k0 -> nth (Z.to_nat i) codes 0 <> cc) ->
  findCode n k cc codes t = Some (nth (Z.to_nat k0) (symbols t) 0).
Proof.
  induction n as [|n IH]; intros k k0 Hk Hk0 Hhit Hne; [lia|]. cbn [findCode].
  destruct (Z.eqb_spec cc (nth (Z.to_nat k) codes 0)) as [E|Hn].
  - destruct (Z.eq_dec k k0) as [->|Hd]; [reflexivity|].
    exfalso. apply (Hne k); [lia|]. symmetry. exact E.
  - destruct (Z.eq_dec k k0) as [->|Hd]; [congruence|].
    apply IH; [lia|lia|exact Hhit|]. intros i Hi. apply Hne. lia.
Qed.

(** The bits still to read decide: a read that succeeds starts with a bit. *)
Lemma readBits_from_next data n acc b v b' :
  0 <= acc -> (acc + 1) * 2 ^ Z.of_nat (S n) <= 2147483648 ->
  readBits_from data (S n) acc b = (v, b') -> v <> -1 ->
  exists bit b1,
    readBit data b = (bit, b1) /\ (bit = 0 \/ bit = 1)
    /\ to_int (Z.lor (Z.shiftl acc 1) bit) = 2 * acc + bit
    /\ readBits_from data n (2 * acc + bit) b1 = (v, b').
Proof.
  intros Hacc Hfit. cbn [readBits_from].
  rewrite Nat2Z.inj_succ, Z.pow_succ_r in Hfit by lia.
  assert (Hpow : 0 < 2 ^ Z.of_nat n) by (apply Z.pow_pos_nonneg; lia).
  destruct (readBit_cases data b) as [[_ ->]|[_ Hbit]].
  { cbn. intros [= <- <-] H. contradiction. }
  destruct (readBit data b) as [bit b1]. cbn [fst] in Hbit.
  destruct (Z.eqb_spec bit (-1)) as [E|_]; [lia|].
  rewrite (lor_bit acc bit Hacc Hbit), to_int_id by nia.
  intros Hrun _. exists bit, b1.
  split; [reflexivity|]. split; [exact Hbit|].
  split; [|exact Hrun].
  rewrite (lor_bit acc bit Hacc Hbit), to_int_id by nia. reflexivity.
Qed.

Lemma lookupSymbol_hit data t codes0 (j : nat) (k v : Z) b' :
  canonical_table t -> length codes0 = 162%nat -> (j < 16)%nat ->
  offset_at t (Z.of_nat j) <= k < offset_at t (Z.of_nat (S j)) ->
  v = nth (Z.to_nat k) (generateCodes t codes0) 0 ->
  forall (d j' : nat) cc bj,
    (j' + d = j)%nat -> 0 <= cc < 2 ^ Z.of_nat (S j') ->
    readBits_from data d cc bj = (v, b') ->
    lookupSymbol data (16 - j') (Z.of_nat j') cc bj (generateCodes t codes0) t
    = (Some (nth (Z.to_nat k) (symbols t) 0), b').
Proof.
  intros Hcan Hlen Hj Hk Hv.
  assert (Hcodes : forall (j' : nat) i, (j' < 16)%nat ->
            offset_at t (Z.of_nat j') <= i < offset_at t (Z.of_nat (S j')) ->
            nth (Z.to_nat i) (generateCodes t codes0) 0
            = first_code t j' + (i - offset_at t (Z.of_nat j')))
    by (intros j0 i Hj0 Hi; exact (generateCodes_closed t codes0 j0 i Hcan Hlen Hj0 Hi)).
  assert (Hvk : v = first_code t j + (k - offset_at t (Z.of_nat j)))
    by (rewrite Hv; apply (Hcodes j k); [lia|exact Hk]).
  pose proof (first_code_nonneg t j Hcan ltac:(lia)) as Hfj.
  assert (Hv0 : v <> -1) by lia.
  induction d as [|d IH]; intros j' cc bj Hjd Hcc Hrun.
  - assert (j' = j) as -> by lia. cbn [readBits_from] in Hrun.
    injection Hrun as -> ->.
    replace (16 - j)%nat with (S (15 - j)) by lia. cbn [lookupSymbol].
    pose proof (offsets_range t j Hcan ltac:(lia)) as Hoj.
    replace (Z.of_nat j + 1) with (Z.of_nat (S j)) by lia.
    rewrite (findCode_hit v (generateCodes t codes0) t _ (offset_at t (Z.of_nat j)) k);
      [reflexivity|lia|lia|symmetry; exact Hv|].
    intros i Hi. rewrite (Hcodes j i) by lia. lia.
  - assert (Hj' : (j' < j)%nat) by lia.
    assert (Hp16 : 2 ^ Z.of_nat (S j) <= 2 ^ 16) by (apply Z.pow_le_mono_r; lia).
    change (2 ^ 16) with 65536 in Hp16.
    assert (Hsplit : 2 ^ Z.of_nat (S j) = 2 ^ Z.of_nat (S j') * 2 ^ Z.of_nat (S d)).
    { rewrite <- Z.pow_add_r by lia. f_equal. lia. }
    assert (Hpd : 0 < 2 ^ Z.of_nat (S d)) by (apply Z.pow_pos_nonneg; lia).
    assert (Hfit : (cc + 1) * 2 ^ Z.of_nat (S d) <= 2147483648) by nia.
    (* the prefix is past the codes of this length *)
    pose proof (readBits_from_acc data (S d) cc bj ltac:(lia) Hfit) as Hval.
    cbv zeta in Hval. rewrite Hrun in Hval.
    remember (readBits_from data (S d) 0 bj) as r eqn:Hr0. clear Hr0.
    destruct Hval as [[_ E]|[Hr E]]; injection E as Ev Eb; [contradiction|].
    pose proof (first_code_grows t j' d Hcan ltac:(lia)) as Hgrow.
    replace (j' + S d)%nat with j in Hgrow by lia.
    pose proof (offsets_range t j' Hcan ltac:(lia)) as Hoj'.
    pose proof (offsets_range t j Hcan ltac:(lia)) as Hoj.
    assert (Hpast : first_code t j' + code_count t j' <= cc).
    { destruct (Z.le_gt_cases (first_code t j' + code_count t j') cc) as [H|H];
        [exact H|exfalso].
      assert ((cc + 1) * 2 ^ Z.of_nat (S d)
              <= (first_code t j' + code_count t j') * 2 ^ Z.of_nat (S d))
        by (apply Z.mul_le_mono_nonneg_r; lia).
      cbn [fst] in Ev, Hr. lia. }
    replace (16 - j')%nat with (S (15 - j')) by lia. cbn [lookupSymbol].
    replace (Z.of_nat j' + 1) with (Z.of_nat (S j')) by lia.
    rewrite findCode_miss.
    2:{ lia. }
    2:{ intros i Hi. unfold code_count in Hpast.
        destruct Hcan as (? & ? & Hc). destruct (Hc j' ltac:(lia)) as [Hn _].
        unfold code_count in Hn. rewrite Z2Nat.id in Hi by lia.
        rewrite (Hcodes j' i) by lia. lia. }
    destruct (readBits_from_next data d cc bj v b' ltac:(lia) Hfit Hrun Hv0)
      as (bit & b1 & -> & Hbit & -> & Hrest).
    replace (15 - j')%nat with (16 - S j')%nat by lia.
    apply IH; [lia| |exact Hrest].
    rewrite (Nat2Z.inj_succ (S j')), Z.pow_succ_r by lia. lia.
Qed.

(** X22: decoding inverts the code.  For such a table, if the next
    [j + 1] bits of the data are the code generateCodes gave the index [k]
    among the codes of that length, getNextSymbol returns the symbol at
    [k] and leaves the reader right behind those bits: no shorter code
    matches a prefix. *)
Theorem huffman_round_trip data t codes0 (j : nat) (k : Z) b b' :
  canonical_table t -> length codes0 = 162%nat -> (j < 16)%nat ->
  offset_at t (Z.of_nat j) <= k < offset_at t (Z.of_nat (S j)) ->
  readBits data (Z.of_nat (S j)) b
  = (nth (Z.to_nat k) (generateCodes t codes0) 0, b') ->
  getNextSymbol data b (generateCodes t codes0) t
  = (nth (Z.to_nat k) (symbols t) 0, b').
Proof.
  intros Hcan Hlen Hj Hk Hrun. unfold readBits in Hrun.
  rewrite Nat2Z.id in Hrun.
  assert (Hcodes : forall (j' : nat) i, (j' < 16)%nat ->
            offset_at t (Z.of_nat j') <= i < offset_at t (Z.of_nat (S j')) ->
            nth (Z.to_nat i) (generateCodes t codes0) 0
            = first_code t j' + (i - offset_at t (Z.of_nat j')))
    by (intros j0 i Hj0 Hi; exact (generateCodes_closed t codes0 j0 i Hcan Hlen Hj0 Hi)).
  pose proof (first_code_nonneg t j Hcan ltac:(lia)) as Hfj.
  assert (Hv0 : nth (Z.to_nat k) (generateCodes t codes0) 0 <> -1)
    by (rewrite (Hcodes j k) by lia; lia).
  assert (Hp16 : 2 ^ Z.of_nat (S j) <= 2 ^ 16) by (apply Z.pow_le_mono_r; lia).
  change (2 ^ 16) with 65536 in Hp16.
  destruct (readBits_from_next data j 0 b _ b' (Z.le_refl 0) ltac:(lia) Hrun Hv0)
    as (bit & b1 & Hbit1 & Hbit & _ & Hrest).
  unfold getNextSymbol. rewrite Hbit1.
  change 16%nat with (16 - 0)%nat. change 0 with (Z.of_nat 0) at 1.
  rewrite (lookupSymbol_hit data t codes0 j k _ b' Hcan Hlen Hj Hk eq_refl
             j 0%nat bit b1 ltac:(lia)); [reflexivity| |exact Hrest].
  change (2 ^ Z.of_nat 1) with 2. lia.
Qed.

Lemma segment_skipped_witness :
  readAPPN (mkStream (x00 :: x04 :: [x41; x42] ++ [xff]) false) newHeader
  = (mkStream [xff] false, newHeader)
  /\ readComment (mkStream (x00 :: x04 :: [x41; x42] ++ [xff]) false) newHeader
     = (mkStream [xff] false, newHeader).
Proof.
  apply (segment_skipped x00 x04 [x41; x42] [xff] newHeader). reflexivity.
Defined.

Lemma short_segment_rejected_witness :
  readJPG (Some (xff :: xd8 :: [xff; xe0; x00; x01; x05])) true
  = Hdr (invalid newHeader).
Proof.
  apply (short_segment_rejected [xff; xe0; x00; x01; x05] 0 224 newHeader
           x00 x01 [x05]);
    try reflexivity; simpl; lia.
Defined.

Lemma dqt_round_trip_witness :
  readQuantizationTable
    (mkStream (x00 :: x43 :: x01 :: replicate 64 x07 ++ [xff]) false) newHeader
  = (mkStream [xff] false,
     set_quantizationTables
       (alter (fun _ => mkQTable (map byte_val (replicate 64 x07)) true)
              (Z.to_nat (byte_val x01)) (quantizationTables newHeader))
       newHeader).
Proof.
  apply (dqt_round_trip x01 (replicate 64 x07) [xff] newHeader);
    [vm_compute; split; discriminate|reflexivity].
Defined.

Lemma dht_round_trip_witness :
  readHuffmanTable
    (mkStream (x00 :: x15 :: x10
               :: ([x01; x01] ++ replicate 14 x00) ++ [x00; xf0] ++ [xff]) false)
    newHeader
  = (mkStream [xff] false,
     set_huffmanACTables
       (<[Z.to_nat 0 :=
            mkHTable
              (0 :: running_sums 0 (map byte_val ([x01; x01] ++ replicate 14 x00)))
              (map byte_val [x00; xf0]
               ++ drop (length [x00; xf0])
                    (symbols (nth (Z.to_nat 0) (huffmanACTables newHeader)
                                newHTable)))
              true]> (huffmanACTables newHeader)) newHeader).
Proof.
  apply (dht_round_trip x00 x15 x10 ([x01; x01] ++ replicate 14 x00) [x00; xf0]
           [xff] newHeader 1 0);
    try reflexivity; try (simpl; lia).
  vm_compute. discriminate.
Defined.

Lemma acTable0_canonical : canonical_table acTable0.
Proof.
  split; [vm_compute; discriminate|]. split; [vm_compute; discriminate|].
  intros j Hj.
  do 16 (destruct j as [|j]; [vm_compute; split; discriminate|]). lia.
Qed.

Lemma generateCodes_canonical_witness :
  nth (Z.to_nat 1) (generateCodes acTable0 noCodes) 0
  = first_code acTable0 1 + (1 - offset_at acTable0 (Z.of_nat 1)).
Proof.
  apply (generateCodes_canonical acTable0 noCodes 1 1 acTable0_canonical);
    [reflexivity|lia|vm_compute; split; (discriminate || reflexivity)].
Defined.

Lemma huffman_round_trip_witness :
  getNextSymbol [128] (mkReader 0 0) (generateCodes acTable0 noCodes) acTable0
  = (nth (Z.to_nat 1) (symbols acTable0) 0, mkReader 0 2).
Proof.
  apply (huffman_round_trip [128] acTable0 noCodes 1 1 (mkReader 0 0)
           (mkReader 0 2) acTable0_canonical);
    [reflexivity|lia|vm_compute; split; (discriminate || reflexivity)
    |vm_compute; reflexivity].
Defined.

(** ** A scan without data *)

Lemma lookupSymbol_eof_canonical data t codes0 b m : forall (j : nat),
  canonical_table t -> length codes0 = 162%nat -> (j + m <= 16)%nat ->
  Z.of_nat (length data) <= nextByte b ->
  lookupSymbol data m (Z.of_nat j) (-1) b (generateCodes t codes0) t = (None, b).
Proof.
  induction m as [|m IH]; intros j Hcan Hlen Hjm Heof; cbn [lookupSymbol];
    [reflexivity|].
  pose proof (offsets_range t j Hcan ltac:(lia)) as Hoj.
  pose proof (first_code_nonneg t j Hcan ltac:(lia)) as Hfj.
  replace (Z.of_nat j + 1) with (Z.of_nat (S j)) by lia.
  rewrite findCode_miss.
  - rewrite readBit_eof by exact Heof.
    change (to_int (Z.lor (Z.shiftl (-1) 1) (-1))) with (-1).
    apply IH; (assumption || lia).
  - lia.
  - intros i Hi.
    destruct (Z.le_gt_cases (offset_at t (Z.of_nat (S j)))
                (offset_at t (Z.of_nat j))) as [Hnone|Hsome]; [lia|].
    rewrite Z2Nat.id in Hi by lia.
    rewrite (generateCodes_closed t codes0 j i Hcan Hlen ltac:(lia) ltac:(lia)).
    lia.
Qed.

Lemma getNextSymbol_eof_canonical data t codes0 b :
  canonical_table t -> length codes0 = 162%nat ->
  Z.of_nat (length data) <= nextByte b ->
  fst (getNextSymbol data b (generateCodes t codes0) t) = 255.
Proof.
  intros Hcan Hlen Heof. unfold getNextSymbol.
  rewrite readBit_eof by exact Heof.
  change 0 with (Z.of_nat 0) at 1.
  rewrite (lookupSymbol_eof_canonical data t codes0 b 16 0 Hcan Hlen
             (Nat.le_refl 16) Heof).
  reflexivity.
Qed.

Lemma noCodes_no_eof i : nth i noCodes 0 <> -1.
Proof.
  assert (H : forall n k, nth k (replicate n 0) 0 = 0).
  { induction n as [|n IH]; intros [|k]; cbn; try reflexivity. apply IH. }
  unfold noCodes. rewrite H. discriminate.
Qed.

Lemma codesFor_at tables : forall (id : nat),
  nth id (codesFor tables) noCodes = noCodes
  \/ nth id (codesFor tables) noCodes
     = generateCodes (nth id tables newHTable) noCodes.
Proof.
  unfold codesFor. induction tables as [|t tables IH]; intros [|id];
    cbn [map nth]; try (left; reflexivity).
  - destruct (h_set t); [right|left]; reflexivity.
  - apply IH.
Qed.

Lemma decodeMCU_exhausted freshMCU header i st :
  canonical_table (dctable_at header (huffmanDCTableID (component_at header 0))) ->
  Z.of_nat (length (huffmanData header)) <= nextByte (reader st) ->
  decodeMCU freshMCU header (codesFor (huffmanDCTables header))
            (codesFor (huffmanACTables header)) i st = None.
Proof.
  intros Hcan Heof. unfold decodeMCU. cbv zeta.
  assert (Hdc : fst (fst (decodeComponent header
                            (codesFor (huffmanDCTables header))
                            (codesFor (huffmanACTables header))
                            (component_at header 0) (reader st)
                            (y (mcu_at freshMCU (mcus st) i)) (previousYDC st)))
                = false).
  { unfold decodeComponent, decodeMCUComponent.
    assert (Hsym : fst (getNextSymbol (huffmanData header) (reader st)
                          (nth (Z.to_nat (huffmanDCTableID (component_at header 0)))
                               (codesFor (huffmanDCTables header)) noCodes)
                          (dctable_at header
                             (huffmanDCTableID (component_at header 0)))) = 255).
    { destruct (codesFor_at (huffmanDCTables header)
                  (Z.to_nat (huffmanDCTableID (component_at header 0))))
        as [-> | ->].
      - apply getNextSymbol_miss, eof_symbolMiss; [exact Heof|].
        apply noCodes_no_eof.
      - apply getNextSymbol_eof_canonical; [exact Hcan|reflexivity|exact Heof]. }
    destruct (getNextSymbol _ _ _ _) as [len b1]. cbn [fst] in Hsym. subst len.
    reflexivity. }
  destruct (decodeComponent _ _ _ (component_at header 0) _ _ _) as [[ok yv] rd].
  cbn [fst] in Hdc. subst ok. reflexivity.
Qed.

(** X23: a scan without entropy-coded data cannot be decoded.  When the
    DC table of the first component describes a canonical code and
    [huffmanData] is empty, decodeHuffmanData returns the null pointer for
    every image of at least one MCU: the first Huffman lookup runs into
    the end of the data and finds no code. *)
Theorem scan_without_data_fails freshMCU header alloc :
  canonical_table (dctable_at header (huffmanDCTableID (component_at header 0))) ->
  huffmanData header = [] -> 0 < mcuCount header ->
  decodeHuffmanData freshMCU header alloc = None.
Proof.
  intros Hcan Hdata Hcount. unfold decodeHuffmanData.
  destruct (negb alloc); [reflexivity|]. cbv zeta.
  destruct (Z.to_nat (mcuCount header)) as [|n] eqn:Hn; [lia|].
  cbn [decodeMCUs].
  rewrite decodeMCU_exhausted; [reflexivity|exact Hcan|].
  rewrite Hdata. cbn. lia.
Qed.

Lemma tiny_dc_canonical :
  canonical_table
    (dctable_at (set_huffmanData [] tiny_header)
       (huffmanDCTableID (component_at (set_huffmanData [] tiny_header) 0))).
Proof.
  split; [vm_compute; discriminate|]. split; [vm_compute; discriminate|].
  intros j Hj.
  do 16 (destruct j as [|j]; [vm_compute; split; discriminate|]). lia.
Qed.

Lemma scan_without_data_fails_witness :
  decodeHuffmanData zeroMCU (set_huffmanData [] tiny_header) true = None.
Proof.
  apply (scan_without_data_fails zeroMCU (set_huffmanData [] tiny_header) true
           tiny_dc_canonical);
    vm_compute; reflexivity.
Defined.

(** ** The loops of readJPG *)

(** X24: readJPG returns on every input.  Each pass of the marker loop
    and of the extraction loop consumes a byte of the file or meets its
    end, so that neither loop runs more often than the file has bytes,
    plus two. *)
Theorem readJPG_terminates (file : option (list byte)) (alloc : bool) :
  readJPG file alloc <> OutOfFuel.
Proof. exact (readJPG_total file alloc). Qed.

(** X25: the extraction loop accepts every entropy-coded segment.  For
    bytes [consumed] that form a segment with the payload [out] (plain
    bytes, stuffed FF 00 pairs, restart markers and fill bytes, ended by
    EOI), the loop appends exactly [out] to the data and leaves the stream
    right behind EOI. *)
Theorem scan_segment_accepted (consumed : list byte) (out : list Z)
    (c : byte) (tl rest : list byte) (fuel : nat) (data : list Z) :
  Scan consumed out ->
  consumed ++ rest = c :: tl -> (length tl < fuel)%nat ->
  readScanData fuel (mkStream tl false) (byte_val c) data
  = ScanDone (mkStream rest false) (data ++ out).
Proof.
  intros Hscan. exact (readScanData_complete consumed out Hscan c tl rest fuel data).
Qed.

Lemma scan_segment_accepted_witness :
  readScanData 9 (mkStream [xff; x00; xff; xd0; xff; xff; xd9; x2a] false)
               (byte_val x12) []
  = ScanDone (mkStream [x2a] false) ([] ++ [18; 255]).
Proof.
  apply (scan_segment_accepted [x12; xff; x00; xff; xd0; xff; xff; xd9] [18; 255]).
  - apply (scan_plain x12); [discriminate|].
    apply scan_stuffed. apply (scan_restart xd0); [reflexivity|].
    apply scan_fill. apply scan_eoi.
  - reflexivity.
  - simpl. lia.
Defined.

(** ** Frame and scan headers *)

Lemma sofComponent_read (idb sfb qb : byte) tl h (idx : nat) cs :
  zeroBased h = false -> colorComponents h = cs ->
  byte_val idb = Z.of_nat idx + 1 -> (idx < 3)%nat ->
  used (nth idx cs newComponent) = false -> byte_val qb <= 3 ->
  sofComponent (mkStream (idb :: sfb :: qb :: tl) false) h
  = (mkStream tl false,
     set_colorComponents
       (alter (frame_component (byte_val sfb) (byte_val qb)) idx cs) h,
     true).
Proof.
  intros Hzero Hcs Hid Hidx Hused Hq. unfold sofComponent.
  assert (E0 : (byte_val idb =? 0) = false) by (apply Z.eqb_neq; lia).
  assert (E4 : (byte_val idb =? 4) = false) by (apply Z.eqb_neq; lia).
  assert (E5 : (byte_val idb =? 5) = false) by (apply Z.eqb_neq; lia).
  assert (E3 : (3 <? byte_val idb) = false) by (apply Z.ltb_ge; lia).
  assert (Eq : (3 <? byte_val qb) = false) by (apply Z.ltb_ge; lia).
  rewrite get_byte_cons, E0, Hzero, E0, E4, E5, E3. cbn [orb].
  replace (Z.to_nat (byte_val idb - 1)) with idx by lia.
  unfold component_at. rewrite Hcs, Hused.
  rewrite !get_byte_cons, Eq.
  f_equal. f_equal.
  unfold alter_component, set_colorComponents.
  cbn [colorComponents quantizationTables huffmanDCTables huffmanACTables
       frameType height width numComponents zeroBased startOfSelection
       endOfSelection successiveApproximationHigh successiveApproximationLow
       restartInterval huffmanData valid].
  rewrite Hcs, !list_alter_alter_eq. reflexivity.
Qed.

(** X26: readStartOfFrame reads a well-formed frame header back.  On the
    SOF0 segment of a three-component image (precision 8, nonzero height
    and width, the component IDs 1, 2, 3, quantization table indices up to
    3, length 17), read into a header without a frame, it stores the
    height, the width, the number of components and, for each component,
    the two sampling factors (the nibbles of one byte) and the table
    index, marks the components used, leaves [valid] alone and consumes
    exactly the segment. *)
Theorem sof_round_trip (hh hl wh wl s1 q1 s2 q2 s3 q3 : byte) (rest : list byte)
    (h : Header) (c0 c1 c2 : ColorComponent) :
  numComponents h = 0 -> zeroBased h = false ->
  colorComponents h = [c0; c1; c2] ->
  used c0 = false -> used c1 = false -> used c2 = false ->
  256 * byte_val hh + byte_val hl <> 0 -> 256 * byte_val wh + byte_val wl <> 0 ->
  byte_val q1 <= 3 -> byte_val q2 <= 3 -> byte_val q3 <= 3 ->
  readStartOfFrame
    (mkStream ([x00; x11; x08; hh; hl; wh; wl; x03;
                x01; s1; q1; x02; s2; q2; x03; s3; q3] ++ rest) false) h
  = (mkStream rest false,
     set_colorComponents
       [frame_component (byte_val s1) (byte_val q1) c0;
        frame_component (byte_val s2) (byte_val q2) c1;
        frame_component (byte_val s3) (byte_val q3) c2]
       (set_numComponents 3
          (set_width (256 * byte_val wh + byte_val wl)
             (set_height (256 * byte_val hh + byte_val hl) h)))).
Proof.
  intros Hn Hzero Hcs Hu0 Hu1 Hu2 Hh Hw Hq1 Hq2 Hq3.
  pose proof (byte_val_range hh). pose proof (byte_val_range hl).
  pose proof (byte_val_range wh). pose proof (byte_val_range wl).
  unfold readStartOfFrame. rewrite Hn. cbn [Z.eqb negb app].
  rewrite get16_cons, get_byte_cons. change (byte_val x08 =? 8) with true.
  cbn [negb]. rewrite !get16_cons.
  assert (Eh : to_uint (256 * byte_val hh + byte_val hl)
               = 256 * byte_val hh + byte_val hl)
    by (unfold to_uint; apply Z.mod_small; lia).
  assert (Ew : to_uint (256 * byte_val wh + byte_val wl)
               = 256 * byte_val wh + byte_val wl)
    by (unfold to_uint; apply Z.mod_small; lia).
  rewrite Eh, Ew. cbn [height width set_height set_width].
  destruct (Z.eqb_spec (256 * byte_val hh + byte_val hl) 0) as [E|_]; [lia|].
  destruct (Z.eqb_spec (256 * byte_val wh + byte_val wl) 0) as [E|_]; [lia|].
  cbn [orb]. rewrite get_byte_cons.
  change (byte_val x03) with 3. cbn [Z.eqb]. change (Z.to_nat 3) with 3%nat.
  cbn [sofComponents].
  rewrite (sofComponent_read x01 s1 q1 _ _ 0 [c0; c1; c2])
    by (reflexivity || assumption || lia).
  cbn [alter list_alter].
  rewrite (sofComponent_read x02 s2 q2 _ _ 1
             [frame_component (byte_val s1) (byte_val q1) c0; c1; c2])
    by (reflexivity || assumption || lia).
  cbn [alter list_alter].
  rewrite (sofComponent_read x03 s3 q3 _ _ 2
             [frame_component (byte_val s1) (byte_val q1) c0;
              frame_component (byte_val s2) (byte_val q2) c1; c2])
    by (reflexivity || assumption || lia).
  cbn [alter list_alter negb].
  change (to_uint (256 * byte_val x00 + byte_val x11)) with 17.
  change (to_uint (17 - 8 - 3 * 3) =? 0) with true. cbn [negb].
  reflexivity.
Qed.

Lemma sosComponent_read (idb tb : byte) tl h (idx : nat) cs :
  zeroBased h = false -> colorComponents h = cs ->
  byte_val idb = Z.of_nat idx + 1 -> byte_val idb <= numComponents h ->
  (idx < 3)%nat -> used (nth idx cs newComponent) = false ->
  Z.shiftr (byte_val tb) 4 <= 3 -> Z.land (byte_val tb) 15 <= 3 ->
  sosComponent (mkStream (idb :: tb :: tl) false) h
  = InBounds (mkStream tl false,
              set_colorComponents
                (alter (scan_component (byte_val tb)) idx cs) h,
              true).
Proof.
  intros Hzero Hcs Hid Hn Hidx Hused Hdc Hac. unfold sosComponent.
  assert (En : (numComponents h <? byte_val idb) = false) by (apply Z.ltb_ge; lia).
  assert (E0 : (byte_val idb - 1 <? 0) = false) by (apply Z.ltb_ge; lia).
  assert (E3 : (3 <=? byte_val idb - 1) = false) by (apply Z.leb_gt; lia).
  assert (Ed : (3 <? Z.shiftr (byte_val tb) 4) = false) by (apply Z.ltb_ge; lia).
  assert (Ea : (3 <? Z.land (byte_val tb) 15) = false) by (apply Z.ltb_ge; lia).
  rewrite get_byte_cons, Hzero, En, E0, E3. cbn [orb].
  replace (Z.to_nat (byte_val idb - 1)) with idx by lia.
  unfold component_at. rewrite Hcs, Hused.
  rewrite get_byte_cons, Ed, Ea.
  f_equal. f_equal. f_equal.
  unfold alter_component, set_colorComponents.
  cbn [colorComponents quantizationTables huffmanDCTables huffmanACTables
       frameType height width numComponents zeroBased startOfSelection
       endOfSelection successiveApproximationHigh successiveApproximationLow
       restartInterval huffmanData valid].
  rewrite Hcs, !list_alter_alter_eq. reflexivity.
Qed.

(** X27: readStartOfScan reads a well-formed scan header back.  On the
    SOS header of a three-component scan (component IDs 1, 2, 3, Huffman
    table indices up to 3, selection 0..63, approximation 0, length 12) it
    stores for each component the DC and AC table indices (the nibbles of
    one byte), marks the components used, stores the selection, leaves
    [valid] alone and consumes exactly the header. *)
Theorem sos_round_trip (t1 t2 t3 : byte) (rest : list byte)
    (h : Header) (c0 c1 c2 : ColorComponent) :
  numComponents h = 3 -> zeroBased h = false ->
  colorComponents h = [c0; c1; c2] ->
  Z.shiftr (byte_val t1) 4 <= 3 -> Z.land (byte_val t1) 15 <= 3 ->
  Z.shiftr (byte_val t2) 4 <= 3 -> Z.land (byte_val t2) 15 <= 3 ->
  Z.shiftr (byte_val t3) 4 <= 3 -> Z.land (byte_val t3) 15 <= 3 ->
  readStartOfScan
    (mkStream ([x00; x0c; x03; x01; t1; x02; t2; x03; t3; x00; x3f; x00]
               ++ rest) false) h
  = InBounds
      (mkStream rest false,
       set_selection 0 63 0 0
         (set_colorComponents
            [scan_component (byte_val t1) c0; scan_component (byte_val t2) c1;
             scan_component (byte_val t3) c2] h)).
Proof.
  intros Hn Hzero Hcs Hd1 Ha1 Hd2 Ha2 Hd3 Ha3.
  unfold readStartOfScan. rewrite Hn. cbn [Z.eqb app].
  rewrite get16_cons. change (Z.to_nat 3) with 3%nat.
  unfold clearUsed, alter_component. cbn [Nat.leb].
  cbn [colorComponents set_colorComponents]. rewrite Hcs. cbn [alter list_alter].
  rewrite get_byte_cons. change (byte_val x03) with 3.
  change (Z.to_nat 3) with 3%nat. cbn [sosComponents].
  rewrite (sosComponent_read x01 t1 _ _ 0
             [with_used false c0; with_used false c1; with_used false c2])
    by (reflexivity || assumption || (cbn; lia)).
  cbn [alter list_alter].
  rewrite (sosComponent_read x02 t2 _ _ 1
             [scan_component (byte_val t1) (with_used false c0);
              with_used false c1; with_used false c2])
    by (reflexivity || assumption || (cbn; lia)).
  cbn [alter list_alter].
  rewrite (sosComponent_read x03 t3 _ _ 2
             [scan_component (byte_val t1) (with_used false c0);
              scan_component (byte_val t2) (with_used false c1);
              with_used false c2])
    by (reflexivity || assumption || (cbn; lia)).
  cbn [alter list_alter].
  rewrite !get_byte_cons.
  change (byte_val x00) with 0. change (byte_val x3f) with 63.
  cbn [set_selection startOfSelection endOfSelection
       successiveApproximationHigh successiveApproximationLow
       Z.eqb Z.shiftr Z.land negb orb].
  change (to_uint (256 * 0 + byte_val x0c)) with 12.
  change (to_uint (12 - 6 - 2 * 3) =? 0) with true. cbn [negb].
  reflexivity.
Qed.

Lemma sof_round_trip_witness :
  readStartOfFrame
    (mkStream ([x00; x11; x08; x00; x08; x00; x10; x03;
                x01; x22; x00; x02; x11; x01; x03; x11; x01] ++ [xff]) false)
    newHeader
  = (mkStream [xff] false,
     set_colorComponents
       [frame_component (byte_val x22) (byte_val x00) newComponent;
        frame_component (byte_val x11) (byte_val x01) newComponent;
        frame_component (byte_val x11) (byte_val x01) newComponent]
       (set_numComponents 3
          (set_width (256 * byte_val x00 + byte_val x10)
             (set_height (256 * byte_val x00 + byte_val x08) newHeader)))).
Proof.
  apply (sof_round_trip x00 x08 x00 x10 x22 x00 x11 x01 x11 x01 [xff] newHeader
           newComponent newComponent newComponent);
    try reflexivity; vm_compute; discriminate.
Defined.

Lemma sos_round_trip_witness :
  readStartOfScan
    (mkStream ([x00; x0c; x03; x01; x00; x02; x11; x03; x11; x00; x3f; x00]
               ++ [xff]) false)
    (set_numComponents 3 newHeader)
  = InBounds
      (mkStream [xff] false,
       set_selection 0 63 0 0
         (set_colorComponents
            [scan_component (byte_val x00) newComponent;
             scan_component (byte_val x11) newComponent;
             scan_component (byte_val x11) newComponent]
            (set_numComponents 3 newHeader))).
Proof.
  apply (sos_round_trip x00 x11 x11 [xff] (set_numComponents 3 newHeader)
           newComponent newComponent newComponent);
    try reflexivity; vm_compute; discriminate.
Defined.

(** ** Bytes after the end of the image *)

Lemma get_ext junk s :
  failbit (snd (get s)) = false ->
  get (extended junk s) = (fst (get s), extended junk (snd (get s))).
Proof.
  unfold get, extended. destruct s as [p f]. cbn [failbit pending].
  destruct f; [cbn; discriminate|].
  destruct p as [|c p]; [cbn; discriminate|]. intros _. reflexivity.
Qed.

Lemma get_byte_ext junk s :
  failbit (snd (get_byte s)) = false ->
  get_byte (extended junk s)
  = (fst (get_byte s), extended junk (snd (get_byte s))).
Proof.
  unfold get_byte. pose proof (get_ext junk s) as E.
  destruct (get s) as [v s1]. cbn [fst snd] in *. intros Hok.
  rewrite (E Hok). reflexivity.
Qed.

Lemma retailed_extended junk s : retailed 0 junk s = extended junk s.
Proof.
  unfold retailed, extended. rewrite Nat.sub_0_r, firstn_all. reflexivity.
Qed.

Lemma failbit_extended junk s : failbit (extended junk s) = failbit s.
Proof. reflexivity. Qed.

Lemma readMarkers_ext junk fuel : forall s last current h s' h',
  readMarkers fuel s last current h = MLeave s' h' -> failbit s' = false ->
  readMarkers fuel (extended junk s) last current h
  = MLeave (extended junk s') h'.
Proof.
  intros s last current h s' h' Hrun Hok. rewrite <- !retailed_extended.
  apply readMarkers_retailed; [exact Hrun|]. split; [exact Hok|lia].
Qed.

(** *** The entropy-coded bytes *)

Lemma readScanData_started fuel s current data s' data' :
  readScanData fuel s current data = ScanDone s' data' -> failbit s = false.
Proof.
  intros H. destruct (failbit s) eqn:Hf; [|reflexivity].
  exfalso. exact (readScanData_failed _ _ _ _ _ _ Hf H).
Qed.

Lemma readScanData_ext junk fuel : forall s current data s' data',
  readScanData fuel s current data = ScanDone s' data' ->
  readScanData fuel (extended junk s) current data
  = ScanDone (extended junk s') data'.
Proof.
  induction fuel as [|fuel IH]; intros s current data s' data';
    cbn [readScanData]; [discriminate|].
  rewrite failbit_extended.
  destruct (failbit s) eqn:Hf; [discriminate|].
  pose proof (get_byte_ext junk s) as E0.
  pose proof (get_byte_eof s) as Z0.
  pose proof (get_byte_advances s) as A0.
  destruct (get_byte s) as [c1 s1]. cbn [fst snd] in E0, Z0, A0.
  destruct (current =? 255).
  - destruct (c1 =? EOI) eqn:Heoi.
    { intros [= <- <-].
      rewrite E0; [rewrite Heoi; reflexivity|].
      destruct (failbit s1); [|reflexivity].
      rewrite (Z0 eq_refl) in Heoi. discriminate. }
    destruct (c1 =? 0) eqn:Hzero.
    { pose proof (get_byte_ext junk s1) as E1.
      pose proof (get_byte_advances s1) as A1.
      destruct (get_byte s1) as [c2 s2]. cbn [fst snd] in E1, A1.
      intros H. pose proof (readScanData_started _ _ _ _ _ _ H) as H2.
      rewrite (E0 (advances_ok _ _ A1 H2)), Heoi, Hzero, (E1 H2).
      exact (IH _ _ _ _ _ H). }
    destruct (in_range RST0 RST7 c1) eqn:Hrst.
    { pose proof (get_byte_ext junk s1) as E1.
      pose proof (get_byte_advances s1) as A1.
      destruct (get_byte s1) as [c2 s2]. cbn [fst snd] in E1, A1.
      intros H. pose proof (readScanData_started _ _ _ _ _ _ H) as H2.
      rewrite (E0 (advances_ok _ _ A1 H2)), Heoi, Hzero, Hrst, (E1 H2).
      exact (IH _ _ _ _ _ H). }
    destruct (c1 =? 255) eqn:Hff; [|discriminate].
    intros H. pose proof (readScanData_started _ _ _ _ _ _ H) as H1.
    rewrite (E0 H1), Heoi, Hzero, Hrst, Hff. exact (IH _ _ _ _ _ H).
  - intros H. pose proof (readScanData_started _ _ _ _ _ _ H) as H1.
    rewrite (E0 H1). exact (IH _ _ _ _ _ H).
Qed.

Lemma readScanData_more k fuel : forall s current data,
  readScanData fuel s current data <> ScanOutOfFuel ->
  readScanData (fuel + k) s current data = readScanData fuel s current data.
Proof.
  induction fuel as [|fuel IH]; intros s current data;
    cbn [readScanData Nat.add]; [congruence|].
  destruct (failbit s); [reflexivity|].
  destruct (get_byte s) as [c1 s1].
  branches; try reflexivity; try apply IH.
  all: destruct (get_byte s1) as [c2 s2]; apply IH.
Qed.

Lemma pending_extended junk s :
  length (pending (extended junk s)) = (length (pending s) + length junk)%nat.
Proof. unfold extended. cbn [pending]. apply length_app. Qed.

Lemma readJPG_tail_ext junk s l c h :
  valid h = true ->
  readJPG_tail (readMarkers (S (S (length (pending s)))) s l c newHeader) = Hdr h ->
  readJPG_tail
    (readMarkers (S (S (length (pending (extended junk s)))))
       (extended junk s) l c newHeader) = Hdr h.
Proof.
  intros Hv. rewrite pending_extended.
  change (S (S (length (pending s) + length junk)))
    with (S (S (length (pending s))) + length junk)%nat.
  destruct (readMarkers (S (S (length (pending s)))) s l c newHeader)
    as [h1|s4 h4|i|] eqn:Hm; cbn [readJPG_tail]; try discriminate.
  { intros [= ->]. apply readMarkers_return in Hm. congruence. }
  destruct (valid h4) eqn:Hv4.
  2:{ intros [= <-]. rewrite (validateHeader_valid _ Hv) in Hv. congruence. }
  pose proof (get_byte_ext junk s4) as E4.
  pose proof (get_byte_advances s4) as A4.
  destruct (get_byte s4) as [c5 s5]. cbn [fst snd] in E4, A4.
  destruct (readScanData _ s5 c5 (huffmanData h4)) as [d|s6 d|] eqn:Hscan;
    try discriminate.
  { intros [= <-]. discriminate. }
  intros Hres.
  pose proof (readScanData_done_failbit _ _ _ _ _ _ Hscan) as H6.
  pose proof (readScanData_advances _ _ _ _ _ _ Hscan) as A5.
  assert (H5 : failbit s5 = false) by exact (advances_ok _ _ A5 H6).
  assert (H4 : failbit s4 = false) by exact (advances_ok _ _ A4 H5).
  pose proof (readMarkers_ext junk _ _ _ _ _ _ _ Hm H4) as Hm'.
  rewrite readMarkers_more by (rewrite Hm'; discriminate).
  rewrite Hm'.
  cbn [readJPG_tail]. rewrite Hv4, (E4 H5), pending_extended.
  change (S (S (length (pending s5) + length junk)))
    with (S (S (length (pending s5))) + length junk)%nat.
  pose proof (readScanData_ext junk _ _ _ _ _ _ Hscan) as Hscan'.
  rewrite readScanData_more by (rewrite Hscan'; discriminate).
  rewrite Hscan'. exact Hres.
Qed.

Lemma readJPG_ext junk bytes h :
  readJPG (Some bytes) true = Hdr h -> valid h = true ->
  readJPG (Some (bytes ++ junk)) true = Hdr h.
Proof.
  intros H Hv. revert H. unfold readJPG. cbn [negb].
  change (mkStream (bytes ++ junk) false)
    with (extended junk (mkStream bytes false)).
  generalize (mkStream bytes false) as s. intros s.
  pose proof (get_byte_ext junk s) as E0.
  pose proof (get_byte_advances s) as A0.
  destruct (get_byte s) as [l0 s0]. cbn [fst snd] in E0, A0.
  pose proof (get_byte_ext junk s0) as E1.
  pose proof (get_byte_advances s0) as A1.
  destruct (get_byte s0) as [c0 s1]. cbn [fst snd] in E1, A1.
  destruct (negb (l0 =? 255) || negb (c0 =? SOI)) eqn:Hsoi.
  { intros [= <-]. discriminate. }
  pose proof (get_byte_ext junk s1) as E2.
  pose proof (get_byte_advances s1) as A2.
  destruct (get_byte s1) as [l1 s2]. cbn [fst snd] in E2, A2.
  pose proof (get_byte_ext junk s2) as E3.
  pose proof (get_byte_advances s2) as A3.
  destruct (get_byte s2) as [c1 s3]. cbn [fst snd] in E3, A3.
  intros H.
  assert (H3 : failbit s3 = false).
  { destruct (readMarkers (S (S (length (pending s3)))) s3 l1 c1 newHeader)
      as [h1|s4 h4|i|] eqn:Hm; cbn [readJPG_tail] in H; try discriminate.
    { injection H as ->. apply readMarkers_return in Hm. congruence. }
    destruct (valid h4) eqn:Hv4.
    2:{ injection H as <-. rewrite (validateHeader_valid _ Hv) in Hv. congruence. }
    pose proof (get_byte_advances s4) as A4.
    destruct (get_byte s4) as [c5 s5]. cbn [fst snd] in A4.
    destruct (readScanData _ s5 c5 (huffmanData h4)) as [d|s6 d|] eqn:Hscan;
      try discriminate.
    { injection H as <-. discriminate. }
    pose proof (readScanData_done_failbit _ _ _ _ _ _ Hscan) as H6.
    pose proof (readScanData_advances _ _ _ _ _ _ Hscan) as A5.
    pose proof (proj1 (readMarkers_leave _ _ _ _ _ _ _ Hm)) as Am.
    exact (advances_ok _ _ Am (advances_ok _ _ A4 (advances_ok _ _ A5 H6))). }
  assert (H2 : failbit s2 = false) by exact (advances_ok _ _ A3 H3).
  assert (H1 : failbit s1 = false) by exact (advances_ok _ _ A2 H2).
  assert (H0 : failbit s0 = false) by exact (advances_ok _ _ A1 H1).
  rewrite (E0 H0), (E1 H1), Hsoi, (E2 H2), (E3 H3).
  exact (readJPG_tail_ext junk _ _ _ _ Hv H).
Qed.

(** X28: bytes that follow the EOI marker are not looked at: when
    readJPG returns a valid header for a file, it returns the same header
    for the file with any bytes appended. *)
Theorem trailing_bytes_ignored (bytes junk : list byte) (h : Header) :
  readJPG (Some bytes) true = Hdr h -> valid h = true ->
  readJPG (Some (bytes ++ junk)) true = Hdr h.
Proof. exact (readJPG_ext junk bytes h). Qed.

Lemma trailing_bytes_ignored_witness :
  readJPG (Some tiny_jpg) true = Hdr tiny_header
  /\ valid tiny_header = true
  /\ readJPG (Some (tiny_jpg ++ [x00; xff; xd8])) true = Hdr tiny_header.
Proof.
  split; [vm_compute; reflexivity|]. split; [vm_compute; reflexivity|].
  apply (trailing_bytes_ignored tiny_jpg [x00; xff; xd8] tiny_header);
    vm_compute; reflexivity.
Defined.
